(** * octoevents: the event reconciliation engine

    A shallow embedding of the Go sources of matthewgall/octoevents
    (events.go, the merge/change-detection helpers, the conditional
    cache, the secondary fetcher and [fetchAndUpdateEvents]) together
    with the properties of its reconciliation run.

    Conventions.
    - [time.Time] is an instant (nanoseconds since the Unix epoch, any
      integer) together with the zone offset in force at that instant.
    - A Go [map] is a [gmap]; the order in which [range] visits it and
      the order [sort.Slice] leaves between elements that compare equal
      are not fixed by Go, so they are supplied by a [GoRuntime].
    - A file holds either a JSON document or bytes that are not one;
      the documents produced and consumed by [encoding/json] are
      modelled as trees, the field names and [omitempty] flags coming
      from the struct tags of the sources.
    - A Go [string] is a string of bytes; [encoding/json] coerces it to
      valid UTF-8 when it writes a string and when it reads one. *)

From Stdlib Require Import ZArith Lia String Ascii List Sorted Permutation.
From stdpp Require Import gmap strings list sorting.
Import ListNotations.

(* ===================================================================== *)
(** ** Package [time]: instants, the civil calendar, the two layouts     *)
(* ===================================================================== *)

Module GoTime.
Local Open Scope Z_scope.

(** An instant with the offset (seconds east of UTC) of its location. *)
Record Time : Type := mkTime { unixNano : Z; zoneOffset : Z }.

(** [t.Before(u)]: comparison of instants, the location plays no role. *)
Definition Before (t u : Time) : bool := unixNano t <? unixNano u.

(** [t.Equal(u)]. *)
Definition Equal (t u : Time) : bool := unixNano t =? unixNano u.

Definition isLeap (year : Z) : bool :=
  (year mod 4 =? 0) && (negb (year mod 100 =? 0) || (year mod 400 =? 0)).

(** Days before the first of month [m] in a non-leap year. *)
Definition daysBefore (m : Z) : Z :=
  match m with
  | 1 => 0 | 2 => 31 | 3 => 59 | 4 => 90 | 5 => 120 | 6 => 151
  | 7 => 181 | 8 => 212 | 9 => 243 | 10 => 273 | 11 => 304 | 12 => 334
  | _ => 365
  end.

Definition daysIn (m year : Z) : Z :=
  if (m =? 2) && isLeap year then 29 else daysBefore (m + 1) - daysBefore m.

(** Days from 0001-01-01 to the first of January of [year]. *)
Definition daysSinceYearOne (year : Z) : Z :=
  365 * (year - 1) + (year - 1) / 4 - (year - 1) / 100 + (year - 1) / 400.

Definition unixEpochDay : Z := 719162.

(** The day number (days since 1970-01-01) of a valid civil date. *)
Definition civilToDays (year m d : Z) : Z :=
  daysSinceYearOne year + daysBefore m
  + (if (3 <=? m) && isLeap year then 1 else 0) + (d - 1) - unixEpochDay.

(** The civil date of a day number, on the proleptic Gregorian calendar
    (computed on 400-year eras that start on the first of March). *)
Definition daysToCivil (z : Z) : Z * Z * Z :=
  let z' := z + 719468 in
  let era := z' / 146097 in
  let doe := z' mod 146097 in
  let yoe := (doe - doe / 1460 + doe / 36524 - doe / 146096) / 365 in
  let doy := doe - (365 * yoe + yoe / 4 - yoe / 100) in
  let mp := (5 * doy + 2) / 153 in
  let d := doy - (153 * mp + 2) / 5 + 1 in
  let m := if mp <? 10 then mp + 3 else mp - 9 in
  (yoe + era * 400 + (if m <=? 2 then 1 else 0), m, d).

(** [time.Date(year, month, day, hour, min, sec, nsec, time.UTC)] on
    fields already validated by [Parse]. *)
Definition Date (year m d hh mm ss nsec : Z) : Time :=
  mkTime ((((civilToDays year m d * 24 + hh) * 60 + mm) * 60 + ss)
          * 1000000000 + nsec) 0.

(** The wall clock of [t] in its own location. *)
Record Clock : Type := mkClock {
  cYear : Z; cMonth : Z; cDay : Z;
  cHour : Z; cMinute : Z; cSecond : Z; cNano : Z }.

Definition wallClock (t : Time) : Clock :=
  let abs := unixNano t + zoneOffset t * 1000000000 in
  let secs := abs / 1000000000 in
  let days := secs / 86400 in
  let sod := secs mod 86400 in
  let '(y, m, d) := daysToCivil days in
  mkClock y m d (sod / 3600) (sod mod 3600 / 60) (sod mod 60)
          (abs mod 1000000000).

Definition Year (t : Time) : Z := cYear (wallClock t).

(** *** Formatting *)

Definition digitChar (d : Z) : ascii := ascii_of_nat (48 + Z.to_nat d).

Fixpoint utoaFuel (fuel : nat) (n : Z) : string :=
  match fuel with
  | O => EmptyString
  | S f =>
      if n <? 10 then String (digitChar n) EmptyString
      else utoaFuel f (n / 10) +:+ String (digitChar (n mod 10)) EmptyString
  end.

(** Decimal digits of a non-negative integer, without leading zeros. *)
Definition utoa (n : Z) : string := utoaFuel (S (Z.to_nat (Z.log2 n))) n.

Fixpoint zeros (k : nat) : string :=
  match k with O => EmptyString | S k' => String "0" (zeros k') end.

(** [appendInt(b, x, width)] of package time: sign, then the digits
    padded with zeros on the left up to [width]. *)
Definition appendInt (x : Z) (width : nat) : string :=
  let u := utoa (Z.abs x) in
  (if x <? 0 then "-" else "") +:+ zeros (width - String.length u) +:+ u.

(** [strconv.Itoa]. *)
Definition Itoa (x : Z) : string :=
  (if x <? 0 then "-" else "") +:+ utoa (Z.abs x).

Definition formatDateTime (c : Clock) : string :=
  appendInt (cYear c) 4 +:+ "-" +:+ appendInt (cMonth c) 2 +:+ "-"
  +:+ appendInt (cDay c) 2 +:+ "T" +:+ appendInt (cHour c) 2 +:+ ":"
  +:+ appendInt (cMinute c) 2 +:+ ":" +:+ appendInt (cSecond c) 2.

(** [t.Format("2006-01-02T15:04:05.000Z")]: the wall clock of [t] in its
    own location, the fraction cut (not rounded) to three digits, and a
    final [Z] that the layout holds as a plain letter. *)
Definition formatMillisZ (t : Time) : string :=
  let c := wallClock t in
  formatDateTime c +:+ "." +:+ appendInt (cNano c / 1000000) 3 +:+ "Z".

(** The zone part of [time.RFC3339], [Z07:00]. *)
Definition formatZone (offset : Z) : string :=
  if offset =? 0 then "Z"
  else
    let zone := Z.quot offset 60 in
    let az := Z.abs zone in
    (if zone <? 0 then "-" else "+")
    +:+ appendInt (az / 60) 2 +:+ ":" +:+ appendInt (az mod 60) 2.

(** [t.Format(time.RFC3339)]: whole seconds and the zone. *)
Definition formatRFC3339 (t : Time) : string :=
  formatDateTime (wallClock t) +:+ formatZone (zoneOffset t).

(** *** Parsing with the layout [2006-01-02T15:04:05.000Z] *)

Definition isDigit (c : ascii) : bool :=
  let n := nat_of_ascii c in (48 <=? n)%nat && (n <=? 57)%nat.

Definition digitVal (c : ascii) : Z := Z.of_nat (nat_of_ascii c) - 48.

(** [getnum(s, fixed)]: one or two digits, two when [fixed]. *)
Definition getnum (s : string) (fixed : bool) : option (Z * string) :=
  match s with
  | String a rest =>
      if isDigit a then
        match rest with
        | String b rest' =>
            if isDigit b then Some (digitVal a * 10 + digitVal b, rest')
            else if fixed then None else Some (digitVal a, rest)
        | EmptyString => if fixed then None else Some (digitVal a, rest)
        end
      else None
  | EmptyString => None
  end.

(** The four-digit year of [stdLongYear]. *)
Definition getYear (s : string) : option (Z * string) :=
  match s with
  | String a (String b (String c (String d rest))) =>
      if isDigit a && isDigit b && isDigit c && isDigit d then
        Some (((digitVal a * 10 + digitVal b) * 10 + digitVal c) * 10
              + digitVal d, rest)
      else None
  | _ => None
  end.

(** A literal character of the layout. *)
Definition skipChar (c : ascii) (s : string) : option string :=
  match s with
  | String a rest => if Ascii.eqb a c then Some rest else None
  | EmptyString => None
  end.

(** [parseNanoseconds(value, 4)] for the layout element [.000]: a period
    or a comma, then three characters read by the package's [atoi],
    which lets a sign stand before the digits. *)
Definition getMillis (s : string) : option (Z * string) :=
  match s with
  | String p (String a (String b (String c rest))) =>
      if Ascii.eqb p "." || Ascii.eqb p "," then
        if isDigit a && isDigit b && isDigit c then
          Some ((digitVal a * 10 + digitVal b) * 10 + digitVal c, rest)
        else if Ascii.eqb a "+" && isDigit b && isDigit c then
          Some (digitVal b * 10 + digitVal c, rest)
        else if Ascii.eqb a "-" && isDigit b && isDigit c then
          (if digitVal b * 10 + digitVal c =? 0 then Some (0, rest) else None)
        else None
      else None
  | _ => None
  end.

(** [time.Parse("2006-01-02T15:04:05.000Z", value)]; [None] stands for
    any parse error. The layout names no zone, the result is in UTC. *)
Definition parseMillisZ (value : string) : option Time :=
  '(year, v) ← getYear value;
  v ← skipChar "-" v;
  '(month, v) ← getnum v true;
  if (month <=? 0) || (12 <? month) then None else
  v ← skipChar "-" v;
  '(day, v) ← getnum v true;
  v ← skipChar "T" v;
  '(hour, v) ← getnum v false;
  if 24 <=? hour then None else
  v ← skipChar ":" v;
  '(minute, v) ← getnum v true;
  if 60 <=? minute then None else
  v ← skipChar ":" v;
  '(sec, v) ← getnum v true;
  if 60 <=? sec then None else
  '(ms, v) ← getMillis v;
  v ← skipChar "Z" v;
  match v with
  | EmptyString =>
      if (day <? 1) || (daysIn month year <? day) then None
      else Some (Date year month day hour minute sec (ms * 1000000))
  | String _ _ => None
  end.

End GoTime.

Import GoTime.

(* ===================================================================== *)
(** ** Package [encoding/json]: documents and field names                *)
(* ===================================================================== *)

Module Json.

(** A JSON document. Object members keep their order and may repeat. *)
#[warnings="-register-all"]
Inductive json : Type :=
| JNull
| JBool (b : bool)
| JNumber (literal : string)
| JString (s : string)
| JArray (items : list json)
| JObject (members : list (string * json)).

(** What a file (or a response body) holds: a document, or bytes that
    [encoding/json] rejects. *)
Inductive Bytes : Type :=
| Document (j : json)
| NotJson.

Definition upperByte (c : ascii) : ascii :=
  let n := nat_of_ascii c in
  if (97 <=? n)%nat && (n <=? 122)%nat then ascii_of_nat (n - 32) else c.

(** The case folding under which the decoder matches a member name with
    a field: ASCII letters, and the two letters outside ASCII whose fold
    is an ASCII one (U+017F, bytes C5 BF, folds to S; U+212A, bytes
    E2 84 AA, folds to K). Every field name of this program is ASCII, so
    no other letter can make a member name match. *)
Fixpoint foldName (s : string) : string :=
  match s with
  | EmptyString => EmptyString
  | String c rest =>
      match rest with
      | String c2 rest2 =>
          if Ascii.eqb c (ascii_of_nat 197) && Ascii.eqb c2 (ascii_of_nat 191)
          then String "S" (foldName rest2)
          else
            match rest2 with
            | String c3 rest3 =>
                if Ascii.eqb c (ascii_of_nat 226)
                   && Ascii.eqb c2 (ascii_of_nat 132)
                   && Ascii.eqb c3 (ascii_of_nat 170)
                then String "K" (foldName rest3)
                else String (upperByte c) (foldName rest)
            | EmptyString => String (upperByte c) (foldName rest)
            end
      | EmptyString => String (upperByte c) EmptyString
      end
  end.

(** Does the member name [key] select the field tagged [name]? *)
Definition isField (name key : string) : bool :=
  String.eqb (foldName key) (foldName name).

(** *** Strings and UTF-8

    The payload of [JString] is the text of the literal with its escapes
    resolved. Go strings are byte strings; the encoder and the decoder
    both read them rune by rune with package [unicode/utf8] and put
    U+FFFD (bytes EF BF BD) in the place of every byte that does not
    begin a valid encoding. *)

Definition between (lo hi : nat) (c : ascii) : bool :=
  let n := nat_of_ascii c in (lo <=? n)%nat && (n <=? hi)%nat.

(** A byte below [utf8.RuneSelf]. *)
Definition isASCII (c : ascii) : bool := (nat_of_ascii c <? 128)%nat.

(** A continuation byte, 80 to BF. *)
Definition isCont (c : ascii) : bool := between 128 191 c.

(** The first byte of a two-byte encoding, C2 to DF. *)
Definition starts2 (c1 : ascii) : bool := between 194 223 c1.

(** The first two bytes of a three-byte encoding, with the accept
    ranges of package [utf8]: E0 wants A0..BF (no overlong form), ED
    wants 80..9F (no surrogate). *)
Definition starts3 (c1 c2 : ascii) : bool :=
  let n := nat_of_ascii c1 in
  if (n =? 224)%nat then between 160 191 c2
  else if (n =? 237)%nat then between 128 159 c2
  else between 225 239 c1 && isCont c2.

(** The first two bytes of a four-byte encoding: F0 wants 90..BF, F4
    wants 80..8F (nothing above U+10FFFF). *)
Definition starts4 (c1 c2 : ascii) : bool :=
  let n := nat_of_ascii c1 in
  if (n =? 240)%nat then between 144 191 c2
  else if (n =? 244)%nat then between 128 143 c2
  else between 241 243 c1 && isCont c2.

(** [utf8.ValidString]. *)
Fixpoint ValidString (s : string) : bool :=
  match s with
  | EmptyString => true
  | String c1 r1 =>
      if isASCII c1 then ValidString r1
      else
        match r1 with
        | String c2 r2 =>
            if starts2 c1 && isCont c2 then ValidString r2
            else
              match r2 with
              | String c3 r3 =>
                  if starts3 c1 c2 && isCont c3 then ValidString r3
                  else
                    match r3 with
                    | String c4 r4 =>
                        if starts4 c1 c2 && isCont c3 && isCont c4
                        then ValidString r4
                        else false
                    | EmptyString => false
                    end
              | EmptyString => false
              end
        | EmptyString => false
        end
  end.

(** U+FFFD in UTF-8, before [rest]. *)
Definition replacementChar (rest : string) : string :=
  String (ascii_of_nat 239) (String (ascii_of_nat 191)
    (String (ascii_of_nat 189) rest)).

(** The string value that [encoding/json] writes for [s] and that it
    reads from a literal with the text [s]: valid encodings are kept,
    every other byte becomes U+FFFD. *)
Fixpoint coerceToUTF8 (s : string) : string :=
  match s with
  | EmptyString => EmptyString
  | String c1 r1 =>
      if isASCII c1 then String c1 (coerceToUTF8 r1)
      else
        match r1 with
        | String c2 r2 =>
            if starts2 c1 && isCont c2
            then String c1 (String c2 (coerceToUTF8 r2))
            else
              match r2 with
              | String c3 r3 =>
                  if starts3 c1 c2 && isCont c3
                  then String c1 (String c2 (String c3 (coerceToUTF8 r3)))
                  else
                    match r3 with
                    | String c4 r4 =>
                        if starts4 c1 c2 && isCont c3 && isCont c4
                        then String c1 (String c2 (String c3
                               (String c4 (coerceToUTF8 r4))))
                        else replacementChar (coerceToUTF8 r1)
                    | EmptyString => replacementChar (coerceToUTF8 r1)
                    end
              | EmptyString => replacementChar (coerceToUTF8 r1)
              end
        | EmptyString => replacementChar (coerceToUTF8 r1)
        end
  end.

(** Decoding into a [string] field that now holds [cur]. *)
Definition decodeString (cur : string) (j : json) : option string :=
  match j with
  | JString s => Some (coerceToUTF8 s)
  | JNull => Some cur
  | _ => None
  end.

(** Decoding into a [bool] field. *)
Definition decodeBool (cur : bool) (j : json) : option bool :=
  match j with
  | JBool b => Some b
  | JNull => Some cur
  | _ => None
  end.

(** Decoding into a [*bool] field: [null] resets the pointer. *)
Definition decodeBoolPtr (j : json) : option (option bool) :=
  match j with
  | JBool b => Some (Some b)
  | JNull => Some None
  | _ => None
  end.

End Json.

Import Json.

(* ===================================================================== *)
(** ** events.go: the data model                                         *)
(* ===================================================================== *)

(** [Event]; [IsTest] is a [*bool], [None] is the nil pointer. *)
Record Event : Type := mkEvent {
  Code : string;
  EndAt : Time;
  IsEventParticipant : bool;
  Name : string;
  StartAt : Time;
  Typename : string;
  IsTest : option bool }.

Record OutputEvent : Type := mkOutputEvent {
  Start : string;
  End_ : string;
  oCode : string;
  oIsTest : option bool }.

Record OutputData : Type := mkOutputData { Data : list OutputEvent }.

Definition zeroTime : Time := mkTime (-62135596800000000000)%Z 0%Z.

Definition zeroEvent : Event :=
  mkEvent "" zeroTime false "" zeroTime "" None.

Definition zeroOutputEvent : OutputEvent := mkOutputEvent "" "" "" None.

Definition setCode (c : string) (e : Event) : Event :=
  mkEvent c (EndAt e) (IsEventParticipant e) (Name e) (StartAt e)
          (Typename e) (IsTest e).

(** *** [json.MarshalIndent] at [OutputData]

    Fields in declaration order under their tags; [is_test] carries
    [omitempty], which drops a nil pointer and nothing else. Strings
    are written coerced to valid UTF-8. *)
Definition marshalOutputEvent (o : OutputEvent) : json :=
  JObject ([("start", JString (coerceToUTF8 (Start o)));
            ("end", JString (coerceToUTF8 (End_ o)));
            ("code", JString (coerceToUTF8 (oCode o)))]
           ++ match oIsTest o with
              | Some b => [("is_test", JBool b)]
              | None => []
              end).

Definition marshalOutputData (d : OutputData) : json :=
  JObject [("data", JArray (map marshalOutputEvent (Data d)))].

(** *** [json.Unmarshal] at [OutputData]

    Members are read in document order, each into the field it selects;
    a member that selects no field is skipped, a value of the wrong kind
    is an error. [None] stands for any error. *)
Definition decodeOutputEventMember (cur : OutputEvent) (kv : string * json)
  : option OutputEvent :=
  let '(k, v) := kv in
  if isField "start" k then
    s ← decodeString (Start cur) v;
    Some (mkOutputEvent s (End_ cur) (oCode cur) (oIsTest cur))
  else if isField "end" k then
    s ← decodeString (End_ cur) v;
    Some (mkOutputEvent (Start cur) s (oCode cur) (oIsTest cur))
  else if isField "code" k then
    s ← decodeString (oCode cur) v;
    Some (mkOutputEvent (Start cur) (End_ cur) s (oIsTest cur))
  else if isField "is_test" k then
    b ← decodeBoolPtr v;
    Some (mkOutputEvent (Start cur) (End_ cur) (oCode cur) b)
  else Some cur.

Fixpoint decodeMembers {A : Type} (step : A -> string * json -> option A)
    (cur : A) (members : list (string * json)) : option A :=
  match members with
  | [] => Some cur
  | kv :: rest => cur' ← step cur kv; decodeMembers step cur' rest
  end.

Definition decodeOutputEvent (cur : OutputEvent) (j : json)
  : option OutputEvent :=
  match j with
  | JObject members => decodeMembers decodeOutputEventMember cur members
  | JNull => Some cur
  | _ => None
  end.

(** Decoding the items of an array into a slice whose cells are [cells]:
    item [i] is decoded into cell [i] when the slice already has one (a
    repeated [data] member meets the cells of the previous one), into a
    zero cell otherwise. Returns the decoded elements and the cells left
    over. *)
Fixpoint decodeElems (cells : list OutputEvent) (items : list json)
  : option (list OutputEvent * list OutputEvent) :=
  match items with
  | [] => Some ([], cells)
  | item :: rest =>
      let cur := match cells with c :: _ => c | [] => zeroOutputEvent end in
      e ← decodeOutputEvent cur item;
      '(live, spare) ← decodeElems (tail cells) rest;
      Some (e :: live, spare)
  end.

(** The slice under decoding: its elements and the cells behind them. *)
Definition decodeDataMember (st : list OutputEvent * list OutputEvent)
    (kv : string * json) : option (list OutputEvent * list OutputEvent) :=
  let '(k, v) := kv in
  if isField "data" k then
    match v with
    | JArray [] => Some ([], [])
    | JArray items => decodeElems (fst st ++ snd st) items
    | JNull => Some ([], [])
    | _ => None
    end
  else Some st.

Definition unmarshalOutputData (j : json) : option OutputData :=
  match j with
  | JObject members =>
      st ← decodeMembers decodeDataMember ([], []) members;
      Some (mkOutputData (fst st))
  | JNull => Some (mkOutputData [])
  | _ => None
  end.

Definition jsonUnmarshalOutputData (data : Bytes) : option OutputData :=
  match data with
  | Document j => unmarshalOutputData j
  | NotJson => None
  end.

(* ===================================================================== *)
(** ** What Go leaves open: map iteration order and unstable sorting     *)
(* ===================================================================== *)

(** [less] orders its elements by some rank, ties allowed: "not after"
    is total and transitive. *)
Record WeakOrdering {A : Type} (less : A -> A -> bool) : Prop := {
  notAfter_total : forall a b, less b a = false \/ less a b = false;
  notAfter_trans : forall a b c,
      less b a = false -> less c b = false -> less c a = false }.

(** One resolution of the choices Go leaves to the runtime: the order
    in which [range] yields the entries of a map, and the arrangement
    [sort.Slice] produces (any sorted rearrangement of its input). *)
Record GoRuntime : Type := {
  rangeOrder : list (string * Event) -> list (string * Event);
  sortSlice : (Event -> Event -> bool) -> list Event -> list Event;
  rangeOrder_perm : forall l, Permutation (rangeOrder l) l;
  sortSlice_perm : forall less l, Permutation (sortSlice less l) l;
  sortSlice_sorted : forall less l,
      WeakOrdering less ->
      StronglySorted (fun a b => less b a = false) (sortSlice less l) }.

(* ===================================================================== *)
(** ** Merging, change detection, code assignment                        *)
(* ===================================================================== *)

(** The map key built by [hasChanges] and [mergeEvents]:
    [StartAt.Format(time.RFC3339) + "_" + EndAt.Format(time.RFC3339)]. *)
Definition mergeKey (e : Event) : string :=
  formatRFC3339 (StartAt e) +:+ "_" +:+ formatRFC3339 (EndAt e).

Definition markKey (m : gmap string bool) (e : Event) : gmap string bool :=
  <[mergeKey e := true]> m.

(** The second loop of [hasChanges]: stop at the first event whose key
    is not in the map (a missing key reads as [false]). *)
Fixpoint anyMissing (existingMap : gmap string bool) (new : list Event)
  : bool :=
  match new with
  | [] => false
  | e :: rest =>
      if negb (default false (existingMap !! mergeKey e)) then true
      else anyMissing existingMap rest
  end.

Definition hasChanges (existing new : list Event) : bool :=
  if negb (length existing =? length new)%nat then true
  else anyMissing (foldl markKey ∅ existing) new.

Definition putEvent (m : gmap string Event) (e : Event)
  : gmap string Event :=
  <[mergeKey e := e]> m.

Definition startsBefore (a b : Event) : bool :=
  Before (StartAt a) (StartAt b).

Definition mergeEvents (rt : GoRuntime) (existing new : list Event)
  : list Event :=
  let eventMap := foldl putEvent (foldl putEvent ∅ existing) new in
  let merged := map snd (rangeOrder rt (map_to_list eventMap)) in
  sortSlice rt startsBefore merged.

(** The loop [for i := range events { events[i].Code = Itoa(i + 1) }]
    from index [i] on. *)
Fixpoint assignFrom (i : Z) (events : list Event) : list Event :=
  match events with
  | [] => []
  | e :: rest => setCode (Itoa (i + 1)) e :: assignFrom (i + 1) rest
  end.

Definition assignSequentialCodes (rt : GoRuntime) (events : list Event)
  : list Event :=
  assignFrom 0 (sortSlice rt startsBefore events).

Definition toOutputEvent (event : Event) : OutputEvent :=
  mkOutputEvent (formatMillisZ (StartAt event)) (formatMillisZ (EndAt event))
                (Code event) (IsTest event).

Definition convertToOutputFormat (events : list Event) : OutputData :=
  mkOutputData (map toOutputEvent events).

(* ===================================================================== *)
(** ** The published dataset file                                        *)
(* ===================================================================== *)

(** The state of one path of the file system. *)
Inductive Node : Type :=
| Absent
| Unreadable
| File (content : Bytes) (mtime : Z).

Inductive loadError : Type :=
| NotExist
| ReadFailed
| DecodeFailed
| StartTimeFailed
| EndTimeFailed.

(** [os.IsNotExist]. *)
Definition IsNotExist (e : loadError) : bool :=
  match e with NotExist => true | _ => false end.

Definition ReadFile (n : Node) : Bytes + loadError :=
  match n with
  | Absent => inr NotExist
  | Unreadable => inr ReadFailed
  | File content _ => inl content
  end.

(** The conversion loop of [loadExistingEvents]: the first timestamp
    that does not parse fails the whole load. *)
Fixpoint toEvents (data : list OutputEvent) : list Event + loadError :=
  match data with
  | [] => inl []
  | o :: rest =>
      match parseMillisZ (Start o) with
      | None => inr StartTimeFailed
      | Some startTime =>
          match parseMillisZ (End_ o) with
          | None => inr EndTimeFailed
          | Some endTime =>
              match toEvents rest with
              | inr e => inr e
              | inl events =>
                  inl (mkEvent (oCode o) endTime false "" startTime ""
                               (oIsTest o) :: events)
              end
          end
      end
  end.

Definition loadExistingEvents (file : Node) : list Event + loadError :=
  match ReadFile file with
  | inr e => inr e
  | inl data =>
      match jsonUnmarshalOutputData data with
      | None => inr DecodeFailed
      | Some outputData => toEvents (Data outputData)
      end
  end.

(** How a call of [os.WriteFile] ends: done; refused before the file is
    touched; or failed midway, which leaves a truncated text behind. *)
Inductive WriteOutcome : Type :=
| WriteDone
| WriteRefused
| WriteTorn.

Definition WriteFile (how : WriteOutcome) (now : Z) (data : json)
    (file : Node) : bool * Node :=
  match how with
  | WriteDone => (true, File (Document data) now)
  | WriteRefused => (false, file)
  | WriteTorn => (false, File NotJson now)
  end.

(** [saveEvents]: marshalling an [OutputData] cannot fail, the outcome
    is that of the write. *)
Definition saveEvents (how : WriteOutcome) (now : Z) (events : list Event)
    (file : Node) : bool * Node :=
  WriteFile how now (marshalOutputData (convertToOutputFormat events)) file.

(* ===================================================================== *)
(** ** The reconciliation run                                            *)
(* ===================================================================== *)

Inductive fetchError : Type :=
| TransportFailed
| UnexpectedStatus (code : Z)
| BodyDecodeFailed
| QueryFailed.

(** What a fetcher returns: [([]Event, error)]. *)
Definition FetchReturn : Type := list Event * option fetchError.

Record fetchResult : Type := mkFetchResult {
  events : list Event;
  source : string;
  err : option fetchError }.

(** One step of the collecting loop over the results channel. *)
Definition collectOne (acc : list Event * list Event) (result : fetchResult)
  : list Event * list Event :=
  let '(octopusEvents, externalEvents) := acc in
  match err result with
  | Some _ =>
      if String.eqb (source result) "octopus" then ([], externalEvents)
      else (octopusEvents, [])
  | None =>
      if String.eqb (source result) "octopus"
      then (events result, externalEvents)
      else (octopusEvents, events result)
  end.

(** Everything a run depends on besides the output file. *)
Record Env : Type := mkEnv {
  octopus : FetchReturn;          (* what fetchOctopusEvents returns *)
  davidKendall : FetchReturn;     (* what fetchDavidKendallData returns *)
  octopusFirst : bool;            (* which result reaches the channel first *)
  runtime : nat -> GoRuntime;     (* the runtime's choices, per call *)
  writing : WriteOutcome;         (* how a write of the output file ends *)
  now : Z }.                      (* the time of the run *)

Inductive runError : Type :=
| LoadFailed (e : loadError)
| SafetyCheckFailed (existing new : nat)
| SaveFailed.

(** The results in the order they arrive. *)
Definition arrivals (env : Env) : list fetchResult :=
  let o := mkFetchResult (fst (octopus env)) "octopus" (snd (octopus env)) in
  let d := mkFetchResult (fst (davidKendall env)) "david_kendall"
                         (snd (davidKendall env)) in
  if octopusFirst env then [o; d] else [d; o].

(** The merged dataset [allEvents] just before change detection. *)
Definition mergeAll (env : Env) (existingEvents : list Event) : list Event :=
  let '(octopusEvents, externalEvents) :=
    foldl collectOne ([], []) (arrivals env) in
  let allEvents := existingEvents in
  let allEvents :=
    if (0 <? length externalEvents)%nat
    then mergeEvents (runtime env 0%nat) allEvents externalEvents
    else allEvents in
  if (0 <? length octopusEvents)%nat
  then mergeEvents (runtime env 1%nat) allEvents octopusEvents
  else allEvents.

(** [existingEvents, err := loadExistingEvents(...)] followed by the
    test [err != nil && !os.IsNotExist(err)]: a missing file leaves the
    nil slice and the run goes on. *)
Definition existingOrFail (loaded : list Event + loadError)
  : list Event + loadError :=
  match loaded with
  | inl existingEvents => inl existingEvents
  | inr e => if negb (IsNotExist e) then inr e else inl []
  end.

(** [fetchAndUpdateEvents]: the returned error ([None] is [nil]) and the
    output file afterwards. *)
Definition fetchAndUpdateEvents (env : Env) (file : Node)
  : option runError * Node :=
  match existingOrFail (loadExistingEvents file) with
  | inr e => (Some (LoadFailed e), file)
  | inl existingEvents =>
      let allEvents := mergeAll env existingEvents in
      if negb (hasChanges existingEvents allEvents) then (None, file)
      else
        let finalEvents :=
          assignSequentialCodes (runtime env 2%nat) allEvents in
        if (length finalEvents <? length existingEvents)%nat then
          (Some (SafetyCheckFailed (length existingEvents)
                                   (length finalEvents)), file)
        else
          match saveEvents (writing env) (now env) finalEvents file with
          | (true, file') => (None, file')
          | (false, file') => (Some SaveFailed, file')
          end
  end.

(** A sequence of runs over the same output file; the returned errors,
    first run first, and the file at the end. *)
Fixpoint runAll (envs : list Env) (file : Node)
  : list (option runError * Node) :=
  match envs with
  | [] => []
  | env :: rest =>
      let r := fetchAndUpdateEvents env file in
      r :: runAll rest (snd r)
  end.

(** The number of events the output file holds: the length of its
    [data] array; a missing file holds none; [None] when the file does
    not decode. *)
Definition persistedCount (file : Node) : option nat :=
  match file with
  | Absent => Some 0%nat
  | Unreadable => None
  | File content _ =>
      outputData ← jsonUnmarshalOutputData content;
      Some (length (Data outputData))
  end.

(* ===================================================================== *)
(** ** The conditional cache and the secondary fetcher                   *)
(* ===================================================================== *)

Section Secondary.

(** [time.Time] encodes and decodes itself ([MarshalJSON],
    [UnmarshalJSON]); the cache code is independent of how. *)
Variable timeMarshalJSON : Time -> option json.
Variable timeUnmarshalJSON : Time -> json -> option Time.

(** The cache directory: the two files, [None] when one cannot be read
    (it is missing, for instance). *)
Record Cache : Type := mkCache {
  etagFile : option string;
  eventsFile : option Bytes }.

Definition getCachedETagFromDir (cacheDir : Cache) : string :=
  match etagFile cacheDir with
  | None => ""
  | Some data => data
  end.

(** [getCachedETag]: the directory is the constant [cacheDir], whose
    state the argument gives. *)
Definition getCachedETag (cacheDir : Cache) : string :=
  getCachedETagFromDir cacheDir.

(** Errors of [MkdirAll] and [WriteFile] are logged or dropped. *)
Definition cacheETagToDir (how : WriteOutcome) (cacheDir : Cache)
    (etag : string) : Cache :=
  match how with
  | WriteDone => mkCache (Some etag) (eventsFile cacheDir)
  | WriteRefused => cacheDir
  | WriteTorn => mkCache (Some "") (eventsFile cacheDir)
  end.

Definition cacheETag (how : WriteOutcome) (cacheDir : Cache)
    (etag : string) : Cache :=
  cacheETagToDir how cacheDir etag.

Definition decodeEventMember (cur : Event) (kv : string * json)
  : option Event :=
  let '(k, v) := kv in
  if isField "code" k then
    s ← decodeString (Code cur) v;
    Some (mkEvent s (EndAt cur) (IsEventParticipant cur) (Name cur)
                  (StartAt cur) (Typename cur) (IsTest cur))
  else if isField "endAt" k then
    t ← timeUnmarshalJSON (EndAt cur) v;
    Some (mkEvent (Code cur) t (IsEventParticipant cur) (Name cur)
                  (StartAt cur) (Typename cur) (IsTest cur))
  else if isField "isEventParticipant" k then
    b ← decodeBool (IsEventParticipant cur) v;
    Some (mkEvent (Code cur) (EndAt cur) b (Name cur)
                  (StartAt cur) (Typename cur) (IsTest cur))
  else if isField "name" k then
    s ← decodeString (Name cur) v;
    Some (mkEvent (Code cur) (EndAt cur) (IsEventParticipant cur) s
                  (StartAt cur) (Typename cur) (IsTest cur))
  else if isField "startAt" k then
    t ← timeUnmarshalJSON (StartAt cur) v;
    Some (mkEvent (Code cur) (EndAt cur) (IsEventParticipant cur) (Name cur)
                  t (Typename cur) (IsTest cur))
  else if isField "__typename" k then
    s ← decodeString (Typename cur) v;
    Some (mkEvent (Code cur) (EndAt cur) (IsEventParticipant cur) (Name cur)
                  (StartAt cur) s (IsTest cur))
  else if isField "isTest" k then
    b ← decodeBoolPtr v;
    Some (mkEvent (Code cur) (EndAt cur) (IsEventParticipant cur) (Name cur)
                  (StartAt cur) (Typename cur) b)
  else Some cur.

Definition decodeEvent (j : json) : option Event :=
  match j with
  | JObject members => decodeMembers decodeEventMember zeroEvent members
  | JNull => Some zeroEvent
  | _ => None
  end.

Fixpoint decodeEvents (items : list json) : option (list Event) :=
  match items with
  | [] => Some []
  | item :: rest =>
      e ← decodeEvent item;
      es ← decodeEvents rest;
      Some (e :: es)
  end.

(** [json.Unmarshal(data, &events)] for [var events []Event]. *)
Definition jsonUnmarshalEvents (data : Bytes) : option (list Event) :=
  match data with
  | Document (JArray items) => decodeEvents items
  | Document JNull => Some []
  | _ => None
  end.

Definition marshalEvent (e : Event) : option json :=
  endAt ← timeMarshalJSON (EndAt e);
  startAt ← timeMarshalJSON (StartAt e);
  Some (JObject ([("code", JString (coerceToUTF8 (Code e)));
                  ("endAt", endAt);
                  ("isEventParticipant", JBool (IsEventParticipant e));
                  ("name", JString (coerceToUTF8 (Name e)));
                  ("startAt", startAt);
                  ("__typename", JString (coerceToUTF8 (Typename e)))]
                 ++ match IsTest e with
                    | Some b => [("isTest", JBool b)]
                    | None => []
                    end)).

Fixpoint marshalEventList (l : list Event) : option (list json) :=
  match l with
  | [] => Some []
  | e :: rest =>
      j ← marshalEvent e;
      js ← marshalEventList rest;
      Some (j :: js)
  end.

(** [getCachedEventsFromDir]: every failure is answered with the empty
    list and a nil error. *)
Definition getCachedEventsFromDir (cacheDir : Cache) : FetchReturn :=
  match eventsFile cacheDir with
  | None => ([], None)
  | Some data =>
      match jsonUnmarshalEvents data with
      | None => ([], None)
      | Some events => (events, None)
      end
  end.

Definition getCachedEvents (cacheDir : Cache) : FetchReturn :=
  getCachedEventsFromDir cacheDir.

(** [cacheEventsToDir]: the error of [json.Marshal] is dropped, the
    write then stores no byte; the error of the write is dropped too. *)
Definition cacheEventsToDir (how : WriteOutcome) (cacheDir : Cache)
    (events : list Event) : Cache :=
  let data :=
    match marshalEventList events with
    | Some js => Document (JArray js)
    | None => NotJson
    end in
  match how with
  | WriteDone => mkCache (etagFile cacheDir) (Some data)
  | WriteRefused => cacheDir
  | WriteTorn => mkCache (etagFile cacheDir) (Some NotJson)
  end.

Definition cacheEvents (how : WriteOutcome) (cacheDir : Cache)
    (events : list Event) : Cache :=
  cacheEventsToDir how cacheDir events.

(** How the GET ends. *)
Inductive HttpOutcome : Type :=
| HttpError
| HttpResponse (status : Z) (etagHeader : string) (body : Bytes).

(** The world of the secondary fetcher: the upstream, asked with or
    without an [If-None-Match] header, and how the cache writes end. *)
Record Network : Type := mkNetwork {
  httpGet : option string -> HttpOutcome;
  etagWrite : WriteOutcome;
  eventsWrite : WriteOutcome }.

(** The conversion loop of [fetchDavidKendallData]: entries whose
    timestamps do not parse are skipped. *)
Fixpoint toEventsSkipping (data : list OutputEvent) : list Event :=
  match data with
  | [] => []
  | o :: rest =>
      match parseMillisZ (Start o) with
      | None => toEventsSkipping rest
      | Some startTime =>
          match parseMillisZ (End_ o) with
          | None => toEventsSkipping rest
          | Some endTime =>
              mkEvent (oCode o) endTime false "" startTime "" (oIsTest o)
              :: toEventsSkipping rest
          end
      end
  end.

(** [fetchDavidKendallData]: the returned pair and the cache directory
    afterwards. The request is built from constants, [http.NewRequest]
    does not fail on them. The body is read by a stream decoder, so
    [Document j] here stands for a body that begins with the value
    [j]. *)
Definition fetchDavidKendallData (net : Network) (cacheDir : Cache)
  : FetchReturn * Cache :=
  let etag := getCachedETag cacheDir in
  let ifNoneMatch := if String.eqb etag "" then None else Some etag in
  match httpGet net ifNoneMatch with
  | HttpError => (([], Some TransportFailed), cacheDir)
  | HttpResponse status etagHeader body =>
      if (status =? 304)%Z then (getCachedEvents cacheDir, cacheDir)
      else if negb (status =? 200)%Z then
        (([], Some (UnexpectedStatus status)), cacheDir)
      else
        match jsonUnmarshalOutputData body with
        | None => (([], Some BodyDecodeFailed), cacheDir)
        | Some outputData =>
            let cacheDir :=
              if String.eqb etagHeader "" then cacheDir
              else cacheETag (etagWrite net) cacheDir etagHeader in
            let events := toEventsSkipping (Data outputData) in
            let cacheDir := cacheEvents (eventsWrite net) cacheDir events in
            ((events, None), cacheDir)
        end
  end.

End Secondary.

(* ===================================================================== *)
(** ** Notions used in the statements                                    *)
(* ===================================================================== *)

Module Notions.
Local Open Scope Z_scope.

(** An instant of whole-millisecond precision, in UTC, in a year that
    the layout can hold. *)
Definition layoutExact (t : Time) : Prop :=
  zoneOffset t = 0 /\ unixNano t mod 1000000 = 0 /\ 0 <= Year t <= 9999.

(** [t] cut to whole milliseconds. *)
Definition truncMillis (t : Time) : Time :=
  mkTime (unixNano t / 1000000 * 1000000)%Z (zoneOffset t).

(** The fields of an event that the dataset file keeps. *)
Definition persistedFields (e : Event) : Time * Time * string * option bool :=
  (StartAt e, EndAt e, Code e, IsTest e).

(** Strings of ASCII bytes. *)
Fixpoint allASCII (s : string) : bool :=
  match s with
  | EmptyString => true
  | String c rest => isASCII c && allASCII rest
  end.

(** An [OutputEvent] whose strings are valid UTF-8. *)
Definition validText (o : OutputEvent) : Prop :=
  ValidString (Start o) = true /\ ValidString (End_ o) = true
  /\ ValidString (oCode o) = true.

(** An [OutputEvent] as it comes back from the document written for
    it. *)
Definition coercedOutput (o : OutputEvent) : OutputEvent :=
  mkOutputEvent (coerceToUTF8 (Start o)) (coerceToUTF8 (End_ o))
                (coerceToUTF8 (oCode o)) (oIsTest o).

(** An event with its three strings coerced to valid UTF-8. *)
Definition coercedEvent (e : Event) : Event :=
  mkEvent (coerceToUTF8 (Code e)) (EndAt e) (IsEventParticipant e)
          (coerceToUTF8 (Name e)) (StartAt e) (coerceToUTF8 (Typename e))
          (IsTest e).

(** An event whose three strings are valid UTF-8. *)
Definition validStrings (e : Event) : Prop :=
  ValidString (Code e) = true /\ ValidString (Name e) = true
  /\ ValidString (Typename e) = true.

(** The value of the first member named [k]. *)
Fixpoint jsonMember (k : string) (members : list (string * json))
  : option json :=
  match members with
  | [] => None
  | (k', v) :: rest => if String.eqb k' k then Some v else jsonMember k rest
  end.

(** What one element of the [data] array says about its event. *)
Definition rendered (e : Event) (item : json) : Prop :=
  exists members,
    item = JObject members
    /\ map fst members
       = ["start"; "end"; "code"]
         ++ match IsTest e with Some _ => ["is_test"] | None => [] end
    /\ jsonMember "start" members = Some (JString (formatMillisZ (StartAt e)))
    /\ jsonMember "end" members = Some (JString (formatMillisZ (EndAt e)))
    /\ jsonMember "code" members = Some (JString (coerceToUTF8 (Code e)))
    /\ jsonMember "is_test" members = option_map JBool (IsTest e).

(** The last event of [l] whose merge key is [k]. *)
Fixpoint lastWithKey (k : string) (l : list Event) : option Event :=
  match l with
  | [] => None
  | e :: rest =>
      match lastWithKey k rest with
      | Some x => Some x
      | None => if String.eqb (mergeKey e) k then Some e else None
      end
  end.

(** The map [mergeEvents] builds from its two arguments. *)
Definition eventMap (existing new : list Event) : gmap string Event :=
  foldl putEvent (foldl putEvent ∅ existing) new.

(** The number a string of decimal digits denotes, continuing [acc]. *)
Fixpoint decimalValue (acc : Z) (s : string) : option Z :=
  match s with
  | EmptyString => Some acc
  | String c rest =>
      if isDigit c then decimalValue (acc * 10 + digitVal c) rest else None
  end.

(** The events a fetcher contributes: none when it returned an error. *)
Definition contributed (r : FetchReturn) : list Event :=
  match snd r with
  | Some _ => []
  | None => fst r
  end.

(** The same environment with another return of one fetcher. *)
Definition withOctopus (env : Env) (r : FetchReturn) : Env :=
  mkEnv r (davidKendall env) (octopusFirst env) (runtime env)
        (writing env) (now env).

Definition withDavidKendall (env : Env) (r : FetchReturn) : Env :=
  mkEnv (octopus env) r (octopusFirst env) (runtime env)
        (writing env) (now env).

(** "Not after", as a relation. *)
Definition notAfterR (less : Event -> Event -> bool) : relation Event :=
  fun a b => less b a = false.

(** *** Exhaustive checks

    A predicate checked on every integer from [i] on, [n] of them. *)
Fixpoint checkFrom (p : Z -> bool) (n : nat) (i : Z) : bool :=
  match n with
  | O => true
  | S n' => p i && checkFrom p n' (i + 1)
  end.

Definition checkBelow (p : Z -> bool) (n : Z) : bool :=
  checkFrom p (Z.to_nat n) 0.

(** The civil date of day [i] of the 400-year era that holds 1970 is a
    valid date and leads back to the day. *)
Definition checkDay (i : Z) : bool :=
  let z := i - 719468 in
  let '(y, m, d) := daysToCivil z in
  (1 <=? m) && (m <=? 12) && (1 <=? d) && (d <=? daysIn m y)
  && (civilToDays y m d =? z).

(** A number written in a field of two, three or four digits is made
    of exactly that many digits and has their value. *)
Definition checkWidth2 (x : Z) : bool :=
  match appendInt x 2 with
  | String a (String b EmptyString) =>
      isDigit a && isDigit b && (digitVal a * 10 + digitVal b =? x)
  | _ => false
  end.

Definition checkWidth3 (x : Z) : bool :=
  match appendInt x 3 with
  | String a (String b (String c EmptyString)) =>
      isDigit a && isDigit b && isDigit c
      && ((digitVal a * 10 + digitVal b) * 10 + digitVal c =? x)
  | _ => false
  end.

Definition checkWidth4 (x : Z) : bool :=
  match appendInt x 4 with
  | String a (String b (String c (String d EmptyString))) =>
      isDigit a && isDigit b && isDigit c && isDigit d
      && (((digitVal a * 10 + digitVal b) * 10 + digitVal c) * 10
          + digitVal d =? x)
  | _ => false
  end.

End Notions.

Import Notions.

(* ===================================================================== *)
(** * Properties                                                         *)
(* ===================================================================== *)

(** ** Checking a predicate on an initial segment of the integers *)

Lemma checkFrom_spec (p : Z -> bool) (n : nat) :
  forall i, checkFrom p n i = true ->
  forall x, (i <= x < i + Z.of_nat n)%Z -> p x = true.
Proof.
  induction n as [|n IH]; intros i H x Hx; [lia|].
  simpl in H. apply andb_true_iff in H. destruct H as [Hi Hrest].
  destruct (Z.eq_dec x i) as [->|Hne]; [exact Hi|].
  apply (IH (i + 1)%Z Hrest). lia.
Qed.

Lemma range_check (p : Z -> bool) (n : Z) :
  checkBelow p n = true -> forall x, (0 <= x < n)%Z -> p x = true.
Proof.
  intros H x Hx. apply (checkFrom_spec p (Z.to_nat n) 0%Z H). lia.
Qed.

(** ** The calendar *)

Module CalendarFacts.
Local Open Scope Z_scope.

Lemma checkDay_era : checkBelow checkDay 146097 = true.
Proof. vm_cast_no_check (eq_refl true). Qed.

Lemma isLeap_shift y e : isLeap (y + e * 400) = isLeap y.
Proof.
  unfold isLeap.
  replace ((y + e * 400) mod 4) with (y mod 4)
    by (replace (y + e * 400) with (y + (e * 100) * 4) by ring;
        now rewrite Z_mod_plus_full).
  replace ((y + e * 400) mod 100) with (y mod 100)
    by (replace (y + e * 400) with (y + (e * 4) * 100) by ring;
        now rewrite Z_mod_plus_full).
  now rewrite Z_mod_plus_full.
Qed.

Lemma daysSinceYearOne_shift y e :
  daysSinceYearOne (y + e * 400) = daysSinceYearOne y + e * 146097.
Proof.
  unfold daysSinceYearOne.
  replace ((y + e * 400 - 1) / 4) with ((y - 1) / 4 + e * 100)
    by (replace (y + e * 400 - 1) with (y - 1 + (e * 100) * 4) by ring;
        now rewrite Z_div_plus_full).
  replace ((y + e * 400 - 1) / 100) with ((y - 1) / 100 + e * 4)
    by (replace (y + e * 400 - 1) with (y - 1 + (e * 4) * 100) by ring;
        now rewrite Z_div_plus_full).
  replace ((y + e * 400 - 1) / 400) with ((y - 1) / 400 + e)
    by (replace (y + e * 400 - 1) with (y - 1 + e * 400) by ring;
        now rewrite Z_div_plus_full).
  ring.
Qed.

Lemma civilToDays_shift y e m d :
  civilToDays (y + e * 400) m d = civilToDays y m d + e * 146097.
Proof.
  unfold civilToDays. rewrite isLeap_shift, daysSinceYearOne_shift. ring.
Qed.

Lemma daysIn_shift y e m : daysIn m (y + e * 400) = daysIn m y.
Proof. unfold daysIn. now rewrite isLeap_shift. Qed.

(** A day number and the same day of the era that holds 1970. *)
Lemma daysToCivil_era z :
  daysToCivil z =
  let '(y, m, d) := daysToCivil ((z + 719468) mod 146097 - 719468) in
  (y + (z + 719468) / 146097 * 400, m, d).
Proof.
  unfold daysToCivil.
  replace ((z + 719468) mod 146097 - 719468 + 719468)
    with ((z + 719468) mod 146097) by ring.
  rewrite Zmod_mod.
  rewrite (Zdiv_small ((z + 719468) mod 146097) 146097)
    by (apply Z.mod_pos_bound; lia).
  cbv zeta. f_equal. f_equal. ring.
Qed.

(** Every day number has a valid civil date, from which [civilToDays]
    leads back to it. *)
Lemma daysToCivil_valid z :
  let '(y, m, d) := daysToCivil z in
  1 <= m <= 12 /\ 1 <= d <= daysIn m y /\ civilToDays y m d = z.
Proof.
  rewrite daysToCivil_era.
  pose proof (Z.mod_pos_bound (z + 719468) 146097 ltac:(lia)) as Hb.
  pose proof (range_check checkDay 146097 checkDay_era
                ((z + 719468) mod 146097) ltac:(lia)) as Hc.
  unfold checkDay in Hc.
  destruct (daysToCivil ((z + 719468) mod 146097 - 719468)) as [[y m] d].
  rewrite !andb_true_iff in Hc.
  destruct Hc as [[[[H1 H2] H3] H4] H5].
  rewrite daysIn_shift, civilToDays_shift.
  pose proof (Z_div_mod_eq_full (z + 719468) 146097).
  lia.
Qed.

End CalendarFacts.

(** ** Formatting and parsing with the millisecond layout *)

Module LayoutFacts.
Import CalendarFacts.
Local Open Scope Z_scope.

Lemma checkWidth2_all : checkBelow checkWidth2 100 = true.
Proof. vm_cast_no_check (eq_refl true). Qed.

Lemma checkWidth3_all : checkBelow checkWidth3 1000 = true.
Proof. vm_cast_no_check (eq_refl true). Qed.

Lemma checkWidth4_all : checkBelow checkWidth4 10000 = true.
Proof. vm_cast_no_check (eq_refl true). Qed.

Lemma skipChar_cons c rest : skipChar c (String c rest) = Some rest.
Proof. simpl. now rewrite Ascii.eqb_refl. Qed.

Lemma append_cons (x : ascii) (a b : string) :
  String x a +:+ b = String x (a +:+ b).
Proof. reflexivity. Qed.

Lemma append_nil_l (b : string) : "" +:+ b = b.
Proof. reflexivity. Qed.

Lemma append_assoc (a b c : string) : (a +:+ b) +:+ c = a +:+ (b +:+ c).
Proof.
  induction a as [|x a IH]; [reflexivity|].
  rewrite !append_cons. now rewrite IH.
Qed.

Ltac norm_append := rewrite ?append_assoc, ?append_cons, ?append_nil_l.

Ltac layout_step :=
  simpl; rewrite ?append_cons, ?append_nil_l, ?skipChar_cons;
  simpl; rewrite ?append_nil_l.

(** A number below 100 is written with exactly two digits, which
    [getnum] reads back whatever follows. *)
Lemma getnum_appendInt x fixed rest :
  0 <= x < 100 -> getnum (appendInt x 2 +:+ rest) fixed = Some (x, rest).
Proof.
  intros Hx. pose proof (range_check _ _ checkWidth2_all x Hx) as H.
  unfold checkWidth2 in H.
  destruct (appendInt x 2) as [|a [|b [|? ?]]]; try discriminate.
  rewrite !andb_true_iff in H. destruct H as [[Ha Hb] Hv].
  apply Z.eqb_eq in Hv. norm_append. unfold getnum.
  rewrite Ha, Hb. now rewrite Hv.
Qed.

Lemma getYear_appendInt x rest :
  0 <= x < 10000 -> getYear (appendInt x 4 +:+ rest) = Some (x, rest).
Proof.
  intros Hx. pose proof (range_check _ _ checkWidth4_all x Hx) as H.
  unfold checkWidth4 in H.
  destruct (appendInt x 4) as [|a [|b [|c [|d [|? ?]]]]]; try discriminate.
  rewrite !andb_true_iff in H. destruct H as [[[[Ha Hb] Hc] Hd] Hv].
  apply Z.eqb_eq in Hv. norm_append. unfold getYear.
  rewrite Ha, Hb, Hc, Hd. simpl. now rewrite Hv.
Qed.

Lemma getMillis_appendInt x rest :
  0 <= x < 1000 ->
  getMillis (String "." (appendInt x 3 +:+ rest)) = Some (x, rest).
Proof.
  intros Hx. pose proof (range_check _ _ checkWidth3_all x Hx) as H.
  unfold checkWidth3 in H.
  destruct (appendInt x 3) as [|a [|b [|c [|? ?]]]]; try discriminate.
  rewrite !andb_true_iff in H. destruct H as [[[Ha Hb] Hc] Hv].
  apply Z.eqb_eq in Hv. norm_append. unfold getMillis.
  rewrite Ha, Hb, Hc. simpl. now rewrite Hv.
Qed.

#[local] Arguments getnum : simpl never.
#[local] Arguments getYear : simpl never.
#[local] Arguments getMillis : simpl never.
#[local] Arguments skipChar : simpl never.

Lemma daysIn_le_31 m y : 1 <= m <= 12 -> daysIn m y <= 31.
Proof.
  intros Hm.
  assert (m = 1 \/ m = 2 \/ m = 3 \/ m = 4 \/ m = 5 \/ m = 6 \/ m = 7
          \/ m = 8 \/ m = 9 \/ m = 10 \/ m = 11 \/ m = 12) as Hc by lia.
  unfold daysIn.
  repeat (destruct Hc as [-> | Hc]; [destruct (isLeap y); simpl; lia|]).
  subst m. destruct (isLeap y); simpl; lia.
Qed.

(** The fields of a wall clock are within their ranges, and [Date]
    leads back from them to the instant. *)
Lemma wallClock_fields t :
  let c := wallClock t in
  1 <= cMonth c <= 12 /\ 1 <= cDay c <= daysIn (cMonth c) (cYear c)
  /\ 0 <= cHour c < 24 /\ 0 <= cMinute c < 60 /\ 0 <= cSecond c < 60
  /\ 0 <= cNano c < 1000000000
  /\ unixNano (Date (cYear c) (cMonth c) (cDay c) (cHour c) (cMinute c)
                    (cSecond c) (cNano c))
     = unixNano t + zoneOffset t * 1000000000.
Proof.
  unfold wallClock.
  set (abs := unixNano t + zoneOffset t * 1000000000).
  pose proof (daysToCivil_valid (abs / 1000000000 / 86400)) as Hv.
  destruct (daysToCivil (abs / 1000000000 / 86400)) as [[y m] d].
  destruct Hv as (Hm & Hd & Hback). cbv zeta. simpl.
  rewrite Hback.
  repeat split; try lia;
    try (Z.to_euclidean_division_equations; lia).
Qed.

Lemma parse_format_exact t :
  layoutExact t -> parseMillisZ (formatMillisZ t) = Some t.
Proof.
  intros (Hz & Hms & Hy).
  pose proof (wallClock_fields t) as Hf. unfold Year in Hy.
  unfold formatMillisZ, formatDateTime.
  destruct (wallClock t) as [y m d hh mi ss ns]. simpl in *.
  destruct Hf as (Hm & Hd & Hh & Hmi & Hs & Hn & Hback).
  pose proof (daysIn_le_31 m y Hm) as Hd31.
  unfold parseMillisZ.
  rewrite !append_assoc, getYear_appendInt by lia. layout_step.
  rewrite getnum_appendInt by lia. simpl.
  replace ((m <=? 0) || (12 <? m)) with false by lia. layout_step.
  rewrite getnum_appendInt by lia. layout_step.
  rewrite getnum_appendInt by lia. simpl.
  replace (24 <=? hh) with false by lia. layout_step.
  rewrite getnum_appendInt by lia. simpl.
  replace (60 <=? mi) with false by lia. layout_step.
  rewrite getnum_appendInt by lia. simpl.
  replace (60 <=? ss) with false by lia. layout_step.
  rewrite getMillis_appendInt
    by (Z.to_euclidean_division_equations; lia).
  layout_step.
  replace ((d <? 1) || (daysIn m y <? d)) with false by lia.
  f_equal. destruct t as [n z]. simpl in *. subst z.
  unfold Date in *. simpl in *. f_equal.
  Z.to_euclidean_division_equations; lia.
Qed.

End LayoutFacts.

(** ** Strings and UTF-8 *)

Module Utf8Facts.

(** Induction on strings by their length. *)
Lemma string_length_ind (P : string -> Prop) :
  (forall s, (forall t, (String.length t < String.length s)%nat -> P t) -> P s) ->
  forall s, P s.
Proof.
  intros H s.
  assert (forall n t, (String.length t < n)%nat -> P t) as Hn.
  { induction n as [|n IH]; intros t Ht; [lia|].
    apply H. intros u Hu. apply IH. lia. }
  apply (Hn (S (String.length s))). lia.
Qed.

Lemma ValidString_replacementChar rest :
  ValidString (replacementChar rest) = ValidString rest.
Proof. reflexivity. Qed.

Lemma coerce_replacementChar rest :
  coerceToUTF8 (replacementChar rest) = replacementChar (coerceToUTF8 rest).
Proof. reflexivity. Qed.

(** What the coercion returns is valid UTF-8. *)
Lemma ValidString_coerce s : ValidString (coerceToUTF8 s) = true.
Proof.
  induction s as [s IH] using string_length_ind.
  destruct s as [|c1 r1]; [reflexivity|].
  assert (Hbad : ValidString (replacementChar (coerceToUTF8 r1)) = true).
  { rewrite ValidString_replacementChar. apply IH. cbn. lia. }
  cbn [coerceToUTF8].
  destruct (isASCII c1) eqn:H1.
  { cbn [ValidString]. rewrite H1. apply IH. cbn. lia. }
  destruct r1 as [|c2 r2]; [exact Hbad|].
  destruct (starts2 c1 && isCont c2) eqn:H2.
  { cbn [ValidString]. rewrite H1, H2. apply IH. cbn. lia. }
  destruct r2 as [|c3 r3]; [exact Hbad|].
  destruct (starts3 c1 c2 && isCont c3) eqn:H3.
  { cbn [ValidString]. rewrite H1, H2, H3. apply IH. cbn. lia. }
  destruct r3 as [|c4 r4]; [exact Hbad|].
  destruct (starts4 c1 c2 && isCont c3 && isCont c4) eqn:H4; [|exact Hbad].
  cbn [ValidString]. rewrite H1, H2, H3, H4. apply IH. cbn. lia.
Qed.

(** The coercion leaves valid UTF-8 as it is. *)
Lemma coerce_valid s : ValidString s = true -> coerceToUTF8 s = s.
Proof.
  induction s as [s IH] using string_length_ind.
  destruct s as [|c1 r1]; [reflexivity|].
  cbn [coerceToUTF8 ValidString].
  destruct (isASCII c1) eqn:H1.
  { intros H. rewrite IH; [reflexivity|cbn; lia|exact H]. }
  destruct r1 as [|c2 r2]; [discriminate|].
  destruct (starts2 c1 && isCont c2) eqn:H2.
  { intros H. rewrite IH; [reflexivity|cbn; lia|exact H]. }
  destruct r2 as [|c3 r3]; [discriminate|].
  destruct (starts3 c1 c2 && isCont c3) eqn:H3.
  { intros H. rewrite IH; [reflexivity|cbn; lia|exact H]. }
  destruct r3 as [|c4 r4]; [discriminate|].
  destruct (starts4 c1 c2 && isCont c3 && isCont c4) eqn:H4; [|discriminate].
  intros H. rewrite IH; [reflexivity|cbn; lia|exact H].
Qed.

Lemma coerce_idem s : coerceToUTF8 (coerceToUTF8 s) = coerceToUTF8 s.
Proof. apply coerce_valid, ValidString_coerce. Qed.

(** A string that the coercion leaves as it is is valid. *)
Lemma coerce_fixed s : coerceToUTF8 s = s -> ValidString s = true.
Proof. intros H. rewrite <- H. apply ValidString_coerce. Qed.

Lemma allASCII_valid s : allASCII s = true -> ValidString s = true.
Proof.
  induction s as [|c s IH]; [reflexivity|]. cbn [allASCII ValidString].
  intros H. apply andb_true_iff in H. destruct H as [-> H]. now apply IH.
Qed.

Lemma allASCII_app a b :
  allASCII (a +:+ b) = allASCII a && allASCII b.
Proof.
  induction a as [|c a IH]; [reflexivity|].
  change (String c a +:+ b) with (String c (a +:+ b)).
  cbn [allASCII]. rewrite IH. now rewrite andb_assoc.
Qed.

Lemma isASCII_digitChar n : (n < 10)%Z -> isASCII (digitChar n) = true.
Proof.
  intros H. unfold digitChar.
  assert (Z.to_nat n < 10)%nat as Hn by lia.
  destruct (Z.to_nat n) as [|[|[|[|[|[|[|[|[|[|k]]]]]]]]]];
    try reflexivity; lia.
Qed.

Lemma allASCII_utoaFuel fuel n : allASCII (utoaFuel fuel n) = true.
Proof.
  induction fuel as [|fuel IH] in n |- *; [reflexivity|].
  cbn [utoaFuel]. destruct (Z.ltb_spec n 10) as [Hlt|Hge].
  - cbn [allASCII]. rewrite isASCII_digitChar by exact Hlt. reflexivity.
  - rewrite allASCII_app, IH. cbn [allASCII andb].
    rewrite isASCII_digitChar; [reflexivity|].
    apply Z.mod_pos_bound. lia.
Qed.

Lemma allASCII_zeros k : allASCII (zeros k) = true.
Proof. induction k as [|k IH]; [reflexivity|exact IH]. Qed.

Lemma allASCII_appendInt x width : allASCII (appendInt x width) = true.
Proof.
  unfold appendInt, utoa.
  rewrite !allASCII_app, allASCII_zeros, allASCII_utoaFuel.
  destruct (x <? 0)%Z; reflexivity.
Qed.

Lemma allASCII_Itoa x : allASCII (Itoa x) = true.
Proof.
  unfold Itoa, utoa. rewrite allASCII_app, allASCII_utoaFuel.
  destruct (x <? 0)%Z; reflexivity.
Qed.

Lemma allASCII_formatMillisZ t : allASCII (formatMillisZ t) = true.
Proof.
  unfold formatMillisZ, formatDateTime.
  rewrite !allASCII_app, !allASCII_appendInt. reflexivity.
Qed.

(** The texts the layout writes and the decimal codes are ASCII: the
    coercion leaves them as they are. *)
Lemma coerce_formatMillisZ t :
  coerceToUTF8 (formatMillisZ t) = formatMillisZ t.
Proof. apply coerce_valid, allASCII_valid, allASCII_formatMillisZ. Qed.

Lemma coerce_Itoa x : coerceToUTF8 (Itoa x) = Itoa x.
Proof. apply coerce_valid, allASCII_valid, allASCII_Itoa. Qed.

End Utf8Facts.

(** ** The dataset file: documents written and read back *)

Module StoreFacts.
Import LayoutFacts Utf8Facts.

Lemma decode_marshalOutputEvent o :
  decodeOutputEvent zeroOutputEvent (marshalOutputEvent o)
  = Some (coercedOutput o).
Proof.
  destruct o as [s e c [b|]]; cbv -[coerceToUTF8]; rewrite !coerce_idem;
    reflexivity.
Qed.

Lemma decodeElems_marshal l :
  decodeElems [] (map marshalOutputEvent l) = Some (map coercedOutput l, []).
Proof.
  induction l as [|o l IH]; [reflexivity|].
  cbn [map decodeElems tail]. rewrite decode_marshalOutputEvent.
  cbn [mbind option_bind]. rewrite IH. reflexivity.
Qed.

(** Decoding what [json.MarshalIndent] wrote gives back the value, its
    strings coerced to valid UTF-8. *)
Lemma unmarshal_marshalOutputData d :
  unmarshalOutputData (marshalOutputData d)
  = Some (mkOutputData (map coercedOutput (Data d))).
Proof.
  destruct d as [l]. unfold marshalOutputData, unmarshalOutputData.
  cbn [Data decodeMembers decodeDataMember].
  change (isField "data" "data") with true. cbn iota.
  destruct l as [|o l]; [reflexivity|].
  change (map marshalOutputEvent (o :: l))
    with (marshalOutputEvent o :: map marshalOutputEvent l).
  cbv iota.
  change (marshalOutputEvent o :: map marshalOutputEvent l)
    with (map marshalOutputEvent (o :: l)).
  cbn [fst snd app]. rewrite decodeElems_marshal. reflexivity.
Qed.

(** The texts of the layout are ASCII, so only the code can change on
    the way through the document. *)
Lemma coercedOutput_toOutputEvent e :
  coercedOutput (toOutputEvent e)
  = toOutputEvent (setCode (coerceToUTF8 (Code e)) e).
Proof.
  unfold coercedOutput, toOutputEvent.
  cbn [Start End_ oCode oIsTest setCode StartAt EndAt Code IsTest].
  rewrite !coerce_formatMillisZ. reflexivity.
Qed.

Lemma unmarshal_saved events :
  unmarshalOutputData (marshalOutputData (convertToOutputFormat events))
  = Some (convertToOutputFormat
            (map (fun e => setCode (coerceToUTF8 (Code e)) e) events)).
Proof.
  rewrite unmarshal_marshalOutputData. unfold convertToOutputFormat.
  cbn [Data]. rewrite !map_map. do 2 f_equal.
  apply map_ext. intros e. apply coercedOutput_toOutputEvent.
Qed.

(** *** What the decoder returns holds valid UTF-8 only *)

Lemma decodeMembers_invariant {A : Type} (P : A -> Prop)
    (step : A -> string * json -> option A) :
  (forall cur kv cur', P cur -> step cur kv = Some cur' -> P cur') ->
  forall members cur r,
    P cur -> decodeMembers step cur members = Some r -> P r.
Proof.
  intros Hstep. induction members as [|kv members IH]; intros cur r Hc H.
  - injection H as <-. exact Hc.
  - cbn [decodeMembers] in H.
    destruct (step cur kv) as [cur'|] eqn:Hs; [|discriminate].
    cbn [mbind option_bind] in H.
    apply (IH cur' r); [|exact H]. apply (Hstep cur kv cur' Hc Hs).
Qed.

Lemma decodeString_valid cur v s :
  ValidString cur = true -> decodeString cur v = Some s ->
  ValidString s = true.
Proof.
  intros Hc. destruct v; cbn [decodeString]; try discriminate.
  - intros [= <-]. exact Hc.
  - intros [= <-]. apply ValidString_coerce.
Qed.

Lemma decodeOutputEventMember_valid cur kv cur' :
  validText cur -> decodeOutputEventMember cur kv = Some cur' ->
  validText cur'.
Proof.
  intros (Hs & He & Hc). destruct kv as [k v]. unfold decodeOutputEventMember.
  destruct (isField "start" k).
  { destruct (decodeString (Start cur) v) as [s|] eqn:Hd; [|discriminate].
    cbn [mbind option_bind]. intros [= <-].
    repeat split; try assumption. apply (decodeString_valid _ _ _ Hs Hd). }
  destruct (isField "end" k).
  { destruct (decodeString (End_ cur) v) as [s|] eqn:Hd; [|discriminate].
    cbn [mbind option_bind]. intros [= <-].
    repeat split; try assumption. apply (decodeString_valid _ _ _ He Hd). }
  destruct (isField "code" k).
  { destruct (decodeString (oCode cur) v) as [s|] eqn:Hd; [|discriminate].
    cbn [mbind option_bind]. intros [= <-].
    repeat split; try assumption. apply (decodeString_valid _ _ _ Hc Hd). }
  destruct (isField "is_test" k).
  { destruct (decodeBoolPtr v) as [b|]; [|discriminate].
    cbn [mbind option_bind]. intros [= <-]. repeat split; assumption. }
  intros [= <-]. repeat split; assumption.
Qed.

Lemma decodeOutputEvent_valid cur j e :
  validText cur -> decodeOutputEvent cur j = Some e -> validText e.
Proof.
  intros Hc. destruct j; cbn [decodeOutputEvent]; try discriminate.
  - intros [= <-]. exact Hc.
  - apply (decodeMembers_invariant validText decodeOutputEventMember
             decodeOutputEventMember_valid _ _ _ Hc).
Qed.

Lemma validText_zero : validText zeroOutputEvent.
Proof. repeat split. Qed.

Lemma decodeElems_valid items cells live spare :
  Forall validText cells ->
  decodeElems cells items = Some (live, spare) ->
  Forall validText live /\ Forall validText spare.
Proof.
  induction items as [|item items IH] in cells, live, spare |- *;
    intros Hc H.
  - injection H as <- <-. split; [constructor|exact Hc].
  - cbn [decodeElems] in H.
    assert (validText match cells with c :: _ => c | [] => zeroOutputEvent end)
      as Hcur.
    { destruct Hc; [apply validText_zero|assumption]. }
    destruct (decodeOutputEvent _ item) as [e|] eqn:He; [|discriminate].
    cbn [mbind option_bind] in H.
    destruct (decodeElems (tail cells) items) as [[live' spare']|] eqn:Hr;
      [|discriminate].
    cbn [mbind option_bind] in H. injection H as <- <-.
    assert (Forall validText (tail cells)) as Ht.
    { destruct Hc; [constructor|assumption]. }
    destruct (IH _ _ _ Ht Hr) as [Hl Hsp].
    split; [|exact Hsp]. constructor; [|exact Hl].
    apply (decodeOutputEvent_valid _ _ _ Hcur He).
Qed.

Lemma decodeDataMember_valid st kv st' :
  Forall validText (fst st) /\ Forall validText (snd st) ->
  decodeDataMember st kv = Some st' ->
  Forall validText (fst st') /\ Forall validText (snd st').
Proof.
  intros [Hl Hs]. destruct kv as [k v]. unfold decodeDataMember.
  destruct (isField "data" k); [|intros [= <-]; split; assumption].
  assert (Forall validText (fst st ++ snd st)) as Hc
    by (apply Forall_app; split; assumption).
  destruct v as [| | | |items|]; try discriminate.
  - intros [= <-]. split; constructor.
  - destruct items as [|item items]; [intros [= <-]; split; constructor|].
    destruct st' as [live spare]. apply decodeElems_valid, Hc.
Qed.

Lemma unmarshalOutputData_valid j d :
  unmarshalOutputData j = Some d -> Forall validText (Data d).
Proof.
  destruct j; cbn [unmarshalOutputData]; try discriminate.
  - intros [= <-]. constructor.
  - destruct (decodeMembers decodeDataMember ([], []) members) as [st|] eqn:H;
      [|discriminate].
    cbn [mbind option_bind]. intros [= <-]. cbn [Data].
    apply (decodeMembers_invariant
             (fun st => Forall validText (fst st) /\ Forall validText (snd st))
             decodeDataMember decodeDataMember_valid members ([], []) st);
      [split; constructor|exact H].
Qed.

Lemma jsonUnmarshalOutputData_valid data d :
  jsonUnmarshalOutputData data = Some d -> Forall validText (Data d).
Proof.
  destruct data; [|discriminate]. apply unmarshalOutputData_valid.
Qed.

Lemma toEvents_length data events :
  toEvents data = inl events -> length events = length data.
Proof.
  revert events. induction data as [|o data IH]; intros events H.
  - injection H as <-. reflexivity.
  - simpl in H.
    destruct (parseMillisZ (Start o)); [|discriminate].
    destruct (parseMillisZ (End_ o)); [|discriminate].
    destruct (toEvents data) as [evs|]; [|discriminate].
    injection H as <-. simpl. f_equal. now apply IH.
Qed.

Lemma toEvents_convert events :
  Forall (fun e => layoutExact (StartAt e) /\ layoutExact (EndAt e)) events ->
  exists loaded,
    toEvents (Data (convertToOutputFormat events)) = inl loaded
    /\ map persistedFields loaded = map persistedFields events.
Proof.
  induction 1 as [|e events [Hs He] _ (loaded & IH & Heq)].
  - exists []. split; reflexivity.
  - exists (mkEvent (Code e) (EndAt e) false "" (StartAt e) "" (IsTest e)
            :: loaded).
    cbn [convertToOutputFormat Data map toEvents toOutputEvent Start End_
         oCode oIsTest] in *.
    rewrite (parse_format_exact _ Hs), (parse_format_exact _ He), IH.
    split; [reflexivity|]. now rewrite Heq.
Qed.

Lemma truncated_nanos (n o : Z) :
  let cut := (n / 1000000 * 1000000 + o * 1000000000)%Z in
  let abs := (n + o * 1000000000)%Z in
  (cut / 1000000000 = abs / 1000000000
   /\ cut mod 1000000000 / 1000000 = abs mod 1000000000 / 1000000)%Z.
Proof.
  cbv zeta.
  set (abs := (n + o * 1000000000)%Z).
  pose proof (Z_div_mod_eq_full abs 1000000000) as Ha.
  pose proof (Z.mod_pos_bound abs 1000000000 ltac:(lia)) as Hr.
  set (a := (abs / 1000000000)%Z) in *.
  set (r := (abs mod 1000000000)%Z) in *.
  pose proof (Z_div_mod_eq_full r 1000000) as Hb.
  pose proof (Z.mod_pos_bound r 1000000 ltac:(lia)) as Hc.
  set (b := (r / 1000000)%Z) in *.
  set (c := (r mod 1000000)%Z) in *.
  assert (0 <= b < 1000)%Z as Hbb by lia.
  assert (n / 1000000 = 1000 * (a - o) + b)%Z as Hq.
  { symmetry. apply (Z.div_unique n 1000000 _ c); lia. }
  rewrite Hq.
  assert ((1000 * (a - o) + b) * 1000000 + o * 1000000000
          = 1000000000 * a + 1000000 * b)%Z as -> by ring.
  assert ((1000000000 * a + 1000000 * b) / 1000000000 = a)%Z as ->.
  { symmetry. apply (Z.div_unique _ 1000000000 a (1000000 * b)); lia. }
  assert ((1000000000 * a + 1000000 * b) mod 1000000000 = 1000000 * b)%Z
    as ->.
  { symmetry. apply (Z.mod_unique _ 1000000000 a (1000000 * b)); lia. }
  split; [reflexivity|].
  symmetry. apply (Z.div_unique _ 1000000 b 0); lia.
Qed.

(** Cutting an instant to milliseconds leaves the text of the layout
    unchanged. *)
Lemma formatMillisZ_trunc t : formatMillisZ (truncMillis t) = formatMillisZ t.
Proof.
  unfold formatMillisZ, wallClock, truncMillis. simpl.
  destruct (truncated_nanos (unixNano t) (zoneOffset t)) as [H1 H2].
  rewrite H1.
  destruct (daysToCivil
              ((unixNano t + zoneOffset t * 1000000000) / 1000000000 / 86400))
    as [[y m] d].
  simpl. now rewrite H2.
Qed.

Lemma Year_trunc t : Year (truncMillis t) = Year t.
Proof.
  unfold Year, wallClock, truncMillis. simpl.
  destruct (truncated_nanos (unixNano t) (zoneOffset t)) as [H1 _].
  rewrite H1.
  now destruct (daysToCivil
              ((unixNano t + zoneOffset t * 1000000000) / 1000000000 / 86400))
    as [[y m] d].
Qed.

(** For a time in UTC within the years of the layout, the text written
    denotes its instant, cut to milliseconds. *)
Lemma parse_format_utc t :
  zoneOffset t = 0%Z -> (0 <= Year t <= 9999)%Z ->
  parseMillisZ (formatMillisZ t) = Some (truncMillis t).
Proof.
  intros Hz Hy. rewrite <- formatMillisZ_trunc.
  apply parse_format_exact. repeat split.
  - exact Hz.
  - unfold truncMillis. simpl. apply Z_mod_mult.
  - rewrite Year_trunc. lia.
  - rewrite Year_trunc. lia.
Qed.

End StoreFacts.

(** ** A runtime: maps ranged in key order, stable merge sort *)

Module Runtime.

Lemma notAfterR_total less : WeakOrdering less -> Total (notAfterR less).
Proof. intros [Ht _] a b. unfold notAfterR. destruct (Ht a b); auto. Qed.

Lemma notAfterR_trans less : WeakOrdering less -> Transitive (notAfterR less).
Proof. intros [_ Htr] a b c Hab Hbc. unfold notAfterR in *. eauto. Qed.

#[global] Instance notAfterR_dec less a b : Decision (notAfterR less a b).
Proof. unfold notAfterR. apply _. Defined.

Definition stableSort (less : Event -> Event -> bool) (l : list Event)
  : list Event :=
  merge_sort (notAfterR less) l.

Lemma stableSort_perm less l : Permutation (stableSort less l) l.
Proof. apply merge_sort_Permutation. Qed.

Lemma stableSort_sorted less l :
  WeakOrdering less ->
  StronglySorted (fun a b => less b a = false) (stableSort less l).
Proof.
  intros Hw.
  pose proof (notAfterR_total less Hw). pose proof (notAfterR_trans less Hw).
  apply (StronglySorted_merge_sort (notAfterR less)).
Qed.

Definition stableRuntime : GoRuntime :=
  {| rangeOrder := fun l => l;
     sortSlice := stableSort;
     rangeOrder_perm := fun l => Permutation_refl l;
     sortSlice_perm := stableSort_perm;
     sortSlice_sorted := stableSort_sorted |}.

End Runtime.

(** ** Merging and change detection *)

Module MergeFacts.

Lemma startsBefore_weak : WeakOrdering startsBefore.
Proof.
  split; unfold startsBefore, Before; intros; lia.
Qed.

Lemma lastWithKey_Some k l e :
  lastWithKey k l = Some e -> mergeKey e = k /\ In e l.
Proof.
  induction l as [|x l IH]; simpl; [discriminate|].
  destruct (lastWithKey k l) as [y|].
  - intros [= ->]. destruct (IH eq_refl). auto.
  - destruct (String.eqb_spec (mergeKey x) k); [|discriminate].
    intros [= ->]. auto.
Qed.

Lemma lastWithKey_None k l :
  lastWithKey k l = None <-> ~ In k (map mergeKey l).
Proof.
  induction l as [|x l IH]; simpl; [tauto|].
  destruct (lastWithKey k l) as [y|] eqn:Hl.
  - split; [discriminate|]. intros H. exfalso. apply H. right.
    destruct (lastWithKey_Some k l y Hl) as [<- Hin]. now apply in_map.
  - destruct (String.eqb_spec (mergeKey x) k); split;
      try discriminate; tauto.
Qed.

(** The entry of the event map under a key: the last event put under
    it, else what the map held before. *)
Lemma lookup_foldl_putEvent l : forall (m : gmap string Event) k,
  foldl putEvent m l !! k =
  match lastWithKey k l with Some e => Some e | None => m !! k end.
Proof.
  induction l as [|x l IH]; intros m k; [reflexivity|].
  cbn [foldl lastWithKey]. rewrite IH.
  destruct (lastWithKey k l); [reflexivity|].
  unfold putEvent.
  destruct (String.eqb_spec (mergeKey x) k) as [->|Hne].
  - apply lookup_insert_eq.
  - now apply lookup_insert_ne.
Qed.

Lemma eventMap_lookup existing new k :
  eventMap existing new !! k = lastWithKey k (existing ++ new).
Proof.
  unfold eventMap. rewrite <- foldl_app, lookup_foldl_putEvent.
  destruct (lastWithKey k (existing ++ new)); [reflexivity|].
  apply lookup_empty.
Qed.

Lemma eventMap_entry existing new k e :
  (k, e) ∈ map_to_list (eventMap existing new) -> mergeKey e = k.
Proof.
  rewrite elem_of_map_to_list, eventMap_lookup.
  intros H. now destruct (lastWithKey_Some _ _ _ H).
Qed.

Lemma eventMap_keys existing new :
  map mergeKey (map snd (map_to_list (eventMap existing new)))
  = map fst (map_to_list (eventMap existing new)).
Proof.
  pose proof (eventMap_entry existing new) as H.
  induction (map_to_list (eventMap existing new)) as [|[k e] l IH];
    [reflexivity|].
  simpl. f_equal.
  - apply H. left.
  - apply IH. intros k' e' Hin. apply H. now right.
Qed.

Lemma mergeEvents_perm rt existing new :
  Permutation (mergeEvents rt existing new)
              (map snd (map_to_list (eventMap existing new))).
Proof.
  unfold mergeEvents. fold (eventMap existing new).
  rewrite sortSlice_perm. apply Permutation_map, rangeOrder_perm.
Qed.

Lemma mergeEvents_In rt existing new e :
  In e (mergeEvents rt existing new)
  <-> lastWithKey (mergeKey e) (existing ++ new) = Some e.
Proof.
  rewrite <- eventMap_lookup, <- elem_of_map_to_list.
  rewrite <- list_elem_of_In, (mergeEvents_perm rt existing new).
  rewrite list_elem_of_In, in_map_iff. split.
  - intros ([k e'] & <- & Hin). simpl.
    apply list_elem_of_In in Hin.
    now rewrite (eventMap_entry _ _ _ _ Hin).
  - intros Hin. exists (mergeKey e, e). split; [reflexivity|].
    now apply list_elem_of_In.
Qed.

Lemma mergeEvents_NoDup rt existing new :
  NoDup (map mergeKey (mergeEvents rt existing new)).
Proof.
  rewrite (Permutation_map mergeKey (mergeEvents_perm rt existing new)).
  rewrite eventMap_keys. apply NoDup_fst_map_to_list.
Qed.

Lemma mergeEvents_sorted rt existing new :
  StronglySorted (fun a b => Before (StartAt b) (StartAt a) = false)
                 (mergeEvents rt existing new).
Proof. apply (sortSlice_sorted rt startsBefore), startsBefore_weak. Qed.

Lemma mergeEvents_length rt existing new :
  length (mergeEvents rt existing new) = size (eventMap existing new).
Proof.
  rewrite (Permutation_length (mergeEvents_perm rt existing new)).
  rewrite length_map. apply length_map_to_list.
Qed.

Lemma mergeEvents_keys rt existing new k :
  In k (map mergeKey (mergeEvents rt existing new))
  <-> In k (map mergeKey (existing ++ new)).
Proof.
  split.
  - intros (e & <- & Hin)%in_map_iff. apply mergeEvents_In in Hin.
    destruct (lastWithKey_Some _ _ _ Hin) as [_ Hin']. now apply in_map.
  - intros Hin. destruct (lastWithKey k (existing ++ new)) as [e|] eqn:Hl.
    + destruct (lastWithKey_Some _ _ _ Hl) as [<- _].
      apply in_map, mergeEvents_In, Hl.
    + now apply lastWithKey_None in Hl.
Qed.

Lemma dom_foldl_putEvent l : forall m : gmap string Event,
  dom (foldl putEvent m l) = dom m ∪ list_to_set (map mergeKey l).
Proof.
  induction l as [|x l IH]; intros m; simpl.
  - set_solver.
  - rewrite IH. unfold putEvent. rewrite dom_insert_L. set_solver.
Qed.

(** Merging never leaves fewer events than the distinct keys of the
    first list. *)
Lemma mergeEvents_length_ge rt existing new :
  NoDup (map mergeKey existing) ->
  length existing <= length (mergeEvents rt existing new).
Proof.
  intros Hnd. rewrite mergeEvents_length, <- size_dom.
  unfold eventMap. rewrite !dom_foldl_putEvent.
  rewrite <- (length_map mergeKey existing).
  rewrite <- (size_list_to_set (C := gset string) (map mergeKey existing))
    by exact Hnd.
  apply subseteq_size. set_solver.
Qed.

(** *** [hasChanges] *)

Lemma lookup_foldl_markKey l : forall (m : gmap string bool) k,
  foldl markKey m l !! k = Some true
  <-> In k (map mergeKey l) \/ m !! k = Some true.
Proof.
  induction l as [|x l IH]; intros m k.
  - simpl. tauto.
  - cbn [foldl map In]. rewrite IH. unfold markKey.
    destruct (decide (mergeKey x = k)) as [->|Hne].
    + rewrite lookup_insert_eq. tauto.
    + rewrite lookup_insert_ne by exact Hne. tauto.
Qed.

Lemma marked_iff existing k :
  default false (foldl markKey ∅ existing !! k) = true
  <-> In k (map mergeKey existing).
Proof.
  pose proof (lookup_foldl_markKey existing ∅ k) as H.
  rewrite lookup_empty in H.
  destruct (foldl markKey ∅ existing !! k) as [[|]|]; simpl.
  - split; [intros _|reflexivity]. destruct H as [[?|?] _]; try done.
  - split; [discriminate|]. intros Hin.
    destruct H as [_ H]. discriminate H. now left.
  - split; [discriminate|]. intros Hin.
    destruct H as [_ H]. discriminate H. now left.
Qed.

Lemma anyMissing_false existing new :
  anyMissing (foldl markKey ∅ existing) new = false
  <-> forall e, In e new -> In (mergeKey e) (map mergeKey existing).
Proof.
  induction new as [|x new IH]; simpl.
  - split; [intros _ e []|reflexivity].
  - pose proof (marked_iff existing (mergeKey x)) as Hm.
    destruct (default false (foldl markKey ∅ existing !! mergeKey x));
      simpl.
    + rewrite IH. split.
      * intros H e [<-|Hin]; [now apply Hm|auto].
      * intros H e Hin. apply H. now right.
    + split; [discriminate|].
      intros H. assert (false = true) by (apply Hm, H; now left).
      discriminate.
Qed.

(** Change detection looks at the two lengths and at the keys only. *)
Lemma hasChanges_false existing new :
  hasChanges existing new = false
  <-> length existing = length new
      /\ forall e, In e new -> In (mergeKey e) (map mergeKey existing).
Proof.
  unfold hasChanges.
  destruct (Nat.eqb_spec (length existing) (length new)) as [Hl|Hl]; simpl.
  - rewrite anyMissing_false. tauto.
  - split; [discriminate|tauto].
Qed.

End MergeFacts.

(** ** Decimal rendering *)

Module DecimalFacts.
Import LayoutFacts.
Local Open Scope Z_scope.

Lemma decimalValue_app s t : forall acc,
  decimalValue acc (s +:+ t) =
  match decimalValue acc s with
  | Some v => decimalValue v t
  | None => None
  end.
Proof.
  induction s as [|c s IH]; intros acc; [reflexivity|].
  rewrite append_cons. simpl. destruct (isDigit c); [apply IH|reflexivity].
Qed.

Lemma digitChar_digit d :
  0 <= d < 10 ->
  isDigit (digitChar d) = true /\ digitVal (digitChar d) = d.
Proof.
  intros Hd.
  assert (d = 0 \/ d = 1 \/ d = 2 \/ d = 3 \/ d = 4 \/ d = 5 \/ d = 6
          \/ d = 7 \/ d = 8 \/ d = 9) as Hc by lia.
  repeat (destruct Hc as [-> | Hc]; [split; reflexivity|]).
  subst d. split; reflexivity.
Qed.

Lemma length_snoc (s : string) (c : ascii) :
  String.length (s +:+ String c "") = S (String.length s).
Proof.
  induction s as [|x s IHs]; [reflexivity|].
  rewrite append_cons. cbn [String.length]. now rewrite IHs.
Qed.

Lemma utoaFuel_value fuel : forall n acc,
  0 <= n < 2 ^ Z.of_nat fuel -> (0 < fuel)%nat ->
  decimalValue acc (utoaFuel fuel n)
  = Some (acc * 10 ^ Z.of_nat (String.length (utoaFuel fuel n)) + n).
Proof.
  induction fuel as [|fuel IH]; intros n acc Hn Hf; [lia|].
  cbn [utoaFuel]. destruct (Z.ltb_spec n 10) as [Hlt|Hge].
  - destruct (digitChar_digit n ltac:(lia)) as [H1 H2].
    cbn [decimalValue String.length]. rewrite H1, H2.
    change (Z.of_nat 1) with 1. f_equal; lia.
  - assert (0 <= n / 10 < 2 ^ Z.of_nat fuel /\ (0 < fuel)%nat) as [Hq Hf'].
    { destruct fuel as [|fuel]; [change (2 ^ Z.of_nat 1) with 2 in Hn; lia|].
      split; [|lia].
      rewrite (Nat2Z.inj_succ (S fuel)), Z.pow_succ_r in Hn by lia.
      split; [apply Z.div_pos; lia|].
      apply Z.div_lt_upper_bound; lia. }
    rewrite decimalValue_app, (IH _ _ Hq Hf').
    destruct (digitChar_digit (n mod 10)
                ltac:(apply Z.mod_pos_bound; lia)) as [H1 H2].
    cbn [decimalValue]. rewrite H1, H2. f_equal.
    rewrite length_snoc, Nat2Z.inj_succ, Z.pow_succ_r by lia.
    pose proof (Z_div_mod_eq_full n 10). lia.
Qed.

(** [Itoa] writes a non-negative number in decimal digits. *)
Lemma Itoa_decimal n : 0 <= n -> decimalValue 0 (Itoa n) = Some n.
Proof.
  intros Hn. unfold Itoa.
  replace (n <? 0) with false by lia.
  rewrite append_nil_l, Z.abs_eq by lia. unfold utoa.
  rewrite utoaFuel_value; [f_equal; lia| |lia].
  rewrite Nat2Z.inj_succ, Z2Nat.id by apply Z.log2_nonneg.
  destruct (Z.eq_dec n 0) as [->|Hne]; [change (Z.log2 0) with 0; lia|].
  split; [lia|]. apply Z.log2_spec. lia.
Qed.

End DecimalFacts.

(** ** Code assignment *)

Module AssignFacts.
Import DecimalFacts.

Lemma assignFrom_length l : forall i, length (assignFrom i l) = length l.
Proof. induction l as [|e l IH]; intros i; simpl; [|rewrite IH]; reflexivity. Qed.

Lemma assignFrom_codes l : forall i,
  map Code (assignFrom (Z.of_nat i) l)
  = map (fun k => Itoa (Z.of_nat k)) (seq (S i) (length l)).
Proof.
  induction l as [|e l IH]; intros i; [reflexivity|].
  cbn [assignFrom map length seq Code setCode]. f_equal.
  - f_equal. lia.
  - rewrite <- IH. do 2 f_equal. lia.
Qed.

Lemma assignFrom_rest l : forall i,
  map (setCode "") (assignFrom i l) = map (setCode "") l.
Proof.
  induction l as [|e l IH]; intros i; [reflexivity|].
  simpl. now rewrite IH.
Qed.

Lemma assignFrom_Forall (Q : Time -> Prop) l : forall i,
  Forall (fun b => Q (StartAt b)) l ->
  Forall (fun b => Q (StartAt b)) (assignFrom i l).
Proof.
  induction l as [|e l IH]; intros i H; [constructor|].
  inversion H; subst. simpl. constructor; [assumption|]. now apply IH.
Qed.

Lemma assignFrom_sorted l : forall i,
  StronglySorted (fun a b => Before (StartAt b) (StartAt a) = false) l ->
  StronglySorted (fun a b => Before (StartAt b) (StartAt a) = false)
                 (assignFrom i l).
Proof.
  induction l as [|e l IH]; intros i H; [constructor|].
  inversion H; subst. simpl. constructor; [now apply IH|].
  apply (assignFrom_Forall (fun t => Before t (StartAt e) = false)).
  assumption.
Qed.

End AssignFacts.

(** ** The run: collected results and the merged dataset *)

Module RunFacts.
Import Runtime MergeFacts StoreFacts AssignFacts.

(** The collecting loop does not depend on the order of arrival. *)
Lemma collect_arrivals env :
  foldl collectOne ([], []) (arrivals env)
  = (contributed (octopus env), contributed (davidKendall env)).
Proof.
  unfold arrivals, contributed.
  destruct (octopusFirst env), (octopus env) as [oe [?|]],
    (davidKendall env) as [de [?|]]; reflexivity.
Qed.

Lemma mergeAll_unfold env existing :
  mergeAll env existing =
  let allEvents :=
    if (0 <? length (contributed (davidKendall env)))%nat
    then mergeEvents (runtime env 0%nat) existing
                     (contributed (davidKendall env))
    else existing in
  if (0 <? length (contributed (octopus env)))%nat
  then mergeEvents (runtime env 1%nat) allEvents (contributed (octopus env))
  else allEvents.
Proof. unfold mergeAll. now rewrite collect_arrivals. Qed.

Lemma mergeAll_length_ge env existing :
  NoDup (map mergeKey existing) ->
  length existing <= length (mergeAll env existing).
Proof.
  intros Hnd. rewrite mergeAll_unfold. cbv zeta.
  destruct (0 <? length (contributed (davidKendall env)))%nat;
    destruct (0 <? length (contributed (octopus env)))%nat.
  - etransitivity;
      [apply (mergeEvents_length_ge (runtime env 0%nat) existing
                (contributed (davidKendall env)) Hnd)|].
    apply mergeEvents_length_ge, mergeEvents_NoDup.
  - now apply mergeEvents_length_ge.
  - now apply mergeEvents_length_ge.
  - reflexivity.
Qed.

(** Merging in events whose keys are all known changes neither the
    number of events nor the set of keys. *)
Lemma mergeEvents_known rt existing new :
  NoDup (map mergeKey existing) ->
  (forall e, In e new -> In (mergeKey e) (map mergeKey existing)) ->
  length (mergeEvents rt existing new) = length existing
  /\ forall k, In k (map mergeKey (mergeEvents rt existing new))
               <-> In k (map mergeKey existing).
Proof.
  intros Hnd Hsub.
  assert (forall k, In k (map mergeKey (existing ++ new))
                    <-> In k (map mergeKey existing)) as Hk.
  { intros k. rewrite map_app, in_app_iff. split; [|tauto].
    intros [?|(e & <- & Hin)%in_map_iff]; auto. }
  split.
  - rewrite mergeEvents_length, <- size_dom.
    unfold eventMap. rewrite !dom_foldl_putEvent.
    rewrite <- (length_map mergeKey existing).
    rewrite <- (size_list_to_set (C := gset string) (map mergeKey existing))
      by exact Hnd.
    f_equal. apply set_eq. intros k. rewrite dom_empty_L.
    rewrite !elem_of_union, !elem_of_list_to_set, !list_elem_of_In.
    specialize (Hk k). rewrite map_app, in_app_iff in Hk.
    rewrite elem_of_empty. tauto.
  - intros k. now rewrite mergeEvents_keys.
Qed.

Lemma mergeAll_known env existing :
  NoDup (map mergeKey existing) ->
  (forall e, In e (contributed (davidKendall env))
             \/ In e (contributed (octopus env)) ->
             In (mergeKey e) (map mergeKey existing)) ->
  hasChanges existing (mergeAll env existing) = false.
Proof.
  intros Hnd Hsub. apply hasChanges_false.
  rewrite mergeAll_unfold. cbv zeta.
  assert (length (if (0 <? length (contributed (davidKendall env)))%nat
                  then mergeEvents (runtime env 0%nat) existing
                                   (contributed (davidKendall env))
                  else existing) = length existing
          /\ (forall k, In k (map mergeKey
                 (if (0 <? length (contributed (davidKendall env)))%nat
                  then mergeEvents (runtime env 0%nat) existing
                                   (contributed (davidKendall env))
                  else existing)) <-> In k (map mergeKey existing))
          /\ NoDup (map mergeKey
                 (if (0 <? length (contributed (davidKendall env)))%nat
                  then mergeEvents (runtime env 0%nat) existing
                                   (contributed (davidKendall env))
                  else existing))) as (Hl1 & Hk1 & Hn1).
  { destruct (0 <? length (contributed (davidKendall env)))%nat.
    - destruct (mergeEvents_known (runtime env 0%nat) existing
                  (contributed (davidKendall env)) Hnd) as [? ?]; [auto|].
      repeat split; try assumption; try apply H0. apply mergeEvents_NoDup.
    - repeat split; auto. }
  set (first := if (0 <? length (contributed (davidKendall env)))%nat
                then _ else _) in *.
  destruct (0 <? length (contributed (octopus env)))%nat.
  - destruct (mergeEvents_known (runtime env 1%nat) first
                (contributed (octopus env)) Hn1) as [Hl2 Hk2].
    { intros e He. apply Hk1. auto. }
    split; [congruence|].
    intros e He. apply Hk1, Hk2. now apply in_map.
  - split; [congruence|]. intros e He. apply Hk1. now apply in_map.
Qed.

(** Change detection finds nothing when the merged dataset has the
    size of the loaded one and only known merge keys. *)
Lemma unchanged_merge_keys_skip_write env file existing :
  existingOrFail (loadExistingEvents file) = inl existing ->
  length (mergeAll env existing) = length existing ->
  (forall e, In e (mergeAll env existing) ->
             In (mergeKey e) (map mergeKey existing)) ->
  fetchAndUpdateEvents env file = (None, file).
Proof.
  intros Hload Hlen Hkeys.
  unfold fetchAndUpdateEvents. rewrite Hload.
  assert (hasChanges existing (mergeAll env existing) = false) as ->;
    [|reflexivity].
  apply hasChanges_false. split; [now symmetry|exact Hkeys].
Qed.

Lemma assignSequentialCodes_length rt l :
  length (assignSequentialCodes rt l) = length l.
Proof.
  unfold assignSequentialCodes. rewrite assignFrom_length.
  apply Permutation_length, sortSlice_perm.
Qed.

(** What a file that loads holds. *)
Lemma load_persistedCount file existing :
  loadExistingEvents file = inl existing ->
  persistedCount file = Some (length existing).
Proof.
  unfold loadExistingEvents, persistedCount.
  destruct file as [| |content mtime]; try discriminate. simpl.
  destruct (jsonUnmarshalOutputData content) as [d|]; [|discriminate].
  intros H. simpl. f_equal. symmetry. now apply toEvents_length.
Qed.

Lemma toEvents_error data e :
  toEvents data = inr e -> IsNotExist e = false.
Proof.
  induction data as [|o l IH]; simpl; [discriminate|].
  destruct (parseMillisZ (Start o)); [|now intros [= <-]].
  destruct (parseMillisZ (End_ o)); [|now intros [= <-]].
  destruct (toEvents l); [discriminate|].
  intros [= <-]. now apply IH.
Qed.

(** Only a missing file is reported as missing. *)
Lemma load_NotExist file e :
  loadExistingEvents file = inr e -> IsNotExist e = true -> file = Absent.
Proof.
  unfold loadExistingEvents.
  destruct file as [| |content mtime]; simpl; intros H Hn.
  - reflexivity.
  - injection H as <-. discriminate.
  - destruct (jsonUnmarshalOutputData content) as [d|].
    + apply toEvents_error in H. congruence.
    + injection H as <-. discriminate.
Qed.

Lemma saved_persistedCount now events file :
  persistedCount (snd (saveEvents WriteDone now events file))
  = Some (length events).
Proof.
  unfold saveEvents, WriteFile.
  cbn [snd persistedCount jsonUnmarshalOutputData].
  rewrite unmarshal_marshalOutputData.
  cbn [mbind option_bind convertToOutputFormat Data].
  now rewrite !length_map.
Qed.

Lemma run_depends_on_contributed env env' file :
  contributed (octopus env) = contributed (octopus env') ->
  contributed (davidKendall env) = contributed (davidKendall env') ->
  runtime env = runtime env' -> writing env = writing env' ->
  now env = now env' ->
  fetchAndUpdateEvents env file = fetchAndUpdateEvents env' file.
Proof.
  intros Ho Hd Hr Hw Hn. unfold fetchAndUpdateEvents.
  destruct (existingOrFail (loadExistingEvents file)) as [existing|e];
    [|reflexivity].
  assert (mergeAll env existing = mergeAll env' existing) as ->.
  { rewrite !mergeAll_unfold. now rewrite Ho, Hd, Hr. }
  now rewrite Hr, Hw, Hn.
Qed.

Lemma hasChanges_same existing : hasChanges existing existing = false.
Proof.
  apply hasChanges_false. split; [reflexivity|].
  intros e He. now apply in_map.
Qed.

End RunFacts.

(** ** Sequences of runs *)

Module SequenceFacts.
Import MergeFacts StoreFacts RunFacts.

(** One run: a success leaves at least as many events as it found; a
    failure leaves the file as it was, or not decodable. *)
Lemma run_step env file r file' :
  fetchAndUpdateEvents env file = (r, file') ->
  match r with
  | None => exists n m, persistedCount file = Some n
                        /\ persistedCount file' = Some m /\ n <= m
  | Some _ => file' = file \/ persistedCount file' = None
  end.
Proof.
  unfold fetchAndUpdateEvents.
  assert (forall existing,
           existingOrFail (loadExistingEvents file) = inl existing ->
           persistedCount file = Some (length existing)) as Hcount.
  { intros existing. unfold existingOrFail.
    destruct (loadExistingEvents file) as [l|e] eqn:Hl.
    - intros [= <-]. now apply load_persistedCount.
    - destruct (IsNotExist e) eqn:He; [|discriminate].
      intros [= <-]. now rewrite (load_NotExist _ _ Hl He). }
  destruct (existingOrFail (loadExistingEvents file)) as [existing|e].
  - specialize (Hcount existing eq_refl).
    destruct (hasChanges existing (mergeAll env existing)); simpl.
    + destruct (Nat.ltb_spec
                  (length (assignSequentialCodes (runtime env 2)
                             (mergeAll env existing)))
                  (length existing)) as [Hlt|Hge].
      * intros [= <- <-]. now left.
      * destruct (writing env) eqn:Hw; intros [= <- <-].
        -- exists (length existing), (length (assignSequentialCodes
                     (runtime env 2) (mergeAll env existing))).
           split; [assumption|]. split; [|assumption].
           apply (saved_persistedCount (now env) _ file).
        -- now left.
        -- now right.
    + intros [= <- <-]. exists (length existing), (length existing). auto.
  - intros [= <- <-]. now left.
Qed.

(** A file that does not decode fails every run and stays as it is. *)
Lemma run_stuck env file :
  persistedCount file = None ->
  exists e, fetchAndUpdateEvents env file = (Some (LoadFailed e), file).
Proof.
  intros Hc. unfold fetchAndUpdateEvents, loadExistingEvents.
  destruct file as [| |content mtime]; simpl in *; try discriminate.
  - eexists. reflexivity.
  - destruct (jsonUnmarshalOutputData content); [discriminate|].
    eexists. reflexivity.
Qed.

Lemma runAll_stuck envs : forall file j r,
  persistedCount file = None ->
  runAll envs file !! j = Some r -> fst r <> None.
Proof.
  induction envs as [|env envs IH]; intros file j r Hc Hj;
    [cbn in Hj; discriminate|].
  destruct (run_stuck env file Hc) as [e He].
  cbn [runAll] in Hj. rewrite He in Hj. destruct j as [|j].
  - injection Hj as <-. discriminate.
  - apply (IH file j r Hc Hj).
Qed.

Lemma runAll_from envs : forall file n j fj,
  persistedCount file = Some n ->
  runAll envs file !! j = Some (None, fj) ->
  exists m, persistedCount fj = Some m /\ n <= m.
Proof.
  induction envs as [|env envs IH]; intros file n j fj Hc Hj;
    [cbn in Hj; discriminate|].
  cbn [runAll] in Hj.
  destruct (fetchAndUpdateEvents env file) as [r f1] eqn:Hrun.
  pose proof (run_step _ _ _ _ Hrun) as Hstep.
  destruct j as [|j].
  - injection Hj as -> ->.
    destruct Hstep as (n' & m & H1 & H2 & Hle).
    exists m. split; [assumption|]. congruence.
  - cbn [snd] in Hj. change ((_ :: ?l) !! S j) with (l !! j) in Hj.
    destruct r as [e|].
    + destruct Hstep as [->|Hnone]; [now apply (IH file n j fj)|].
      exfalso. now apply (runAll_stuck envs f1 j _ Hnone Hj).
    + destruct Hstep as (n' & m & H1 & H2 & Hle).
      destruct (IH f1 m j fj H2 Hj) as (m' & Hm' & Hle').
      exists m'. split; [assumption|]. assert (n' = n) by congruence. lia.
Qed.

(** Between two successful runs of a sequence the number of persisted
    events does not go down. *)
Lemma runAll_monotone envs : forall file i j fi fj,
  i < j ->
  runAll envs file !! i = Some (None, fi) ->
  runAll envs file !! j = Some (None, fj) ->
  exists ci cj, persistedCount fi = Some ci
                /\ persistedCount fj = Some cj /\ ci <= cj.
Proof.
  induction envs as [|env envs IH]; intros file i j fi fj Hij Hi Hj;
    [cbn in Hi; discriminate|].
  cbn [runAll] in Hi, Hj.
  destruct (fetchAndUpdateEvents env file) as [r f1] eqn:Hrun.
  cbn [snd] in Hi, Hj.
  destruct j as [|j]; [lia|].
  change ((_ :: ?l) !! S j) with (l !! j) in Hj.
  destruct i as [|i].
  - injection Hi as -> ->.
    destruct (run_step _ _ _ _ Hrun) as (n & ci & _ & Hci & _).
    destruct (runAll_from envs fi ci j fj Hci Hj) as (cj & Hcj & Hle).
    exists ci, cj. auto.
  - change ((_ :: ?l) !! S i) with (l !! i) in Hi.
    apply (IH f1 i j fi fj); [lia|assumption..].
Qed.

End SequenceFacts.

(* ===================================================================== *)
(** * The claims                                                         *)
(* ===================================================================== *)

(** Concrete events and worlds used to exercise the statements. *)
Module Examples.
Import Runtime.

(** A UTC instant given in milliseconds since the Unix epoch. *)
Definition utc (ms : Z) : Time := mkTime (ms * 1000000) 0.

Definition event (code : string) (startMs endMs : Z) (isTest : option bool)
  : Event :=
  mkEvent code (utc endMs) false "" (utc startMs) "" isTest.

(** 2024-01-01, 10:00 to 11:00. *)
Definition tenToEleven : Event := event "1" 1704103200000 1704106800000 None.

(** The same hour under another code and marked as a test. *)
Definition tenToElevenX : Event :=
  event "X" 1704103200000 1704106800000 (Some true).

(** 2024-01-01, 10:00:00.500 to 11:00: another event, within the same
    second. *)
Definition halfPastTheSecond : Event :=
  event "2" 1704103200500 1704106800000 None.

(** 2024-01-01, 12:00 to 13:00. *)
Definition noonToOne : Event := event "" 1704110400000 1704114000000 None.

(** 2024-01-01, 14:00 to 15:00. *)
Definition twoToThree : Event := event "" 1704117600000 1704121200000 None.

(** An event explicitly marked as not a test. *)
Definition notATest : Event :=
  event "1" 1704103200000 1704106800000 (Some false).

(** An event that starts with the year 10000. *)
Definition farFuture : Event :=
  event "1" 253402300800000 253402304400000 None.

(** The hour of [tenToEleven], the same two instants on a clock one
    hour ahead of UTC. *)
Definition tenToElevenPlusOne : Event :=
  mkEvent "1" (mkTime (1704106800000 * 1000000) 3600) false ""
          (mkTime (1704103200000 * 1000000) 3600) "" None.

(** An event whose code is the single byte FF, which is not UTF-8. *)
Definition byteCode : Event :=
  event (String (ascii_of_nat 255) EmptyString)
        1704103200000 1704106800000 None.

(** Both fetchers fail. *)
Definition offline : Env :=
  mkEnv ([], Some QueryFailed) ([], Some TransportFailed) true
        (fun _ => stableRuntime) WriteDone 100.

(** The primary fails, the secondary returns [events]. *)
Definition secondaryOnly (events : list Event) : Env :=
  mkEnv ([], Some QueryFailed) (events, None) false
        (fun _ => stableRuntime) WriteDone 100.

(** The dataset file as [saveEvents] leaves it at time 0. *)
Definition fileOf (events : list Event) : Node :=
  snd (saveEvents WriteDone 0 events Absent).

End Examples.

(** ** The repository's own tests, run on the embedding *)

Module SourceTests.
Import Runtime Examples.

Definition noon : Z := 1704110400000.     (* 2024-01-01T12:00:00Z *)
Definition hour : Z := 3600000.

(** TestConvertToOutputFormat. *)
Example test_convertToOutputFormat :
  convertToOutputFormat [event "1" noon (noon + hour) (Some true)]
  = mkOutputData [mkOutputEvent "2024-01-01T12:00:00.000Z"
                                "2024-01-01T13:00:00.000Z" "1" (Some true)].
Proof. vm_compute. reflexivity. Qed.

(** TestLoadExistingEvents. *)
Example test_loadExistingEvents :
  loadExistingEvents
    (File (Document (JObject [("data", JArray [JObject
       [("start", JString "2024-01-01T12:00:00.000Z");
        ("end", JString "2024-01-01T13:00:00.000Z");
        ("code", JString "1");
        ("is_test", JBool true)]])])) 0)
  = inl [event "1" noon (noon + hour) (Some true)].
Proof. vm_compute. reflexivity. Qed.

(** TestHasChanges. *)
Example test_hasChanges :
  hasChanges [zeroEvent] [zeroEvent; zeroEvent] = true
  /\ hasChanges [event "" noon (noon + hour) None]
                [event "" noon (noon + hour) None] = false
  /\ hasChanges [event "" noon (noon + hour) None]
                [event "" (noon + 2 * hour) (noon + 3 * hour) None] = true.
Proof. repeat split; vm_compute; reflexivity. Qed.

(** TestMergeEvents. *)
Example test_mergeEvents :
  mergeEvents stableRuntime
    [event "" noon (noon + hour) None;
     event "" (noon + 2 * hour) (noon + 3 * hour) None]
    [event "" noon (noon + hour) None]
  = [event "" noon (noon + hour) None;
     event "" (noon + 2 * hour) (noon + 3 * hour) None].
Proof. vm_compute. reflexivity. Qed.

(** TestSaveEvents. *)
Example test_saveEvents :
  loadExistingEvents
    (snd (saveEvents WriteDone 0 [event "1" noon (noon + hour) (Some true)]
                     Absent))
  = inl [event "1" noon (noon + hour) (Some true)].
Proof. vm_compute. reflexivity. Qed.

(** TestGetCachedEvents_NoCache and TestGetCachedEvents_CorruptCache. *)
Example test_getCachedEvents timeUnmarshalJSON :
  getCachedEventsFromDir timeUnmarshalJSON (mkCache None None) = ([], None)
  /\ getCachedEventsFromDir timeUnmarshalJSON (mkCache None (Some NotJson))
     = ([], None).
Proof. split; reflexivity. Qed.

(** TestGetCachedETag_NoCache and TestCacheETag. *)
Example test_cacheETag :
  getCachedETagFromDir (mkCache None None) = ""
  /\ getCachedETagFromDir
       (cacheETagToDir WriteDone (mkCache None None) "test-etag-value")
     = "test-etag-value".
Proof. split; reflexivity. Qed.

(** The merge key has whole seconds and carries the zone: half a second
    apart is one key, the same instant in two zones is two keys. *)
Example mergeKey_resolution :
  mergeKey tenToEleven = "2024-01-01T10:00:00Z_2024-01-01T11:00:00Z"
  /\ mergeKey halfPastTheSecond = mergeKey tenToEleven
  /\ mergeKey (mkEvent "" (mkTime 1704106800000000000 3600) false ""
                       (mkTime 1704103200000000000 3600) "" None)
     = "2024-01-01T11:00:00+01:00_2024-01-01T12:00:00+01:00".
Proof. repeat split; vm_compute; reflexivity. Qed.

End SourceTests.

Module Claims.
Import Runtime MergeFacts StoreFacts LayoutFacts Utf8Facts DecimalFacts
       AssignFacts RunFacts SequenceFacts Examples.

(** C1. A run that loaded [n] events and whose merged, code-assigned
    dataset has fewer than [n] returns the safety error carrying both
    counts and leaves the output file as it was. And in any sequence of
    runs over the file, between two successful runs the number of
    persisted events does not go down. *)
Theorem C1_never_shrinks :
  (forall env file existing,
      loadExistingEvents file = inl existing ->
      length (assignSequentialCodes (runtime env 2)
                                    (mergeAll env existing))
      < length existing ->
      fetchAndUpdateEvents env file
      = (Some (SafetyCheckFailed
                 (length existing)
                 (length (assignSequentialCodes (runtime env 2)
                                                (mergeAll env existing)))),
         file))
  /\ (forall envs file i j fi fj,
         i < j ->
         runAll envs file !! i = Some (None, fi) ->
         runAll envs file !! j = Some (None, fj) ->
         exists ci cj, persistedCount fi = Some ci
                       /\ persistedCount fj = Some cj /\ ci <= cj).
Proof.
  split.
  - intros env file existing Hload Hlt.
    unfold fetchAndUpdateEvents. rewrite Hload. cbn [existingOrFail].
    rewrite assignSequentialCodes_length in Hlt.
    assert (hasChanges existing (mergeAll env existing) = true) as ->.
    { unfold hasChanges.
      destruct (Nat.eqb_spec (length existing)
                             (length (mergeAll env existing))); [lia|].
      reflexivity. }
    cbn [negb]. rewrite assignSequentialCodes_length.
    destruct (Nat.ltb_spec (length (mergeAll env existing))
                           (length existing)); [reflexivity|lia].
  - intros envs. apply runAll_monotone.
Qed.

(** The safety error at work: the file holds two events that share a
    merge key, the secondary returns one of them, the merge keeps one
    event; the run fails with counts 2 and 1 and the file is untouched.
    And in a sequence of two runs that each add an event, the count
    goes from 2 after the first to 3 after the second. *)
Lemma C1_never_shrinks_witness :
  fetchAndUpdateEvents (secondaryOnly [tenToEleven])
                       (fileOf [tenToEleven; halfPastTheSecond])
  = (Some (SafetyCheckFailed 2 1), fileOf [tenToEleven; halfPastTheSecond])
  /\ exists ci cj,
      persistedCount (File (Document (marshalOutputData
        (convertToOutputFormat
           [setCode "1" tenToEleven; setCode "2" noonToOne]))) 100)
      = Some ci
      /\ persistedCount (File (Document (marshalOutputData
        (convertToOutputFormat
           [setCode "1" tenToEleven; setCode "2" noonToOne;
            setCode "3" twoToThree]))) 100)
         = Some cj
      /\ ci <= cj.
Proof.
  split.
  - apply (proj1 C1_never_shrinks (secondaryOnly [tenToEleven])
             (fileOf [tenToEleven; halfPastTheSecond])
             [tenToEleven; halfPastTheSecond]).
    + vm_compute. reflexivity.
    + vm_compute. lia.
  - apply (proj2 C1_never_shrinks
             [secondaryOnly [noonToOne]; secondaryOnly [twoToThree]]
             (fileOf [tenToEleven]) 0 1).
    + lia.
    + vm_compute. reflexivity.
    + vm_compute. reflexivity.
Defined.

(** C2. The code breaks the claim: the key it builds is the RFC3339
    text of the two times, cut to whole seconds, not the (startAt,
    endAt) pair. Two events that differ in [StartAt] by half a second
    are different pairs, yet the merge keeps only one of them: the
    pair of the other, present in the input, is missing from the
    result. *)
Lemma C2_pair_key_counterexample :
  In (StartAt tenToEleven, EndAt tenToEleven)
     (map (fun e => (StartAt e, EndAt e))
          ([tenToEleven] ++ [halfPastTheSecond]))
  /\ ~ In (StartAt tenToEleven, EndAt tenToEleven)
          (map (fun e => (StartAt e, EndAt e))
               (mergeEvents stableRuntime [tenToEleven] [halfPastTheSecond])).
Proof.
  split.
  - left. reflexivity.
  - vm_compute. intros [H|[]]. discriminate H.
Qed.

(** The same defect from the other side: one pair of instants written
    in two zones gives two keys, and the merge keeps both events. *)
Lemma mergeEvents_two_zones :
  Equal (StartAt tenToEleven) (StartAt tenToElevenPlusOne) = true
  /\ Equal (EndAt tenToEleven) (EndAt tenToElevenPlusOne) = true
  /\ length (mergeEvents stableRuntime [tenToEleven] [tenToElevenPlusOne])
     = 2.
Proof. repeat split; vm_compute; reflexivity. Qed.

(** What [mergeEvents] computes is the union of the two lists under
    the key it builds (the two RFC3339 texts, whole seconds, joined by
    an underscore): the keys of the result are those of either input,
    each once; the event kept under a key is the last one carrying it
    in [existing ++ new]; the result is ascending by [StartAt]. *)
Theorem mergeEvents_union_by_mergeKey rt existing new :
  (forall k, In k (map mergeKey (mergeEvents rt existing new))
             <-> In k (map mergeKey existing) \/ In k (map mergeKey new))
  /\ NoDup (map mergeKey (mergeEvents rt existing new))
  /\ (forall e, In e (mergeEvents rt existing new)
                <-> lastWithKey (mergeKey e) (existing ++ new) = Some e)
  /\ (forall k e, lastWithKey k new = Some e ->
                  In e (mergeEvents rt existing new))
  /\ (forall k e, lastWithKey k new = None ->
                  lastWithKey k existing = Some e ->
                  In e (mergeEvents rt existing new))
  /\ StronglySorted (fun a b => Before (StartAt b) (StartAt a) = false)
                    (mergeEvents rt existing new).
Proof.
  assert (forall k, lastWithKey k (existing ++ new)
                    = match lastWithKey k new with
                      | Some x => Some x
                      | None => lastWithKey k existing
                      end) as Happ.
  { intros k. induction existing as [|x l IH]; simpl.
    - now destruct (lastWithKey k new).
    - rewrite IH. now destruct (lastWithKey k new). }
  repeat split.
  - intros H. apply mergeEvents_keys in H.
    now rewrite map_app, in_app_iff in H.
  - intros H. apply mergeEvents_keys.
    now rewrite map_app, in_app_iff.
  - apply mergeEvents_NoDup.
  - now apply mergeEvents_In.
  - now apply mergeEvents_In.
  - intros k e Hn. destruct (lastWithKey_Some _ _ _ Hn) as [<- _].
    apply mergeEvents_In. now rewrite Happ, Hn.
  - intros k e Hn He. destruct (lastWithKey_Some _ _ _ He) as [<- _].
    apply mergeEvents_In. now rewrite Happ, Hn.
  - apply mergeEvents_sorted.
Qed.

(** The dedup example of the specification: the 10:00 entry of the
    result is the copy that came with [new]. *)
Lemma mergeEvents_union_by_mergeKey_example :
  In tenToElevenX (mergeEvents stableRuntime [tenToEleven]
                               [tenToElevenX; noonToOne])
  /\ In noonToOne (mergeEvents stableRuntime [tenToEleven]
                               [tenToElevenX; noonToOne])
  /\ length (mergeEvents stableRuntime [tenToEleven]
                         [tenToElevenX; noonToOne]) = 2.
Proof.
  split; [|split].
  - apply (proj1 (proj2 (proj2 (proj2
             (mergeEvents_union_by_mergeKey stableRuntime [tenToEleven]
                [tenToElevenX; noonToOne]))))
             (mergeKey tenToElevenX)).
    vm_compute. reflexivity.
  - apply (proj1 (proj2 (proj2 (proj2
             (mergeEvents_union_by_mergeKey stableRuntime [tenToEleven]
                [tenToElevenX; noonToOne]))))
             (mergeKey noonToOne)).
    vm_compute. reflexivity.
  - vm_compute. reflexivity.
Defined.

(** C3. When the merged dataset has as many events as the loaded one
    and every merged event's (StartAt, EndAt) pair occurs in the loaded
    one, the run succeeds and the output file, content and modification
    time, is as before; other fields of the events are never looked at.
    (Equal pairs have equal merge keys, and the merge keys are all that
    change detection compares besides the two lengths.) *)
Theorem C3_unchanged_keys_skip_write env file existing :
  existingOrFail (loadExistingEvents file) = inl existing ->
  length (mergeAll env existing) = length existing ->
  (forall e, In e (mergeAll env existing) ->
             In (StartAt e, EndAt e)
                (map (fun x => (StartAt x, EndAt x)) existing)) ->
  fetchAndUpdateEvents env file = (None, file).
Proof.
  intros Hload Hlen Hkeys.
  apply (unchanged_merge_keys_skip_write env file existing Hload Hlen).
  intros e He. apply Hkeys in He.
  apply in_map_iff in He. destruct He as (x & Hx & Hin).
  apply in_map_iff. exists x. split; [|assumption].
  unfold mergeKey. now injection Hx as -> ->.
Qed.

(** The secondary returns the stored hour under another code and with
    the test flag set: the merged event differs from the stored one in
    [Code] and [IsTest], and the file is not written. *)
Lemma C3_unchanged_keys_skip_write_witness :
  mergeAll (secondaryOnly [tenToElevenX]) [tenToEleven] = [tenToElevenX]
  /\ fetchAndUpdateEvents (secondaryOnly [tenToElevenX]) (fileOf [tenToEleven])
     = (None, fileOf [tenToEleven]).
Proof.
  split.
  - vm_compute. reflexivity.
  - apply (C3_unchanged_keys_skip_write (secondaryOnly [tenToElevenX])
             (fileOf [tenToEleven]) [tenToEleven]).
    + vm_compute. reflexivity.
    + vm_compute. reflexivity.
    + vm_compute. intros e [<-|[]]. left. reflexivity.
Defined.

(** C4. [assignSequentialCodes] returns its input arranged ascending by
    [StartAt] (the same events, codes aside) and gives the event at
    position [i], counted from 1, the code [Itoa i], which is the number
    [i] written in decimal digits; the codes the events carried before
    play no role. *)
Theorem C4_assignSequentialCodes rt events :
  length (assignSequentialCodes rt events) = length events
  /\ Permutation (map (setCode "") (assignSequentialCodes rt events))
                 (map (setCode "") events)
  /\ StronglySorted (fun a b => Before (StartAt b) (StartAt a) = false)
                    (assignSequentialCodes rt events)
  /\ map Code (assignSequentialCodes rt events)
     = map (fun i => Itoa (Z.of_nat i)) (seq 1 (length events))
  /\ map (fun e => decimalValue 0 (Code e)) (assignSequentialCodes rt events)
     = map (fun i => Some (Z.of_nat i)) (seq 1 (length events)).
Proof.
  assert (map Code (assignSequentialCodes rt events)
          = map (fun i => Itoa (Z.of_nat i)) (seq 1 (length events))) as Hc.
  { unfold assignSequentialCodes.
    rewrite (assignFrom_codes _ 0).
    now rewrite (Permutation_length (sortSlice_perm rt startsBefore events)). }
  repeat split.
  - apply assignSequentialCodes_length.
  - unfold assignSequentialCodes. rewrite assignFrom_rest.
    apply Permutation_map, sortSlice_perm.
  - apply assignFrom_sorted, (sortSlice_sorted rt startsBefore),
      startsBefore_weak.
  - exact Hc.
  - rewrite <- (map_map Code (decimalValue 0)), Hc, map_map.
    apply map_ext. intros i. apply Itoa_decimal. lia.
Qed.

(** The example of the specification: January 3, 1, 2 come out as
    January 1, 2, 3 with the codes "1", "2", "3". *)
Example C4_three_days :
  map (fun e => (Code e, StartAt e))
      (assignSequentialCodes stableRuntime
         [event "c" 1704240000000 1704243600000 None;
          event "a" 1704067200000 1704070800000 None;
          event "b" 1704153600000 1704157200000 None])
  = [("1", utc 1704067200000); ("2", utc 1704153600000);
     ("3", utc 1704240000000)].
Proof. vm_compute. reflexivity. Qed.

(** C5. The code breaks the claim, by the defect of C2: a dataset of
    two events with different (startAt, endAt) pairs, half a second
    apart, has one merge key; merging it with itself gives one event
    instead of two and [hasChanges] reports a change. *)
Lemma C5_self_merge_counterexample :
  NoDup (map (fun e => (StartAt e, EndAt e))
             [tenToEleven; halfPastTheSecond])
  /\ length (mergeEvents stableRuntime [tenToEleven; halfPastTheSecond]
                         [tenToEleven; halfPastTheSecond]) = 1
  /\ hasChanges [tenToEleven; halfPastTheSecond]
                (mergeEvents stableRuntime [tenToEleven; halfPastTheSecond]
                             [tenToEleven; halfPastTheSecond]) = true.
Proof.
  split; [|split].
  - apply NoDup_cons_2; [|apply NoDup_cons_2; [|apply NoDup_nil_2]].
    + vm_compute. intros H. apply list_elem_of_In in H.
      destruct H as [H|[]]. discriminate H.
    + intros H. apply list_elem_of_In in H. destruct H.
  - vm_compute. reflexivity.
  - vm_compute. reflexivity.
Qed.

(** For a dataset whose events have pairwise distinct merge keys,
    merging it with itself gives a dataset of the same size and the
    same set of merge keys, [hasChanges] reports none, and a run whose
    sources bring only events with known keys leaves the file alone.
    The set of keys is kept for any dataset. *)
Theorem self_merge_idempotent rt d :
  (forall k, In k (map mergeKey (mergeEvents rt d d))
             <-> In k (map mergeKey d))
  /\ (NoDup (map mergeKey d) ->
      length (mergeEvents rt d d) = length d
      /\ hasChanges d (mergeEvents rt d d) = false
      /\ forall env file,
          existingOrFail (loadExistingEvents file) = inl d ->
          (forall e, In e (contributed (davidKendall env))
                     \/ In e (contributed (octopus env)) ->
                     In (mergeKey e) (map mergeKey d)) ->
          fetchAndUpdateEvents env file = (None, file)).
Proof.
  split.
  - intros k. rewrite mergeEvents_keys, map_app, in_app_iff. tauto.
  - intros Hnd.
    destruct (mergeEvents_known rt d d Hnd) as [Hl Hk];
      [intros e He; now apply in_map|].
    split; [exact Hl|]. split.
    + apply hasChanges_false. split; [now symmetry|].
      intros e He. apply Hk. now apply in_map.
    + intros env file Hload Hsub. unfold fetchAndUpdateEvents.
      now rewrite Hload, (mergeAll_known env d Hnd Hsub).
Qed.

Lemma self_merge_idempotent_example :
  length (mergeEvents stableRuntime [tenToEleven; noonToOne]
                      [tenToEleven; noonToOne]) = 2
  /\ hasChanges [tenToEleven; noonToOne]
                (mergeEvents stableRuntime [tenToEleven; noonToOne]
                             [tenToEleven; noonToOne]) = false
  /\ fetchAndUpdateEvents (secondaryOnly [tenToEleven; noonToOne])
                          (fileOf [tenToEleven; noonToOne])
     = (None, fileOf [tenToEleven; noonToOne]).
Proof.
  assert (NoDup (map mergeKey [tenToEleven; noonToOne])) as Hnd.
  { apply NoDup_cons_2; [|apply NoDup_cons_2; [|apply NoDup_nil_2]].
    - vm_compute. intros H. apply list_elem_of_In in H.
      destruct H as [H|[]]. discriminate H.
    - intros H. apply list_elem_of_In in H. destruct H. }
  destruct (proj2 (self_merge_idempotent stableRuntime
                     [tenToEleven; noonToOne]) Hnd) as (H1 & H2 & H3).
  split; [exact H1|]. split; [exact H2|].
  apply H3.
  - vm_compute. reflexivity.
  - intros e [He|He].
    + change (In e [tenToEleven; noonToOne]) in He.
      destruct He as [<-|[<-|[]]].
      * left. reflexivity.
      * right. left. reflexivity.
    + destruct He.
Defined.

(** C6. When exactly one fetcher returns an error, the run is the run
    in which that fetcher returned no events and no error: the same
    returned error, the same output file. With nothing coming from the
    other fetcher either, the run succeeds and leaves the file as it
    was: the failure alone neither fails the run nor touches the
    dataset. *)
Theorem C6_single_failure_isolated env file :
  (forall e, snd (octopus env) = Some e -> snd (davidKendall env) = None ->
      fetchAndUpdateEvents env file
      = fetchAndUpdateEvents (withOctopus env ([], None)) file)
  /\ (forall e, snd (davidKendall env) = Some e -> snd (octopus env) = None ->
      fetchAndUpdateEvents env file
      = fetchAndUpdateEvents (withDavidKendall env ([], None)) file)
  /\ (forall e existing,
      (snd (octopus env) = Some e /\ snd (davidKendall env) = None
       /\ fst (davidKendall env) = [])
      \/ (snd (davidKendall env) = Some e /\ snd (octopus env) = None
          /\ fst (octopus env) = []) ->
      existingOrFail (loadExistingEvents file) = inl existing ->
      fetchAndUpdateEvents env file = (None, file)).
Proof.
  split; [|split].
  - intros e He _. apply run_depends_on_contributed; try reflexivity.
    unfold contributed. now rewrite He.
  - intros e He _. apply run_depends_on_contributed; try reflexivity.
    unfold contributed. now rewrite He.
  - intros e existing Hcase Hload.
    unfold fetchAndUpdateEvents. rewrite Hload, mergeAll_unfold.
    assert (contributed (octopus env) = []
            /\ contributed (davidKendall env) = []) as [-> ->].
    { unfold contributed.
      destruct Hcase as [(-> & -> & ->)|(-> & -> & ->)]; split; reflexivity. }
    cbn [length Nat.ltb Nat.leb]. cbv zeta.
    now rewrite hasChanges_same.
Qed.

(** The isolation example of the specification: the primary fails, the
    secondary returns two events, the file holds one unrelated event;
    the run succeeds and the file then holds three events. With the
    secondary silent as well, the file stays as it is. *)
Lemma C6_single_failure_isolated_witness :
  fetchAndUpdateEvents (secondaryOnly [noonToOne; twoToThree])
                       (fileOf [tenToEleven])
  = (None, File (Document (marshalOutputData (convertToOutputFormat
               [setCode "1" tenToEleven; setCode "2" noonToOne;
                setCode "3" twoToThree]))) 100)
  /\ fetchAndUpdateEvents (secondaryOnly []) (fileOf [tenToEleven])
     = (None, fileOf [tenToEleven]).
Proof.
  split.
  - rewrite (proj1 (C6_single_failure_isolated
                      (secondaryOnly [noonToOne; twoToThree])
                      (fileOf [tenToEleven])) QueryFailed);
      [vm_compute; reflexivity|reflexivity|reflexivity].
  - apply (proj2 (proj2 (C6_single_failure_isolated (secondaryOnly [])
                           (fileOf [tenToEleven])))
             QueryFailed [tenToEleven]).
    + left. repeat split.
    + vm_compute. reflexivity.
Defined.

(** C7. On HTTP 304 [fetchDavidKendallData] returns what
    [getCachedEvents] returns and leaves the cache as it is; and for
    every state of the cache [getCachedEvents] returns a nil error, with
    the decoded events when the cache file decodes and with the empty
    list when the file cannot be read or does not decode. *)
Theorem C7_not_modified_returns_cache
    (timeMarshalJSON : Time -> option json)
    (timeUnmarshalJSON : Time -> json -> option Time)
    (net : Network) (cacheDir : Cache) (etagHeader : string) (body : Bytes) :
  httpGet net (if String.eqb (getCachedETag cacheDir) "" then None
               else Some (getCachedETag cacheDir))
  = HttpResponse 304 etagHeader body ->
  fetchDavidKendallData timeMarshalJSON timeUnmarshalJSON net cacheDir
  = (getCachedEvents timeUnmarshalJSON cacheDir, cacheDir)
  /\ snd (getCachedEvents timeUnmarshalJSON cacheDir) = None
  /\ (eventsFile cacheDir = None ->
      fst (getCachedEvents timeUnmarshalJSON cacheDir) = [])
  /\ (forall data, eventsFile cacheDir = Some data ->
        jsonUnmarshalEvents timeUnmarshalJSON data = None ->
        fst (getCachedEvents timeUnmarshalJSON cacheDir) = [])
  /\ (forall data events, eventsFile cacheDir = Some data ->
        jsonUnmarshalEvents timeUnmarshalJSON data = Some events ->
        fst (getCachedEvents timeUnmarshalJSON cacheDir) = events).
Proof.
  intros Hget. unfold getCachedEvents. repeat split.
  - unfold fetchDavidKendallData. now rewrite Hget.
  - unfold getCachedEventsFromDir.
    destruct (eventsFile cacheDir) as [data|]; [|reflexivity].
    now destruct (jsonUnmarshalEvents timeUnmarshalJSON data).
  - intros H. unfold getCachedEventsFromDir. now rewrite H.
  - intros data H1 H2. unfold getCachedEventsFromDir. now rewrite H1, H2.
  - intros data events H1 H2. unfold getCachedEventsFromDir.
    now rewrite H1, H2.
Qed.

(** A cache that holds one event under an ETag, an upstream that
    answers 304 to the conditional request: the event comes back, the
    cache stays; then a cache file that is not JSON: no event, no
    error. *)
Lemma C7_not_modified_returns_cache_witness :
  fetchDavidKendallData (fun _ => None) (fun cur _ => Some cur)
    (mkNetwork (fun h => match h with
                         | Some _ => HttpResponse 304 "" NotJson
                         | None => HttpError
                         end) WriteDone WriteDone)
    (mkCache (Some "abc")
       (Some (Document (JArray [JObject [("code", JString "7")]]))))
  = (([setCode "7" zeroEvent], None),
     mkCache (Some "abc")
       (Some (Document (JArray [JObject [("code", JString "7")]]))))
  /\ getCachedEvents (fun cur _ => Some cur)
       (mkCache (Some "abc") (Some NotJson)) = ([], None).
Proof.
  split.
  - rewrite (proj1 (C7_not_modified_returns_cache
               (fun _ => None) (fun cur _ => Some cur)
               (mkNetwork (fun h => match h with
                                    | Some _ => HttpResponse 304 "" NotJson
                                    | None => HttpError
                                    end) WriteDone WriteDone)
               (mkCache (Some "abc")
                  (Some (Document (JArray [JObject [("code", JString "7")]]))))
               "" NotJson eq_refl)).
    reflexivity.
  - destruct (C7_not_modified_returns_cache
               (fun _ => None) (fun cur _ => Some cur)
               (mkNetwork (fun _ => HttpResponse 304 "" NotJson)
                          WriteDone WriteDone)
               (mkCache (Some "abc") (Some NotJson))
               "" NotJson eq_refl) as (_ & Herr & _ & Hbad & _).
    rewrite (surjective_pairing (getCachedEvents _ _)).
    rewrite Herr, (Hbad NotJson eq_refl eq_refl). reflexivity.
Defined.

(** C8. The code breaks the claim: an event whose [IsTest] points to
    [false] is written with an explicit [is_test: false]. *)
Lemma C8_explicit_false_counterexample :
  IsTest notATest = Some false
  /\ snd (saveEvents WriteDone 0 [notATest] Absent)
     = File (Document (JObject [("data", JArray [JObject
         [("start", JString "2024-01-01T10:00:00.000Z");
          ("end", JString "2024-01-01T11:00:00.000Z");
          ("code", JString "1");
          ("is_test", JBool false)]])])) 0.
Proof. split; vm_compute; reflexivity. Qed.

(** What [saveEvents] writes: an object with the single member [data],
    an array with one object per event, in order. Each object holds
    [start] and [end], the layout 2006-01-02T15:04:05.000Z applied to
    [StartAt] and [EndAt], then [code], the code coerced to valid
    UTF-8, and then [is_test] exactly when [IsTest] is not nil, with
    the value it points to. *)
Lemma saveEvents_document now events file :
  exists items,
    saveEvents WriteDone now events file
    = (true, File (Document (JObject [("data", JArray items)])) now)
    /\ Forall2 rendered events items.
Proof.
  exists (map marshalOutputEvent (map toOutputEvent events)).
  split; [reflexivity|].
  induction events as [|e events IH]; [constructor|].
  cbn [map]. constructor; [|exact IH].
  unfold rendered, marshalOutputEvent, toOutputEvent.
  cbn [Start End_ oCode oIsTest]. rewrite !coerce_formatMillisZ.
  eexists. split; [reflexivity|].
  destruct (IsTest e); repeat split.
Qed.

(** C9, as stated, fails twice. An event in UTC, on a whole hour, whose
    year is 10000 is written with a five-digit year, which the layout
    does not read back: the load of the file just written fails. And
    an event whose code is not valid UTF-8 (the single byte FF) is
    written with U+FFFD in its place: the load succeeds, with another
    code. *)
Lemma C9_save_then_load_counterexample :
  (zoneOffset (StartAt farFuture) = 0%Z
   /\ zoneOffset (EndAt farFuture) = 0%Z
   /\ (unixNano (StartAt farFuture) mod 1000000 = 0)%Z
   /\ (unixNano (EndAt farFuture) mod 1000000 = 0)%Z
   /\ formatMillisZ (StartAt farFuture) = "10000-01-01T00:00:00.000Z"
   /\ loadExistingEvents (snd (saveEvents WriteDone 0 [farFuture] Absent))
      = inr StartTimeFailed)
  /\ (zoneOffset (StartAt byteCode) = 0%Z
      /\ zoneOffset (EndAt byteCode) = 0%Z
      /\ (unixNano (StartAt byteCode) mod 1000000 = 0)%Z
      /\ (unixNano (EndAt byteCode) mod 1000000 = 0)%Z
      /\ Year (StartAt byteCode) = 2024%Z
      /\ Year (EndAt byteCode) = 2024%Z
      /\ loadExistingEvents (snd (saveEvents WriteDone 0 [byteCode] Absent))
         = inl [setCode (replacementChar EmptyString) byteCode]
      /\ Code byteCode <> replacementChar EmptyString).
Proof.
  split.
  - repeat split; vm_compute; reflexivity.
  - repeat split; try (vm_compute; reflexivity).
    vm_compute. discriminate.
Qed.

(** C9, amended. For events whose [StartAt] and [EndAt] are UTC instants
    of whole milliseconds in the years 0000 to 9999, loading the file
    that [saveEvents] has just written succeeds and returns events with
    the same [StartAt], [EndAt] and [IsTest], in the same order, and
    with the code coerced to valid UTF-8: the same [Code] whenever the
    code is valid UTF-8. *)
Theorem C9_save_then_load now events file :
  Forall (fun e => layoutExact (StartAt e) /\ layoutExact (EndAt e)) events ->
  exists loaded,
    loadExistingEvents (snd (saveEvents WriteDone now events file))
    = inl loaded
    /\ map persistedFields loaded
       = map (fun e => (StartAt e, EndAt e, coerceToUTF8 (Code e), IsTest e))
             events
    /\ (Forall (fun e => ValidString (Code e) = true) events ->
        map persistedFields loaded = map persistedFields events).
Proof.
  intros Hexact.
  destruct (toEvents_convert
              (map (fun e => setCode (coerceToUTF8 (Code e)) e) events))
    as (loaded & Hl & Heq).
  { apply Forall_map. exact Hexact. }
  rewrite map_map in Heq. exists loaded. split; [|split].
  - unfold saveEvents, WriteFile, loadExistingEvents.
    cbn [snd ReadFile jsonUnmarshalOutputData].
    rewrite unmarshal_saved. exact Hl.
  - exact Heq.
  - intros Hvalid. rewrite Heq. apply map_ext_Forall.
    apply (Forall_impl _ _ _ Hvalid). intros e He. unfold persistedFields.
    cbn [setCode StartAt EndAt Code IsTest]. now rewrite (coerce_valid _ He).
Qed.

Lemma C9_save_then_load_witness :
  exists loaded,
    loadExistingEvents
      (snd (saveEvents WriteDone 5 [tenToElevenX; halfPastTheSecond; notATest]
                       Absent))
    = inl loaded
    /\ map persistedFields loaded
       = map (fun e => (StartAt e, EndAt e, coerceToUTF8 (Code e), IsTest e))
             [tenToElevenX; halfPastTheSecond; notATest]
    /\ (Forall (fun e => ValidString (Code e) = true)
               [tenToElevenX; halfPastTheSecond; notATest] ->
        map persistedFields loaded
        = map persistedFields [tenToElevenX; halfPastTheSecond; notATest]).
Proof.
  apply (C9_save_then_load 5 [tenToElevenX; halfPastTheSecond; notATest]
           Absent).
  repeat constructor; try (vm_compute; intros H; discriminate H).
Defined.

(** C10. When the events of the loaded dataset have pairwise distinct
    merge keys, the merged dataset and the final, code-assigned one
    have at least as many events, and the run does not return the
    safety error. So the count can only drop when two events of the
    loaded dataset share a merge key. *)
Theorem C10_distinct_keys_never_shrink env file existing :
  existingOrFail (loadExistingEvents file) = inl existing ->
  (NoDup (map mergeKey existing) ->
   length existing <= length (mergeAll env existing)
   /\ length existing
      <= length (assignSequentialCodes (runtime env 2)
                                       (mergeAll env existing))
   /\ forall n m,
       fst (fetchAndUpdateEvents env file) <> Some (SafetyCheckFailed n m))
  /\ (length (assignSequentialCodes (runtime env 2) (mergeAll env existing))
      < length existing ->
      ~ NoDup (map mergeKey existing)).
Proof.
  intros Hload.
  assert (NoDup (map mergeKey existing) ->
          length existing <= length (assignSequentialCodes (runtime env 2)
                                       (mergeAll env existing))) as Hge.
  { intros Hnd. rewrite assignSequentialCodes_length.
    now apply mergeAll_length_ge. }
  split.
  - intros Hnd. split; [now apply mergeAll_length_ge|].
    split; [now apply Hge|].
    intros n m. unfold fetchAndUpdateEvents. rewrite Hload.
    destruct (hasChanges existing (mergeAll env existing));
      [|discriminate].
    cbn [negb].
    destruct (Nat.ltb_spec
                (length (assignSequentialCodes (runtime env 2)
                           (mergeAll env existing)))
                (length existing)) as [Hlt|_].
    + specialize (Hge Hnd). lia.
    + now destruct (saveEvents (writing env) (now env) _ file) as [[|] ?].
  - intros Hlt Hnd. specialize (Hge Hnd). lia.
Qed.

Lemma C10_distinct_keys_never_shrink_witness :
  length [tenToEleven; noonToOne]
  <= length (mergeAll (secondaryOnly [tenToElevenX; twoToThree])
                      [tenToEleven; noonToOne])
  /\ fst (fetchAndUpdateEvents (secondaryOnly [tenToElevenX; twoToThree])
                               (fileOf [tenToEleven; noonToOne]))
     <> Some (SafetyCheckFailed 2 1).
Proof.
  assert (NoDup (map mergeKey [tenToEleven; noonToOne])) as Hnd.
  { apply NoDup_cons_2; [|apply NoDup_cons_2; [|apply NoDup_nil_2]].
    - vm_compute. intros H. apply list_elem_of_In in H.
      destruct H as [H|[]]. discriminate H.
    - intros H. apply list_elem_of_In in H. destruct H. }
  destruct (proj1 (C10_distinct_keys_never_shrink
                     (secondaryOnly [tenToElevenX; twoToThree])
                     (fileOf [tenToEleven; noonToOne])
                     [tenToEleven; noonToOne]
                     ltac:(vm_compute; reflexivity)) Hnd) as (H1 & _ & H3).
  split; [exact H1|apply H3].
Defined.

End Claims.

(* ===================================================================== *)
(** * Further code: configuration, version, the primary fetcher          *)
(* ===================================================================== *)

(** ** Configuration: flags, configuration file, environment *)

Module Settings.

Record Config : Type := mkConfig {
  AccountNumber : string;
  MeterPointID : string;
  APIKey : string;
  OutputFile : string }.

(** The command line after [flag.Parse]: the value of each flag
    variable, [None] when the flag was not given. *)
Record CommandLine : Type := mkCommandLine {
  argConfig : option string;
  argAccount : option string;
  argMeter : option string;
  argKey : option string;
  argOutput : option string;
  argVersion : bool }.

(** The flag variables, with the defaults of their declarations. *)
Definition configFile (cl : CommandLine) : string :=
  default "" (argConfig cl).
Definition accountNumber (cl : CommandLine) : string :=
  default "" (argAccount cl).
Definition meterPointID (cl : CommandLine) : string :=
  default "" (argMeter cl).
Definition apiKey (cl : CommandLine) : string := default "" (argKey cl).
Definition outputFile (cl : CommandLine) : string :=
  default "free_electricity.json" (argOutput cl).
Definition version (cl : CommandLine) : bool := argVersion cl.

(** [os.Getenv]: the empty string for a variable that is not set. *)
Definition Getenv (environ : gmap string string) (key : string) : string :=
  default "" (environ !! key).

Definition getEnvOrDefault (environ : gmap string string)
    (key defaultValue : string) : string :=
  let value := Getenv environ key in
  if negb (String.eqb value "") then value else defaultValue.

(** A YAML document, by the fields of [Config] it sets; [yaml.Unmarshal]
    assigns these and leaves the others as they are. *)
Record YamlDoc : Type := mkYamlDoc {
  yAccountNumber : option string;
  yMeterPointID : option string;
  yApiKey : option string;
  yOutputFile : option string }.

(** What is found under the name of a configuration file. *)
Inductive ConfigFile : Type :=
| CannotRead
| NotYaml
| Yaml (doc : YamlDoc).

Definition yamlUnmarshal (doc : YamlDoc) (config : Config) : Config :=
  mkConfig (default (AccountNumber config) (yAccountNumber doc))
           (default (MeterPointID config) (yMeterPointID doc))
           (default (APIKey config) (yApiKey doc))
           (default (OutputFile config) (yOutputFile doc)).

(** [loadConfigFromFile]; [None] is the error it returns. *)
Definition loadConfigFromFile (file : ConfigFile) (config : Config)
  : option Config :=
  match file with
  | CannotRead => None
  | NotYaml => None
  | Yaml doc => Some (yamlUnmarshal doc config)
  end.

Inductive configError : Type :=
| ConfigFileFailed
| APIKeyRequired
| AccountNumberRequired
| MeterPointIDRequired.

(** How [loadConfig] ends: the process exits with status 0 after
    printing the version, or the function returns. *)
Inductive Loading : Type :=
| ExitsZero
| Fails (e : configError)
| Returns (config : Config).

Definition loadConfig (cl : CommandLine) (environ : gmap string string)
    (files : string -> ConfigFile) : Loading :=
  if version cl then ExitsZero
  else
    let config := mkConfig "" "" "" (outputFile cl) in
    match (if negb (String.eqb (configFile cl) "")
           then loadConfigFromFile (files (configFile cl)) config
           else Some config) with
    | None => Fails ConfigFileFailed
    | Some config =>
        let config :=
          if negb (String.eqb (accountNumber cl) "") then
            mkConfig (accountNumber cl) (MeterPointID config) (APIKey config)
                     (OutputFile config)
          else if String.eqb (AccountNumber config) "" then
            mkConfig (getEnvOrDefault environ "ACCOUNT_NUMBER" "")
                     (MeterPointID config) (APIKey config) (OutputFile config)
          else config in
        let config :=
          if negb (String.eqb (meterPointID cl) "") then
            mkConfig (AccountNumber config) (meterPointID cl) (APIKey config)
                     (OutputFile config)
          else if String.eqb (MeterPointID config) "" then
            mkConfig (AccountNumber config)
                     (getEnvOrDefault environ "METER_POINT_ID" "")
                     (APIKey config) (OutputFile config)
          else config in
        let config :=
          if negb (String.eqb (apiKey cl) "") then
            mkConfig (AccountNumber config) (MeterPointID config) (apiKey cl)
                     (OutputFile config)
          else if String.eqb (APIKey config) "" then
            mkConfig (AccountNumber config) (MeterPointID config)
                     (Getenv environ "OCTOPUS_API_KEY") (OutputFile config)
          else config in
        if String.eqb (APIKey config) "" then Fails APIKeyRequired
        else if String.eqb (AccountNumber config) "" then
          Fails AccountNumberRequired
        else if String.eqb (MeterPointID config) "" then
          Fails MeterPointIDRequired
        else Returns config
    end.

End Settings.

(** ** The version and the user agent *)

Module Version.

(** The first seven bytes of a commit hash, the hash itself when it is
    shorter ([value[:7]]). *)
Definition short (value : string) : string :=
  if (7 <=? String.length value)%nat then String.substring 0 7 value
  else value.

(** The loop over [buildInfo.Settings]. *)
Fixpoint revisionOf (settings : list (string * string)) : option string :=
  match settings with
  | [] => None
  | (key, value) :: rest =>
      if String.eqb key "vcs.revision" && negb (String.eqb value "")
      then Some (short value)
      else revisionOf rest
  end.

(** [GetVersion], given the two link-time variables and what
    [debug.ReadBuildInfo] returns ([None] when it has nothing). *)
Definition GetVersion (buildVersion buildCommit : string)
    (buildInfo : option (list (string * string))) : string :=
  if negb (String.eqb buildVersion "dev") && negb (String.eqb buildVersion "")
  then buildVersion
  else
    match (match buildInfo with
           | Some settings => revisionOf settings
           | None => None
           end) with
    | Some v => v
    | None =>
        if negb (String.eqb buildCommit "unknown")
           && negb (String.eqb buildCommit "")
        then short buildCommit
        else "dev"
    end.

Definition GetUserAgent (buildVersion buildCommit : string)
    (buildInfo : option (list (string * string))) : string :=
  "matthewgall/octoevents/" +:+ GetVersion buildVersion buildCommit buildInfo.

End Version.

(** ** The authenticated client and the primary fetcher *)

Module Client.

Record TokenResponse : Type := mkTokenResponse {
  Token : string;
  RefreshToken : string;
  RefreshExpiresIn : Z }.

(** [AuthenticatedClient], without the mutex and the transport. *)
Record AuthenticatedClient : Type := mkClient {
  apiKey : string;
  graphqlURL : string;
  token : string;
  tokenExpiry : Time;
  refreshToken : string }.

Definition NewAuthenticatedClient (apiKey graphqlURL : string)
  : AuthenticatedClient :=
  mkClient apiKey graphqlURL "" zeroTime "".

(** A 64-bit signed integer after an overflow. *)
Definition wrap64 (x : Z) : Z :=
  ((x + 9223372036854775808) mod 18446744073709551616
   - 9223372036854775808)%Z.

(** [t.Add(d)], [d] in nanoseconds. *)
Definition Add (t : Time) (d : Z) : Time :=
  mkTime (unixNano t + d) (zoneOffset t).

Definition fiveMinutes : Z := 300000000000.

(** The test both branches of [ensureValidToken] make, at clock
    reading [now]. *)
Definition hasValidToken (c : AuthenticatedClient) (now : Time) : bool :=
  negb (String.eqb (token c) "")
  && Before (Add now fiveMinutes) (tokenExpiry c).

(** What is sent upstream. *)
Inductive Request (Q : Type) : Type :=
| ObtainToken (url : string) (key : string)
| Query (url : string) (authorization : string) (query : Q).
Arguments ObtainToken {Q} url key.
Arguments Query {Q} url authorization query.

(** [obtainToken]: the reply to the mutation ([None] when the call
    fails) and the clock reading taken after it. *)
Definition obtainToken (c : AuthenticatedClient)
    (reply : option TokenResponse) (now : Time)
  : bool * AuthenticatedClient :=
  match reply with
  | None => (false, c)
  | Some response =>
      (true,
       mkClient (apiKey c) (graphqlURL c) (Token response)
                (Add now (wrap64 (RefreshExpiresIn response * 1000000000)))
                (RefreshToken response))
  end.

(** The clock readings and the token reply one call can consume. *)
Record Exchange : Type := mkExchange {
  firstNow : Time;
  secondNow : Time;
  tokenReply : option TokenResponse;
  replyNow : Time }.

(** [ensureValidToken]: whether it returned nil, the client afterwards,
    and whether the token mutation was sent. *)
Definition ensureValidToken (c : AuthenticatedClient) (x : Exchange)
  : bool * AuthenticatedClient * bool :=
  if hasValidToken c (firstNow x) then (true, c, false)
  else if hasValidToken c (secondNow x) then (true, c, false)
  else
    let '(ok, c') := obtainToken c (tokenReply x) (replyNow x) in
    (ok, c', true).

Inductive runError : Type :=
| TokenFailed
| RequestFailed.

(** [Run]: the result, the client afterwards, and the requests sent in
    order; [reply] is what the upstream answers to the query. *)
Definition Run {Q R : Type} (c : AuthenticatedClient) (x : Exchange)
    (query : Q) (reply : option R)
  : (R + runError) * AuthenticatedClient * list (Request Q) :=
  let '(ok, c', asked) := ensureValidToken c x in
  let sent := if asked then [ObtainToken (graphqlURL c) (apiKey c)] else [] in
  if ok then
    (match reply with
     | Some r => inl r
     | None => inr RequestFailed
     end,
     c', sent ++ [Query (graphqlURL c') (token c') query])
  else (inr TokenFailed, c', sent).

End Client.

Module Primary.

Record EventEdge : Type := mkEventEdge { Cursor : string; Node : Event }.

Record PageInfo : Type := mkPageInfo {
  EndCursor : string;
  HasNextPage : bool;
  HasPreviousPage : bool;
  StartCursor : string }.

Record EventConnection : Type := mkEventConnection {
  Edges : list EventEdge;
  Page : PageInfo;
  TotalCount : Z;
  EdgeCount : Z }.

Record GraphQLResponse : Type := mkGraphQLResponse {
  IsEnrolledInCustomerFlexibilityCampaign : bool;
  CustomerFlexibilityCampaignEvents : EventConnection }.

(** The variables of the events query and its page size. *)
Record EventsQuery : Type := mkEventsQuery {
  accountNumber : string;
  meterPointId : string;
  campaignSlug : string;
  first : Z }.

Definition graphqlEndpoint : string :=
  "https://api.octopus.energy/v1/graphql/".

(** [fetchOctopusEvents]: what it returns and the requests it sent. *)
Definition fetchOctopusEvents (config : Settings.Config)
    (x : Client.Exchange) (reply : option GraphQLResponse)
  : FetchReturn * list (Client.Request EventsQuery) :=
  let client :=
    Client.NewAuthenticatedClient (Settings.APIKey config) graphqlEndpoint in
  let req := mkEventsQuery (Settings.AccountNumber config)
                           (Settings.MeterPointID config)
                           "free_electricity" 20 in
  let '(result, _, sent) := Client.Run client x req reply in
  match result with
  | inr _ => (([], Some QueryFailed), sent)
  | inl response =>
      ((map Node (Edges (CustomerFlexibilityCampaignEvents response)), None),
       sent)
  end.

End Primary.

(** ** The run with its fetchers *)

Section Online.

Variable timeMarshalJSON : Time -> option json.
Variable timeUnmarshalJSON : Time -> json -> option Time.

(** What surrounds one run of the program. *)
Record Surroundings : Type := mkSurroundings {
  config : Settings.Config;
  exchange : Client.Exchange;
  eventsReply : option Primary.GraphQLResponse;
  network : Network;
  primaryFirst : bool;
  choices : nat -> GoRuntime;
  outputWrite : WriteOutcome;
  clock : Z }.

(** The file under [config.OutputFile] and the cache directory. *)
Record Disk : Type := mkDisk { output : Node; cache : Cache }.

(** [fetchAndUpdateEvents] with the two fetchers it launches: they run
    only once the dataset is loaded. Returns the error, the disk
    afterwards and the requests sent to the primary upstream. *)
Definition fetchAndUpdateEventsOnline (s : Surroundings) (d : Disk)
  : option runError * Disk * list (Client.Request Primary.EventsQuery) :=
  match existingOrFail (loadExistingEvents (output d)) with
  | inr e => (Some (LoadFailed e), d, [])
  | inl _ =>
      let '(octopusReturn, sent) :=
        Primary.fetchOctopusEvents (config s) (exchange s) (eventsReply s) in
      let '(davidReturn, cache') :=
        fetchDavidKendallData timeMarshalJSON timeUnmarshalJSON
                              (network s) (cache d) in
      let '(result, output') :=
        fetchAndUpdateEvents
          (mkEnv octopusReturn davidReturn (primaryFirst s) (choices s)
                 (outputWrite s) (clock s))
          (output d) in
      (result, mkDisk output' cache', sent)
  end.

End Online.

(** ** Notions for the configuration *)

(** The first of three values that is not empty; the third when the
    first two are. *)
Definition firstNonEmpty (a b c : string) : string :=
  if negb (String.eqb a "") then a
  else if negb (String.eqb b "") then b
  else c.

(** The document of the configuration file the command line names: the
    one that sets nothing when no file is named, none when the file
    cannot be read or is not YAML. *)
Definition configDoc (cl : Settings.CommandLine)
    (files : string -> Settings.ConfigFile) : option Settings.YamlDoc :=
  if String.eqb (Settings.configFile cl) ""
  then Some (Settings.mkYamlDoc None None None None)
  else match files (Settings.configFile cl) with
       | Settings.Yaml doc => Some doc
       | _ => None
       end.

(** The configuration [loadConfig] settles on, given the document. *)
Definition resolved (cl : Settings.CommandLine)
    (environ : gmap string string) (doc : Settings.YamlDoc)
  : Settings.Config :=
  Settings.mkConfig
    (firstNonEmpty (Settings.accountNumber cl)
       (default "" (Settings.yAccountNumber doc))
       (Settings.Getenv environ "ACCOUNT_NUMBER"))
    (firstNonEmpty (Settings.meterPointID cl)
       (default "" (Settings.yMeterPointID doc))
       (Settings.Getenv environ "METER_POINT_ID"))
    (firstNonEmpty (Settings.apiKey cl)
       (default "" (Settings.yApiKey doc))
       (Settings.Getenv environ "OCTOPUS_API_KEY"))
    (default (Settings.outputFile cl) (Settings.yOutputFile doc)).

(* ===================================================================== *)
(** * Further properties of the code                                     *)
(* ===================================================================== *)

(** ** What the layout parser returns *)

Module ParseFacts.
Import CalendarFacts LayoutFacts StoreFacts.
Local Open Scope Z_scope.

Definition yearLength (y : Z) : Z := if isLeap y then 366 else 365.

Definition dayOfYear (y m d : Z) : Z :=
  daysBefore m + (if (3 <=? m) && isLeap y then 1 else 0) + (d - 1).

Lemma month_cases m :
  1 <= m <= 12 ->
  m = 1 \/ m = 2 \/ m = 3 \/ m = 4 \/ m = 5 \/ m = 6 \/ m = 7
  \/ m = 8 \/ m = 9 \/ m = 10 \/ m = 11 \/ m = 12.
Proof. lia. Qed.

Lemma dayOfYear_bounds y m d :
  1 <= m <= 12 -> 1 <= d <= daysIn m y ->
  0 <= dayOfYear y m d < yearLength y.
Proof.
  intros Hm. unfold dayOfYear, yearLength, daysIn.
  destruct (month_cases m Hm) as
    [->|[->|[->|[->|[->|[->|[->|[->|[->|[->|[->| ->]]]]]]]]]]];
    destruct (isLeap y); simpl; lia.
Qed.

Lemma dayOfYear_inj y m d m' d' :
  1 <= m <= 12 -> 1 <= d <= daysIn m y ->
  1 <= m' <= 12 -> 1 <= d' <= daysIn m' y ->
  dayOfYear y m d = dayOfYear y m' d' -> m = m' /\ d = d'.
Proof.
  intros Hm Hd Hm' Hd'. unfold dayOfYear, daysIn in *.
  destruct (month_cases m Hm) as
    [->|[->|[->|[->|[->|[->|[->|[->|[->|[->|[->| ->]]]]]]]]]]];
    destruct (month_cases m' Hm') as
    [->|[->|[->|[->|[->|[->|[->|[->|[->|[->|[->| ->]]]]]]]]]]];
    destruct (isLeap y); simpl in *; lia.
Qed.

Lemma isLeap_spec y :
  isLeap y = true
  <-> y mod 4 = 0 /\ (y mod 100 <> 0 \/ y mod 400 = 0).
Proof.
  unfold isLeap.
  rewrite andb_true_iff, orb_true_iff, negb_true_iff, !Z.eqb_eq, Z.eqb_neq.
  tauto.
Qed.

Lemma daysSinceYearOne_succ y :
  daysSinceYearOne (y + 1) = daysSinceYearOne y + yearLength y.
Proof.
  unfold daysSinceYearOne, yearLength.
  replace (y + 1 - 1) with y by ring.
  pose proof (isLeap_spec y) as Hl.
  destruct (isLeap y).
  - destruct Hl as [Hl _]. specialize (Hl eq_refl).
    Z.to_euclidean_division_equations; lia.
  - assert (~ (y mod 4 = 0 /\ (y mod 100 <> 0 \/ y mod 400 = 0))) as Hn
      by (intros H; apply Hl in H; discriminate).
    Z.to_euclidean_division_equations; lia.
Qed.

Lemma daysSinceYearOne_mono y y' :
  y <= y' -> daysSinceYearOne y <= daysSinceYearOne y'.
Proof.
  intros H. replace y' with (y + Z.of_nat (Z.to_nat (y' - y))) by lia.
  induction (Z.to_nat (y' - y)) as [|n IH]; [now rewrite Z.add_0_r|].
  rewrite Nat2Z.inj_succ.
  replace (y + Z.succ (Z.of_nat n)) with (y + Z.of_nat n + 1) by lia.
  rewrite daysSinceYearOne_succ. unfold yearLength.
  destruct (isLeap _); lia.
Qed.

Lemma civilToDays_split y m d :
  civilToDays y m d = daysSinceYearOne y + dayOfYear y m d - unixEpochDay.
Proof. unfold civilToDays, dayOfYear. ring. Qed.

(** Two valid dates with the same day number are the same date. *)
Lemma civilToDays_inj y m d y' m' d' :
  1 <= m <= 12 -> 1 <= d <= daysIn m y ->
  1 <= m' <= 12 -> 1 <= d' <= daysIn m' y' ->
  civilToDays y m d = civilToDays y' m' d' ->
  y = y' /\ m = m' /\ d = d'.
Proof.
  intros Hm Hd Hm' Hd'. rewrite !civilToDays_split. intros Heq.
  pose proof (dayOfYear_bounds y m d Hm Hd) as Hb.
  pose proof (dayOfYear_bounds y' m' d' Hm' Hd') as Hb'.
  assert (y = y') as <-.
  { destruct (Z.lt_trichotomy y y') as [Hlt|[?|Hgt]]; [|assumption|].
    - pose proof (daysSinceYearOne_mono (y + 1) y' ltac:(lia)) as Hmono.
      rewrite daysSinceYearOne_succ in Hmono. lia.
    - pose proof (daysSinceYearOne_mono (y' + 1) y ltac:(lia)) as Hmono.
      rewrite daysSinceYearOne_succ in Hmono. lia. }
  split; [reflexivity|].
  apply (dayOfYear_inj y); try assumption. lia.
Qed.

(** [daysToCivil] leads back from the day number of a valid date. *)
Lemma daysToCivil_civilToDays y m d :
  1 <= m <= 12 -> 1 <= d <= daysIn m y ->
  daysToCivil (civilToDays y m d) = (y, m, d).
Proof.
  intros Hm Hd.
  pose proof (daysToCivil_valid (civilToDays y m d)) as Hv.
  destruct (daysToCivil (civilToDays y m d)) as [[y' m'] d'].
  destruct Hv as (Hm' & Hd' & Heq).
  destruct (civilToDays_inj _ _ _ _ _ _ Hm' Hd' Hm Hd Heq) as (-> & -> & ->).
  reflexivity.
Qed.

(** The wall clock of a time built by [Date] from valid fields shows
    these fields. *)
Lemma wallClock_Date y m d hh mi ss ns :
  1 <= m <= 12 -> 1 <= d <= daysIn m y ->
  0 <= hh < 24 -> 0 <= mi < 60 -> 0 <= ss < 60 -> 0 <= ns < 1000000000 ->
  wallClock (Date y m d hh mi ss ns) = mkClock y m d hh mi ss ns.
Proof.
  intros Hm Hd Hh Hmi Hs Hn. unfold wallClock, Date.
  cbn [unixNano zoneOffset].
  set (days := civilToDays y m d).
  set (secs := ((days * 24 + hh) * 60 + mi) * 60 + ss).
  replace (secs * 1000000000 + ns + 0 * 1000000000)
    with (secs * 1000000000 + ns) by ring.
  assert ((secs * 1000000000 + ns) / 1000000000 = secs) as ->.
  { symmetry. apply (Z.div_unique _ 1000000000 secs ns); lia. }
  assert ((secs * 1000000000 + ns) mod 1000000000 = ns) as ->.
  { symmetry. apply (Z.mod_unique _ 1000000000 secs ns); lia. }
  set (sod := (hh * 60 + mi) * 60 + ss).
  assert (secs = 86400 * days + sod) as Hsecs by (subst secs sod; ring).
  assert (0 <= sod < 86400) as Hsod by (subst sod; lia).
  assert (secs / 86400 = days) as ->.
  { symmetry. apply (Z.div_unique _ 86400 days sod); lia. }
  assert (secs mod 86400 = sod) as ->.
  { symmetry. apply (Z.mod_unique _ 86400 days sod); lia. }
  subst days. rewrite (daysToCivil_civilToDays y m d Hm Hd).
  assert (sod / 3600 = hh) as ->.
  { symmetry. apply (Z.div_unique _ 3600 hh (mi * 60 + ss));
      subst sod; lia. }
  assert (sod mod 3600 = mi * 60 + ss) as ->.
  { symmetry. apply (Z.mod_unique _ 3600 hh (mi * 60 + ss));
      subst sod; lia. }
  assert ((mi * 60 + ss) / 60 = mi) as ->.
  { symmetry. apply (Z.div_unique _ 60 mi ss); lia. }
  assert (sod mod 60 = ss) as ->.
  { symmetry. apply (Z.mod_unique _ 60 (hh * 60 + mi) ss); subst sod; lia. }
  reflexivity.
Qed.

Lemma isDigit_digitVal c : isDigit c = true -> 0 <= digitVal c <= 9.
Proof.
  unfold isDigit, digitVal. rewrite andb_true_iff.
  intros [H1 H2]. apply Nat.leb_le in H1, H2. lia.
Qed.

Lemma getYear_range s y rest :
  getYear s = Some (y, rest) -> 0 <= y <= 9999.
Proof.
  unfold getYear. destruct s as [|a [|b [|c [|d r]]]]; try discriminate.
  destruct (isDigit a) eqn:Ha; [|discriminate].
  destruct (isDigit b) eqn:Hb; [|discriminate].
  destruct (isDigit c) eqn:Hc; [|discriminate].
  destruct (isDigit d) eqn:Hd; [|discriminate].
  cbn [andb]. intros [= <- _].
  apply isDigit_digitVal in Ha, Hb, Hc, Hd. lia.
Qed.

Lemma getnum_range s fixed n rest :
  getnum s fixed = Some (n, rest) -> 0 <= n <= 99.
Proof.
  unfold getnum. destruct s as [|a r]; [discriminate|].
  destruct (isDigit a) eqn:Ha; [|discriminate].
  apply isDigit_digitVal in Ha.
  destruct r as [|b r'].
  - destruct fixed; [discriminate|]. intros [= <- _]. lia.
  - destruct (isDigit b) eqn:Hb.
    + apply isDigit_digitVal in Hb. intros [= <- _]. lia.
    + destruct fixed; [discriminate|]. intros [= <- _]. lia.
Qed.

Lemma getMillis_range s ms rest :
  getMillis s = Some (ms, rest) -> 0 <= ms <= 999.
Proof.
  unfold getMillis. destruct s as [|p [|a [|b [|c r]]]]; try discriminate.
  destruct (Ascii.eqb p "." || Ascii.eqb p ","); [|discriminate].
  destruct (isDigit b) eqn:Hb; [|
    destruct (isDigit a); cbn [andb]; rewrite ?andb_false_r; cbn [andb];
    discriminate].
  destruct (isDigit c) eqn:Hc; [|
    destruct (isDigit a); cbn [andb]; rewrite ?andb_false_r; cbn [andb];
    discriminate].
  apply isDigit_digitVal in Hb, Hc.
  destruct (isDigit a) eqn:Ha; cbn [andb].
  - apply isDigit_digitVal in Ha. intros [= <- _]. lia.
  - rewrite !andb_true_r.
    destruct (Ascii.eqb a "+"); [intros [= <- _]; lia|].
    destruct (Ascii.eqb a "-"); [|discriminate].
    destruct (digitVal b * 10 + digitVal c =? 0); [|discriminate].
    intros [= <- _]. lia.
Qed.

(** A successful parse is a call of [Date] on fields within range. *)
Lemma parseMillisZ_fields s t :
  parseMillisZ s = Some t ->
  exists y m d hh mi ss ms,
    t = Date y m d hh mi ss (ms * 1000000)
    /\ 0 <= y <= 9999 /\ 1 <= m <= 12 /\ 1 <= d <= daysIn m y
    /\ 0 <= hh < 24 /\ 0 <= mi < 60 /\ 0 <= ss < 60 /\ 0 <= ms <= 999.
Proof.
  unfold parseMillisZ.
  destruct (getYear s) as [[y v]|] eqn:Hy; [|discriminate]. cbn.
  destruct (skipChar "-" v) as [v1|]; [|discriminate]. cbn.
  destruct (getnum v1 true) as [[m v2]|] eqn:Hm; [|discriminate]. cbn.
  destruct ((m <=? 0) || (12 <? m)) eqn:Hmr; [discriminate|].
  destruct (skipChar "-" v2) as [v3|]; [|discriminate]. cbn.
  destruct (getnum v3 true) as [[d v4]|] eqn:Hd; [|discriminate]. cbn.
  destruct (skipChar "T" v4) as [v5|]; [|discriminate]. cbn.
  destruct (getnum v5 false) as [[hh v6]|] eqn:Hh; [|discriminate]. cbn.
  destruct (24 <=? hh) eqn:Hhr; [discriminate|].
  destruct (skipChar ":" v6) as [v7|]; [|discriminate]. cbn.
  destruct (getnum v7 true) as [[mi v8]|] eqn:Hmi; [|discriminate]. cbn.
  destruct (60 <=? mi) eqn:Hmir; [discriminate|].
  destruct (skipChar ":" v8) as [v9|]; [|discriminate]. cbn.
  destruct (getnum v9 true) as [[ss v10]|] eqn:Hs; [|discriminate]. cbn.
  destruct (60 <=? ss) eqn:Hsr; [discriminate|].
  destruct (getMillis v10) as [[ms v11]|] eqn:Hms; [|discriminate]. cbn.
  destruct (skipChar "Z" v11) as [v12|]; [|discriminate]. cbn.
  destruct v12; [|discriminate].
  destruct ((d <? 1) || (daysIn m y <? d)) eqn:Hdr; [discriminate|].
  intros [= <-].
  apply getYear_range in Hy. apply getnum_range in Hm, Hd, Hh, Hmi, Hs.
  apply getMillis_range in Hms.
  exists y, m, d, hh, mi, ss, ms. repeat split; try lia.
Qed.

(** Every time the parser returns is in UTC, has whole milliseconds
    and a year of four digits. *)
Lemma parseMillisZ_exact s t : parseMillisZ s = Some t -> layoutExact t.
Proof.
  intros H.
  destruct (parseMillisZ_fields s t H)
    as (y & m & d & hh & mi & ss & ms & -> & Hy & Hm & Hd & Hh & Hmi & Hs & Hms).
  unfold layoutExact, Year.
  rewrite wallClock_Date by lia.
  cbn [cYear]. split; [reflexivity|]. split; [|lia].
  unfold Date. cbn [unixNano].
  replace ((((civilToDays y m d * 24 + hh) * 60 + mi) * 60 + ss) * 1000000000
           + ms * 1000000)
    with (((((civilToDays y m d * 24 + hh) * 60 + mi) * 60 + ss) * 1000 + ms)
          * 1000000) by ring.
  apply Z_mod_mult.
Qed.

End ParseFacts.

(** ** More on merging, loading and the run *)

Module MoreFacts.
Import Runtime MergeFacts StoreFacts LayoutFacts Utf8Facts DecimalFacts
       AssignFacts RunFacts SequenceFacts ParseFacts.

(** Both timestamps of an event are exact for the layout. *)
Definition exactTimes (e : Event) : Prop :=
  layoutExact (StartAt e) /\ layoutExact (EndAt e).

(** An event as the dataset file keeps it. *)
Definition stored (e : Event) : Event :=
  mkEvent (coerceToUTF8 (Code e)) (EndAt e) false "" (StartAt e) ""
          (IsTest e).

(** A dataset file the run can go on from: missing, or loading to
    events with pairwise distinct merge keys. *)
Definition wellKept (file : Node) : Prop :=
  file = Absent
  \/ exists events, loadExistingEvents file = inl events
                    /\ NoDup (map mergeKey events).

Lemma lastWithKey_app k l1 l2 :
  lastWithKey k (l1 ++ l2)
  = match lastWithKey k l2 with
    | Some x => Some x
    | None => lastWithKey k l1
    end.
Proof.
  induction l1 as [|x l IH]; simpl.
  - now destruct (lastWithKey k l2).
  - rewrite IH. now destruct (lastWithKey k l2).
Qed.

Lemma lastWithKey_merged rt a b k :
  lastWithKey k (mergeEvents rt a b) = lastWithKey k (a ++ b).
Proof.
  destruct (lastWithKey k (mergeEvents rt a b)) as [e|] eqn:Hl.
  - destruct (lastWithKey_Some _ _ _ Hl) as [<- Hin].
    symmetry. now apply mergeEvents_In in Hin.
  - apply lastWithKey_None in Hl. symmetry. apply lastWithKey_None.
    intros Hin. apply Hl. now apply mergeEvents_keys.
Qed.

Lemma NoDup_of_keys (l : list Event) : NoDup (map mergeKey l) -> NoDup l.
Proof. apply (NoDup_fmap_1 mergeKey). Qed.

Lemma mergeKey_setCode c e : mergeKey (setCode c e) = mergeKey e.
Proof. reflexivity. Qed.

Lemma assignFrom_keys l : forall i,
  map mergeKey (assignFrom i l) = map mergeKey l.
Proof.
  induction l as [|e l IH]; intros i; [reflexivity|].
  cbn [assignFrom map]. now rewrite IH.
Qed.

Lemma assign_keys rt l :
  Permutation (map mergeKey (assignSequentialCodes rt l)) (map mergeKey l).
Proof.
  unfold assignSequentialCodes. rewrite assignFrom_keys.
  apply Permutation_map, sortSlice_perm.
Qed.

Lemma assign_exact rt l :
  Forall exactTimes l -> Forall exactTimes (assignSequentialCodes rt l).
Proof.
  intros H. unfold assignSequentialCodes.
  assert (Forall exactTimes (sortSlice rt startsBefore l)) as Hs.
  { rewrite Forall_forall in *. intros e He. apply H.
    apply list_elem_of_In. apply list_elem_of_In in He.
    now rewrite (sortSlice_perm rt startsBefore l) in He. }
  revert Hs. generalize (sortSlice rt startsBefore l) 0%Z.
  intros s. induction s as [|e s IH]; intros i Hs; [constructor|].
  inversion Hs; subst. cbn [assignFrom]. constructor; [assumption|].
  now apply IH.
Qed.

Lemma mergeEvents_subset rt a b e :
  In e (mergeEvents rt a b) -> In e a \/ In e b.
Proof.
  intros H. apply mergeEvents_In in H.
  destruct (lastWithKey_Some _ _ _ H) as [_ Hin].
  now apply in_app_iff in Hin.
Qed.

Lemma mergeAll_subset env existing e :
  In e (mergeAll env existing) ->
  In e existing \/ In e (contributed (davidKendall env))
  \/ In e (contributed (octopus env)).
Proof.
  rewrite mergeAll_unfold. cbv zeta.
  destruct (0 <? length (contributed (davidKendall env)))%nat;
    destruct (0 <? length (contributed (octopus env)))%nat; intros H.
  - apply mergeEvents_subset in H. destruct H as [H|H]; [|tauto].
    apply mergeEvents_subset in H. tauto.
  - apply mergeEvents_subset in H. tauto.
  - apply mergeEvents_subset in H. tauto.
  - tauto.
Qed.

Lemma empty_of_length (l : list Event) :
  (0 <? length l)%nat = false -> l = [].
Proof. destruct l; [reflexivity|discriminate]. Qed.

Lemma mergeAll_keys env existing k :
  In k (map mergeKey (mergeAll env existing))
  <-> In k (map mergeKey existing)
      \/ In k (map mergeKey (contributed (davidKendall env)))
      \/ In k (map mergeKey (contributed (octopus env))).
Proof.
  rewrite mergeAll_unfold. cbv zeta.
  destruct (0 <? length (contributed (davidKendall env)))%nat eqn:Hd;
    destruct (0 <? length (contributed (octopus env)))%nat eqn:Ho;
    rewrite ?(empty_of_length _ Hd), ?(empty_of_length _ Ho);
    rewrite ?mergeEvents_keys, ?map_app, ?in_app_iff, ?mergeEvents_keys,
      ?map_app, ?in_app_iff; simpl; tauto.
Qed.

Lemma mergeAll_NoDup env existing :
  NoDup (map mergeKey existing) ->
  NoDup (map mergeKey (mergeAll env existing)).
Proof.
  intros H. rewrite mergeAll_unfold. cbv zeta.
  destruct (0 <? length (contributed (davidKendall env)))%nat;
    destruct (0 <? length (contributed (octopus env)))%nat;
    try apply mergeEvents_NoDup; assumption.
Qed.

(** A change can only be detected after a merge, and a merge leaves
    pairwise distinct keys. *)
Lemma changed_NoDup env existing :
  hasChanges existing (mergeAll env existing) = true ->
  NoDup (map mergeKey (mergeAll env existing)).
Proof.
  rewrite mergeAll_unfold. cbv zeta.
  destruct (0 <? length (contributed (davidKendall env)))%nat;
    destruct (0 <? length (contributed (octopus env)))%nat;
    try (intros _; apply mergeEvents_NoDup).
  now rewrite hasChanges_same.
Qed.

Lemma toEvents_exact data events :
  Forall validText data ->
  toEvents data = inl events ->
  Forall exactTimes events /\ map stored events = events.
Proof.
  intros Hv. revert events.
  induction Hv as [|o data (_ & _ & Hc) _ IH]; intros events H.
  - injection H as <-. split; [constructor|reflexivity].
  - simpl in H.
    destruct (parseMillisZ (Start o)) as [s|] eqn:Hs; [|discriminate].
    destruct (parseMillisZ (End_ o)) as [e|] eqn:He; [|discriminate].
    destruct (toEvents data) as [evs|]; [|discriminate].
    injection H as <-. destruct (IH evs eq_refl) as [Hex Hst]. split.
    + constructor; [|assumption].
      split; [apply (parseMillisZ_exact _ _ Hs)|apply (parseMillisZ_exact _ _ He)].
    + cbn [map]. rewrite Hst. unfold stored.
      cbn [Code EndAt StartAt IsTest]. rewrite (coerce_valid _ Hc).
      reflexivity.
Qed.

Lemma load_exact file events :
  loadExistingEvents file = inl events ->
  Forall exactTimes events /\ map stored events = events.
Proof.
  unfold loadExistingEvents.
  destruct (ReadFile file) as [data|]; [|discriminate].
  destruct (jsonUnmarshalOutputData data) as [d|] eqn:Hd; [|discriminate].
  apply toEvents_exact, (jsonUnmarshalOutputData_valid _ _ Hd).
Qed.

Lemma existing_exact file existing :
  existingOrFail (loadExistingEvents file) = inl existing ->
  Forall exactTimes existing.
Proof.
  unfold existingOrFail.
  destruct (loadExistingEvents file) as [l|e] eqn:Hl.
  - intros [= <-]. apply (load_exact _ _ Hl).
  - destruct (negb (IsNotExist e)); [discriminate|].
    intros [= <-]. constructor.
Qed.

(** Events with exact times are read back as they were stored. *)
Lemma toEvents_convert_stored events :
  Forall exactTimes events ->
  toEvents (Data (convertToOutputFormat
                    (map (fun e => setCode (coerceToUTF8 (Code e)) e) events)))
  = inl (map stored events).
Proof.
  induction 1 as [|e events [Hs He] _ IH]; [reflexivity|].
  cbn [convertToOutputFormat Data map toEvents toOutputEvent Start End_
       oCode oIsTest setCode StartAt EndAt Code IsTest] in *.
  now rewrite (parse_format_exact _ Hs), (parse_format_exact _ He), IH.
Qed.

Lemma load_saved now events file :
  Forall exactTimes events ->
  loadExistingEvents (snd (saveEvents WriteDone now events file))
  = inl (map stored events).
Proof.
  intros H. unfold saveEvents, WriteFile, loadExistingEvents.
  cbn [snd ReadFile jsonUnmarshalOutputData].
  rewrite unmarshal_saved. now apply toEvents_convert_stored.
Qed.

Lemma stored_keys l : map mergeKey (map stored l) = map mergeKey l.
Proof. rewrite map_map. reflexivity. Qed.

Lemma mergeAll_exact env existing :
  Forall exactTimes existing ->
  Forall exactTimes (contributed (davidKendall env)) ->
  Forall exactTimes (contributed (octopus env)) ->
  Forall exactTimes (mergeAll env existing).
Proof.
  rewrite !Forall_forall. intros He Hd Ho e Hin.
  apply list_elem_of_In, mergeAll_subset in Hin.
  destruct Hin as [H|[H|H]]; apply list_elem_of_In in H; auto.
Qed.

(** What a run does once the dataset is loaded, case by case. *)
Lemma run_cases env file existing :
  existingOrFail (loadExistingEvents file) = inl existing ->
  let final := assignSequentialCodes (runtime env 2) (mergeAll env existing) in
  (hasChanges existing (mergeAll env existing) = false
   /\ fetchAndUpdateEvents env file = (None, file))
  \/ (hasChanges existing (mergeAll env existing) = true
      /\ length final < length existing
      /\ fetchAndUpdateEvents env file
         = (Some (SafetyCheckFailed (length existing) (length final)), file))
  \/ (hasChanges existing (mergeAll env existing) = true
      /\ length existing <= length final
      /\ fetchAndUpdateEvents env file
         = (if fst (saveEvents (writing env) (now env) final file)
            then None else Some SaveFailed,
            snd (saveEvents (writing env) (now env) final file))).
Proof.
  intros Hload final. unfold fetchAndUpdateEvents. rewrite Hload.
  destruct (hasChanges existing (mergeAll env existing)); [|now left].
  right. cbn [negb]. fold final.
  destruct (Nat.ltb_spec (length final) (length existing)) as [Hlt|Hge].
  - left. auto.
  - right. split; [reflexivity|]. split; [assumption|].
    now destruct (saveEvents (writing env) (now env) final file) as [[|] ?].
Qed.

Lemma same_keys_same_length (l l' : list Event) :
  NoDup (map mergeKey l) -> NoDup (map mergeKey l') ->
  (forall k, In k (map mergeKey l) <-> In k (map mergeKey l')) ->
  length l = length l'.
Proof.
  intros H H' Hk.
  rewrite <- (length_map mergeKey l), <- (length_map mergeKey l').
  apply Permutation_length, NoDup_Permutation; try assumption.
  intros k. rewrite !list_elem_of_In. apply Hk.
Qed.

(** The length of the merged dataset does not depend on the runtime's
    choices. *)
Lemma mergeAll_length_indep env env' existing :
  contributed (octopus env') = contributed (octopus env) ->
  contributed (davidKendall env') = contributed (davidKendall env) ->
  length (mergeAll env' existing) = length (mergeAll env existing).
Proof.
  intros Ho Hd.
  assert (forall k, In k (map mergeKey (mergeAll env' existing))
                    <-> In k (map mergeKey (mergeAll env existing))) as Hk.
  { intros k. rewrite !mergeAll_keys, Ho, Hd. tauto. }
  revert Hk. rewrite !mergeAll_unfold, Ho, Hd. cbv zeta.
  destruct (0 <? length (contributed (davidKendall env)))%nat;
    destruct (0 <? length (contributed (octopus env)))%nat; intros Hk;
    try reflexivity;
    apply same_keys_same_length; try apply mergeEvents_NoDup; exact Hk.
Qed.

(** The file a successful write leaves loads to the stored form of the
    final dataset. *)
Lemma final_exact env file existing :
  existingOrFail (loadExistingEvents file) = inl existing ->
  Forall exactTimes (contributed (davidKendall env)) ->
  Forall exactTimes (contributed (octopus env)) ->
  Forall exactTimes
    (assignSequentialCodes (runtime env 2) (mergeAll env existing)).
Proof.
  intros Hload Hd Ho. apply assign_exact, mergeAll_exact; try assumption.
  apply (existing_exact _ _ Hload).
Qed.

Lemma run_success_loaded env file file' :
  fetchAndUpdateEvents env file = (None, file') ->
  exists existing, existingOrFail (loadExistingEvents file) = inl existing.
Proof.
  unfold fetchAndUpdateEvents.
  destruct (existingOrFail (loadExistingEvents file)) as [existing|e];
    [eauto|discriminate].
Qed.

Lemma save_success how now events file :
  fst (saveEvents how now events file) = true -> how = WriteDone.
Proof. destruct how; [reflexivity|discriminate..]. Qed.

(** *** The secondary fetcher and its cache *)

Lemma toEventsSkipping_exact data : Forall exactTimes (toEventsSkipping data).
Proof.
  induction data as [|o data IH]; [constructor|]. simpl.
  destruct (parseMillisZ (Start o)) as [s|] eqn:Hs; [|exact IH].
  destruct (parseMillisZ (End_ o)) as [e|] eqn:He; [|exact IH].
  constructor; [|exact IH].
  split; [apply (parseMillisZ_exact _ _ Hs)|apply (parseMillisZ_exact _ _ He)].
Qed.

Lemma toEventsSkipping_length data :
  length (toEventsSkipping data) <= length data.
Proof.
  induction data as [|o data IH]; [reflexivity|]. simpl.
  destruct (parseMillisZ (Start o)); [|lia].
  destruct (parseMillisZ (End_ o)); simpl; lia.
Qed.

Lemma toEventsSkipping_app a b :
  toEventsSkipping (a ++ b) = toEventsSkipping a ++ toEventsSkipping b.
Proof.
  induction a as [|o a IH]; [reflexivity|]. simpl.
  destruct (parseMillisZ (Start o)); [|exact IH].
  destruct (parseMillisZ (End_ o)); [|exact IH].
  simpl. now rewrite IH.
Qed.

Lemma toEventsSkipping_all data events :
  toEvents data = inl events -> toEventsSkipping data = events.
Proof.
  revert events. induction data as [|o data IH]; intros events H.
  - now injection H as <-.
  - simpl in *.
    destruct (parseMillisZ (Start o)); [|discriminate].
    destruct (parseMillisZ (End_ o)); [|discriminate].
    destruct (toEvents data) as [evs|]; [|discriminate].
    injection H as <-. now rewrite (IH evs eq_refl).
Qed.

(** [time.Time]'s JSON codec gives [t] back. *)
Definition codecRoundTrips (timeMarshalJSON : Time -> option json)
    (timeUnmarshalJSON : Time -> json -> option Time) (t : Time) : Prop :=
  exists j, timeMarshalJSON t = Some j
            /\ forall cur, timeUnmarshalJSON cur j = Some t.

Lemma decodeEventMember_code tu cur s :
  decodeEventMember tu cur ("code", JString s)
  = Some (mkEvent (coerceToUTF8 s) (EndAt cur) (IsEventParticipant cur)
                  (Name cur) (StartAt cur) (Typename cur) (IsTest cur)).
Proof. reflexivity. Qed.

Lemma decodeEventMember_endAt tu cur j :
  decodeEventMember tu cur ("endAt", j)
  = (t ← tu (EndAt cur) j;
     Some (mkEvent (Code cur) t (IsEventParticipant cur) (Name cur)
                   (StartAt cur) (Typename cur) (IsTest cur))).
Proof. reflexivity. Qed.

Lemma decodeEventMember_isEventParticipant tu cur b :
  decodeEventMember tu cur ("isEventParticipant", JBool b)
  = Some (mkEvent (Code cur) (EndAt cur) b (Name cur) (StartAt cur)
                  (Typename cur) (IsTest cur)).
Proof. reflexivity. Qed.

Lemma decodeEventMember_name tu cur s :
  decodeEventMember tu cur ("name", JString s)
  = Some (mkEvent (Code cur) (EndAt cur) (IsEventParticipant cur)
                  (coerceToUTF8 s) (StartAt cur) (Typename cur) (IsTest cur)).
Proof. reflexivity. Qed.

Lemma decodeEventMember_startAt tu cur j :
  decodeEventMember tu cur ("startAt", j)
  = (t ← tu (StartAt cur) j;
     Some (mkEvent (Code cur) (EndAt cur) (IsEventParticipant cur) (Name cur)
                   t (Typename cur) (IsTest cur))).
Proof. reflexivity. Qed.

Lemma decodeEventMember_typename tu cur s :
  decodeEventMember tu cur ("__typename", JString s)
  = Some (mkEvent (Code cur) (EndAt cur) (IsEventParticipant cur) (Name cur)
                  (StartAt cur) (coerceToUTF8 s) (IsTest cur)).
Proof. reflexivity. Qed.

Lemma decodeEventMember_isTest tu cur b :
  decodeEventMember tu cur ("isTest", JBool b)
  = Some (mkEvent (Code cur) (EndAt cur) (IsEventParticipant cur) (Name cur)
                  (StartAt cur) (Typename cur) (Some b)).
Proof. reflexivity. Qed.

(** What [json.Marshal] writes for an event decodes to the event with
    its strings coerced to valid UTF-8. *)
Lemma decodeEvent_marshalEvent tm tu e :
  codecRoundTrips tm tu (StartAt e) -> codecRoundTrips tm tu (EndAt e) ->
  exists j, marshalEvent tm e = Some j
            /\ decodeEvent tu j = Some (coercedEvent e).
Proof.
  intros (js & Hms & Hus) (je & Hme & Hue).
  unfold marshalEvent. rewrite Hme, Hms. cbn [mbind option_bind].
  eexists. split; [reflexivity|].
  unfold coercedEvent.
  destruct e as [c ea p n sa ty [b|]]; cbn [Code EndAt IsEventParticipant
    Name StartAt Typename IsTest] in *;
    cbn [decodeEvent app decodeMembers];
    rewrite decodeEventMember_code; cbn [mbind option_bind];
    rewrite decodeEventMember_endAt, Hue; cbn [mbind option_bind];
    rewrite decodeEventMember_isEventParticipant; cbn [mbind option_bind];
    rewrite decodeEventMember_name; cbn [mbind option_bind];
    rewrite decodeEventMember_startAt, Hus; cbn [mbind option_bind];
    rewrite decodeEventMember_typename; cbn [mbind option_bind];
    rewrite ?decodeEventMember_isTest; cbn [mbind option_bind];
    cbn [Code EndAt IsEventParticipant Name StartAt Typename IsTest
         zeroEvent];
    rewrite !coerce_idem; reflexivity.
Qed.

Lemma decodeEvents_marshalEventList tm tu events :
  Forall (fun e => codecRoundTrips tm tu (StartAt e)
                   /\ codecRoundTrips tm tu (EndAt e)) events ->
  exists js, marshalEventList tm events = Some js
             /\ decodeEvents tu js = Some (map coercedEvent events).
Proof.
  induction 1 as [|e events [Hs He] _ (js & Hm & Hd)].
  - exists []. split; reflexivity.
  - destruct (decodeEvent_marshalEvent tm tu e Hs He) as (j & Hj & Hdj).
    exists (j :: js). cbn [marshalEventList decodeEvents map].
    rewrite Hj, Hm, Hdj, Hd. split; reflexivity.
Qed.

Lemma coercedEvent_valid e : validStrings e -> coercedEvent e = e.
Proof.
  intros (Hc & Hn & Ht). destruct e as [c ea p n sa ty t].
  unfold coercedEvent. cbn [Code EndAt IsEventParticipant Name StartAt
    Typename IsTest] in *.
  now rewrite (coerce_valid _ Hc), (coerce_valid _ Hn), (coerce_valid _ Ht).
Qed.

Lemma map_coercedEvent_valid events :
  Forall validStrings events -> map coercedEvent events = events.
Proof.
  induction 1 as [|e events He _ IH]; [reflexivity|].
  cbn [map]. now rewrite (coercedEvent_valid _ He), IH.
Qed.

(** The events the secondary fetcher builds from a decoded body hold
    valid UTF-8 only. *)
Lemma toEventsSkipping_validStrings data :
  Forall validText data -> Forall validStrings (toEventsSkipping data).
Proof.
  induction 1 as [|o data (_ & _ & Hc) _ IH]; [constructor|].
  cbn [toEventsSkipping].
  destruct (parseMillisZ (Start o)); [|exact IH].
  destruct (parseMillisZ (End_ o)); [|exact IH].
  constructor; [|exact IH]. repeat split. exact Hc.
Qed.

End MoreFacts.

Module Extras.
Import Runtime MergeFacts StoreFacts LayoutFacts Utf8Facts DecimalFacts
       AssignFacts RunFacts SequenceFacts ParseFacts MoreFacts Examples.

(** X1. [hasChanges] answers [true] exactly when the two lists differ
    in length or some event of [new] has a merge key that no event of
    [existing] has. An event of [existing] whose key is gone from [new]
    does not count when the lengths agree. *)
Theorem X1_hasChanges_iff existing new :
  hasChanges existing new = true
  <-> length existing <> length new
      \/ exists e, In e new /\ ~ In (mergeKey e) (map mergeKey existing).
Proof.
  unfold hasChanges.
  destruct (Nat.eqb_spec (length existing) (length new)) as [Hl|Hl];
    cbn [negb]; [|tauto].
  split.
  - intros H. right. induction new as [|x new IH] in H |- *;
      [discriminate|].
    cbn [anyMissing] in H.
    pose proof (marked_iff existing (mergeKey x)) as Hm.
    destruct (default false (foldl markKey ∅ existing !! mergeKey x)).
    + destruct (IH H) as (e & He & Hk). exists e. split; [now right|exact Hk].
    + exists x. split; [now left|]. intros Hin. apply Hm in Hin. discriminate.
  - intros [?|(e & He & Hk)]; [contradiction|].
    destruct (anyMissing (foldl markKey ∅ existing) new) eqn:Ha;
      [reflexivity|].
    exfalso. apply Hk. now apply (proj1 (anyMissing_false existing new) Ha).
Qed.


(** X3. Merging the same new events a second time changes nothing: the
    result holds the same events and [hasChanges] sees no change. *)
Theorem X3_mergeEvents_again rt rt' a b :
  Permutation (mergeEvents rt' (mergeEvents rt a b) b) (mergeEvents rt a b)
  /\ hasChanges (mergeEvents rt a b)
                (mergeEvents rt' (mergeEvents rt a b) b) = false.
Proof.
  assert (Permutation (mergeEvents rt' (mergeEvents rt a b) b)
                      (mergeEvents rt a b)) as Hp.
  { apply NoDup_Permutation.
    - apply NoDup_of_keys, mergeEvents_NoDup.
    - apply NoDup_of_keys, mergeEvents_NoDup.
    - intros e. rewrite !list_elem_of_In, !mergeEvents_In.
      rewrite (lastWithKey_app _ (mergeEvents rt a b) b).
      rewrite lastWithKey_merged, (lastWithKey_app _ a b).
      now destruct (lastWithKey (mergeKey e) b). }
  split; [exact Hp|].
  apply hasChanges_false. split.
  - symmetry. now apply Permutation_length.
  - intros e He. apply in_map.
    apply list_elem_of_In. apply list_elem_of_In in He.
    now rewrite Hp in He.
Qed.

(** X4. The codes [assignSequentialCodes] hands out are pairwise
    distinct. *)
Theorem X4_codes_distinct rt events :
  NoDup (map Code (assignSequentialCodes rt events)).
Proof.
  unfold assignSequentialCodes. rewrite (assignFrom_codes _ 0).
  apply NoDup_fmap_2_strong; [|apply NoDup_seq].
  intros i j _ _ Heq.
  assert (Some (Z.of_nat i) = Some (Z.of_nat j)) as Hs.
  { rewrite <- (Itoa_decimal (Z.of_nat i)), <- (Itoa_decimal (Z.of_nat j))
      by lia. now rewrite Heq. }
  injection Hs. lia.
Qed.

(** X5. What [loadExistingEvents] returns can be written back and
    loaded again unchanged: every loaded timestamp is a UTC instant of
    whole milliseconds in the years 0000 to 9999, and [saveEvents]
    followed by [loadExistingEvents] gives exactly the loaded list. *)
Theorem X5_load_save_load file events :
  loadExistingEvents file = inl events ->
  Forall exactTimes events
  /\ forall now file',
      loadExistingEvents (snd (saveEvents WriteDone now events file'))
      = inl events.
Proof.
  intros Hload. destruct (load_exact _ _ Hload) as [Hex Hst].
  split; [exact Hex|]. intros now file'.
  now rewrite (load_saved now events file' Hex), Hst.
Qed.

Lemma X5_load_save_load_witness :
  loadExistingEvents
    (snd (saveEvents WriteDone 7 [tenToElevenX; halfPastTheSecond] Unreadable))
  = inl [tenToElevenX; halfPastTheSecond].
Proof.
  apply (proj2 (X5_load_save_load
                  (fileOf [tenToElevenX; halfPastTheSecond])
                  [tenToElevenX; halfPastTheSecond]
                  ltac:(vm_compute; reflexivity))).
Defined.

(** X6. A dataset file that is there but does not load (unreadable, not
    JSON, of the wrong shape, or with one timestamp that does not
    parse) is fatal: the run returns the load error and leaves the file
    alone, whatever the sources return. Only a missing file counts as
    an empty dataset. *)
Theorem X6_unloadable_file_is_fatal env file e :
  loadExistingEvents file = inr e ->
  file <> Absent ->
  fetchAndUpdateEvents env file = (Some (LoadFailed e), file).
Proof.
  intros Hload Hfile. unfold fetchAndUpdateEvents. rewrite Hload.
  cbn [existingOrFail].
  destruct (IsNotExist e) eqn:He; [|reflexivity].
  now apply (load_NotExist _ _ Hload) in He.
Qed.

Lemma X6_unloadable_file_is_fatal_witness :
  fetchAndUpdateEvents (secondaryOnly [noonToOne])
    (File (Document (JObject [("data", JArray [JObject
       [("start", JString "2024-01-01T10:00:00.000Z");
        ("end", JString "2024-01-01 11:00:00");
        ("code", JString "1")]])])) 0)
  = (Some (LoadFailed EndTimeFailed),
     File (Document (JObject [("data", JArray [JObject
       [("start", JString "2024-01-01T10:00:00.000Z");
        ("end", JString "2024-01-01 11:00:00");
        ("code", JString "1")]])])) 0).
Proof.
  apply X6_unloadable_file_is_fatal.
  - vm_compute. reflexivity.
  - discriminate.
Defined.

(** X7. When neither source contributes an event the run never writes:
    the output file is as before, and the run succeeds unless the load
    itself failed. In particular, with no dataset file and nothing
    fetched, no file is created. *)
Theorem X7_nothing_fetched_nothing_written env file :
  contributed (octopus env) = [] ->
  contributed (davidKendall env) = [] ->
  snd (fetchAndUpdateEvents env file) = file
  /\ (fst (fetchAndUpdateEvents env file) = None
      \/ exists e, loadExistingEvents file = inr e
                   /\ fst (fetchAndUpdateEvents env file)
                      = Some (LoadFailed e))
  /\ (file = Absent -> fetchAndUpdateEvents env file = (None, Absent)).
Proof.
  intros Ho Hd.
  assert (forall existing,
             existingOrFail (loadExistingEvents file) = inl existing ->
             fetchAndUpdateEvents env file = (None, file)) as Hok.
  { intros existing Hload. unfold fetchAndUpdateEvents.
    rewrite Hload, mergeAll_unfold, Ho, Hd. cbn [length Nat.ltb Nat.leb].
    cbv zeta. now rewrite hasChanges_same. }
  split; [|split].
  - destruct (existingOrFail (loadExistingEvents file)) as [existing|e] eqn:Hl.
    + now rewrite (Hok existing eq_refl).
    + unfold fetchAndUpdateEvents. now rewrite Hl.
  - destruct (existingOrFail (loadExistingEvents file)) as [existing|e] eqn:Hl.
    + left. now rewrite (Hok existing eq_refl).
    + right. unfold existingOrFail in Hl.
      destruct (loadExistingEvents file) as [l|e'] eqn:Hload;
        [discriminate|].
      destruct (IsNotExist e') eqn:He; cbn [negb] in Hl; [discriminate|].
      exists e'. split; [reflexivity|].
      unfold fetchAndUpdateEvents. rewrite Hload. cbn [existingOrFail].
      now rewrite He.
  - intros ->. now apply (Hok []).
Qed.

Lemma X7_nothing_fetched_nothing_written_witness :
  fetchAndUpdateEvents offline Absent = (None, Absent).
Proof.
  apply (proj2 (proj2 (X7_nothing_fetched_nothing_written offline Absent
                         eq_refl eq_refl))).
  reflexivity.
Defined.

(** X8. Whenever a successful run has changed the output file, the new
    file is the marshalled final dataset stamped with the time of the
    run; the final dataset has pairwise distinct merge keys, at least
    as many events as were loaded, and its keys are exactly those of
    the loaded dataset together with those the two sources
    contributed: no key of the loaded dataset is dropped. *)
Theorem X8_written_dataset env file existing file' :
  existingOrFail (loadExistingEvents file) = inl existing ->
  fetchAndUpdateEvents env file = (None, file') ->
  file' <> file ->
  file' = File (Document (marshalOutputData (convertToOutputFormat
            (assignSequentialCodes (runtime env 2) (mergeAll env existing)))))
            (now env)
  /\ NoDup (map mergeKey
              (assignSequentialCodes (runtime env 2) (mergeAll env existing)))
  /\ length existing
     <= length (assignSequentialCodes (runtime env 2) (mergeAll env existing))
  /\ forall k,
      In k (map mergeKey
              (assignSequentialCodes (runtime env 2) (mergeAll env existing)))
      <-> In k (map mergeKey existing)
          \/ In k (map mergeKey (contributed (davidKendall env)))
          \/ In k (map mergeKey (contributed (octopus env))).
Proof.
  intros Hload Hrun Hneq.
  destruct (run_cases env file existing Hload)
    as [[_ H]|[(_ & _ & H)|(Hch & Hlen & H)]];
    rewrite H in Hrun.
  - injection Hrun as <-. contradiction.
  - discriminate.
  - destruct (fst (saveEvents (writing env) (now env) _ file)) eqn:Hs;
      [|discriminate].
    apply save_success in Hs. rewrite Hs in Hrun.
    injection Hrun as <-. split; [reflexivity|].
    split; [|split; [exact Hlen|]].
    + rewrite (assign_keys (runtime env 2) (mergeAll env existing)).
      now apply changed_NoDup.
    + intros k. rewrite <- mergeAll_keys, <- !list_elem_of_In.
      now rewrite (assign_keys (runtime env 2) (mergeAll env existing)).
Qed.

Lemma X8_written_dataset_witness :
  NoDup (map mergeKey
           (assignSequentialCodes stableRuntime
              (mergeAll (secondaryOnly [tenToElevenX; noonToOne])
                        [tenToEleven])))
  /\ 1 <= length (assignSequentialCodes stableRuntime
                    (mergeAll (secondaryOnly [tenToElevenX; noonToOne])
                              [tenToEleven])).
Proof.
  destruct (X8_written_dataset (secondaryOnly [tenToElevenX; noonToOne])
              (fileOf [tenToEleven]) [tenToEleven]
              (snd (fetchAndUpdateEvents
                      (secondaryOnly [tenToElevenX; noonToOne])
                      (fileOf [tenToEleven])))
              ltac:(vm_compute; reflexivity)
              ltac:(vm_compute; reflexivity)
              ltac:(vm_compute; discriminate)) as (_ & H1 & H2 & _).
  split; [exact H1|exact H2].
Defined.

(** X9. A dataset file that is missing, or loads to events with
    pairwise distinct merge keys, stays so: when the write goes through
    and the events the sources contribute have UTC timestamps of whole
    milliseconds with four-digit years, the run succeeds (the safety
    error cannot occur) and leaves a file of the same kind. *)
Theorem X9_wellKept_preserved env file :
  wellKept file ->
  writing env = WriteDone ->
  Forall exactTimes (contributed (davidKendall env)) ->
  Forall exactTimes (contributed (octopus env)) ->
  exists file',
    fetchAndUpdateEvents env file = (None, file') /\ wellKept file'.
Proof.
  intros Hkept Hw Hd Ho.
  assert (exists existing,
             existingOrFail (loadExistingEvents file) = inl existing
             /\ NoDup (map mergeKey existing)) as (existing & Hload & Hnd).
  { destruct Hkept as [->|(events & Hl & Hnd)].
    - exists []. split; [reflexivity|constructor].
    - exists events. split; [now rewrite Hl|exact Hnd]. }
  pose proof (mergeAll_length_ge env existing Hnd) as Hge.
  destruct (run_cases env file existing Hload)
    as [[_ H]|[(_ & Hlt & H)|(Hch & Hlen & H)]].
  - exists file. split; [exact H|exact Hkept].
  - rewrite assignSequentialCodes_length in Hlt. lia.
  - rewrite Hw in H. cbn [saveEvents WriteFile fst] in H.
    eexists. split; [exact H|]. right.
    exists (map stored (assignSequentialCodes (runtime env 2)
                          (mergeAll env existing))).
    split.
    + apply (load_saved (now env) _ file).
      now apply (final_exact env file existing).
    + rewrite stored_keys.
      rewrite (assign_keys (runtime env 2) (mergeAll env existing)).
      now apply mergeAll_NoDup.
Qed.

Lemma X9_wellKept_preserved_witness :
  exists file',
    fetchAndUpdateEvents (secondaryOnly [tenToElevenX; noonToOne])
                         (fileOf [tenToEleven]) = (None, file')
    /\ wellKept file'.
Proof.
  apply X9_wellKept_preserved.
  - right. exists [tenToEleven]. split; [vm_compute; reflexivity|].
    apply NoDup_cons_2; [|apply NoDup_nil_2].
    intros H. apply list_elem_of_In in H. destruct H.
  - reflexivity.
  - repeat constructor; try (vm_compute; intros H; discriminate H).
  - constructor.
Defined.

(** X10. A successful run is followed by a quiet one: when the sources
    contribute the same events again (with UTC timestamps of whole
    milliseconds and four-digit years), the next run succeeds without
    writing, whatever the time, the arrival order and the runtime's
    choices. *)
Theorem X10_second_run_is_quiet env env' file file' :
  fetchAndUpdateEvents env file = (None, file') ->
  Forall exactTimes (contributed (davidKendall env)) ->
  Forall exactTimes (contributed (octopus env)) ->
  contributed (octopus env') = contributed (octopus env) ->
  contributed (davidKendall env') = contributed (davidKendall env) ->
  fetchAndUpdateEvents env' file' = (None, file').
Proof.
  intros Hrun Hd Ho Ho' Hd'.
  destruct (run_success_loaded _ _ _ Hrun) as [existing Hload].
  destruct (run_cases env file existing Hload)
    as [[Hch H]|[(_ & _ & H)|(Hch & Hlen & H)]];
    rewrite H in Hrun.
  - injection Hrun as <-.
    apply (unchanged_merge_keys_skip_write env' file existing Hload).
    + rewrite (mergeAll_length_indep env env' existing Ho' Hd').
      symmetry. now apply hasChanges_false in Hch.
    + intros e He. apply hasChanges_false in Hch. destruct Hch as [_ Hk].
      apply (in_map mergeKey) in He.
      apply mergeAll_keys in He. rewrite Ho', Hd' in He.
      apply mergeAll_keys in He.
      apply in_map_iff in He. destruct He as (x & <- & Hx). now apply Hk.
  - discriminate.
  - destruct (fst (saveEvents (writing env) (now env) _ file)) eqn:Hs;
      [|discriminate].
    apply save_success in Hs. rewrite Hs in Hrun. injection Hrun as <-.
    pose proof (final_exact env file existing Hload Hd Ho) as Hex.
    pose proof (load_saved (now env) _ file Hex) as Hl.
    set (final := assignSequentialCodes (runtime env 2)
                                        (mergeAll env existing)) in *.
    assert (forall k, In k (map mergeKey (map stored final))
                      <-> In k (map mergeKey (mergeAll env existing))) as Hk.
    { intros k. rewrite stored_keys, <- !list_elem_of_In.
      unfold final.
      now rewrite (assign_keys (runtime env 2) (mergeAll env existing)). }
    cbn [saveEvents WriteFile snd] in Hl.
    unfold fetchAndUpdateEvents. rewrite Hl. cbn [existingOrFail].
    rewrite (mergeAll_known env' (map stored final)); [reflexivity| |].
    + rewrite stored_keys. unfold final.
      rewrite (assign_keys (runtime env 2) (mergeAll env existing)).
      now apply changed_NoDup.
    + intros e He. apply Hk, mergeAll_keys. rewrite <- Ho', <- Hd'.
      destruct He as [He|He]; apply (in_map mergeKey) in He; tauto.
Qed.

Lemma X10_second_run_is_quiet_witness :
  fetchAndUpdateEvents
    (mkEnv ([], None) ([tenToElevenX; noonToOne], None) true
           (fun _ => stableRuntime) WriteTorn 200)
    (snd (fetchAndUpdateEvents (secondaryOnly [tenToElevenX; noonToOne])
                               (fileOf [tenToEleven])))
  = (None,
     snd (fetchAndUpdateEvents (secondaryOnly [tenToElevenX; noonToOne])
                               (fileOf [tenToEleven]))).
Proof.
  apply (X10_second_run_is_quiet (secondaryOnly [tenToElevenX; noonToOne])
           (mkEnv ([], None) ([tenToElevenX; noonToOne], None) true
                  (fun _ => stableRuntime) WriteTorn 200)
           (fileOf [tenToEleven])).
  - vm_compute. reflexivity.
  - repeat constructor; try (vm_compute; intros H; discriminate H).
  - constructor.
  - reflexivity.
  - reflexivity.
Defined.

(** X11. Whenever [fetchDavidKendallData] returns an error it returns
    no events and leaves the cache directory as it was: neither the
    ETag nor the snapshot is written on a transport error, on a status
    other than 200 and 304, or on a body that does not decode. A status
    other than 200 and 304 is always such an error. *)
Theorem X11_secondary_failure_keeps_cache
    (timeMarshalJSON : Time -> option json)
    (timeUnmarshalJSON : Time -> json -> option Time)
    (net : Network) (cacheDir : Cache) :
  (snd (fst (fetchDavidKendallData timeMarshalJSON timeUnmarshalJSON
                                   net cacheDir)) <> None ->
   fst (fst (fetchDavidKendallData timeMarshalJSON timeUnmarshalJSON
                                   net cacheDir)) = []
   /\ snd (fetchDavidKendallData timeMarshalJSON timeUnmarshalJSON
                                 net cacheDir) = cacheDir)
  /\ (forall status etagHeader body,
         httpGet net (if String.eqb (getCachedETag cacheDir) "" then None
                      else Some (getCachedETag cacheDir))
         = HttpResponse status etagHeader body ->
         status <> 200%Z -> status <> 304%Z ->
         fetchDavidKendallData timeMarshalJSON timeUnmarshalJSON net cacheDir
         = (([], Some (UnexpectedStatus status)), cacheDir)).
Proof.
  split.
  - unfold fetchDavidKendallData.
    destruct (httpGet net _) as [|status etagHeader body]; [now split|].
    destruct (status =? 304)%Z.
    + cbn [fst snd]. unfold getCachedEvents, getCachedEventsFromDir.
      destruct (eventsFile cacheDir) as [data|]; [|now intros []].
      destruct (jsonUnmarshalEvents timeUnmarshalJSON data); now intros [].
    + destruct (negb (status =? 200)%Z); [now split|].
      destruct (jsonUnmarshalOutputData body); [now intros []|now split].
  - intros status etagHeader body Hget H200 H304.
    unfold fetchDavidKendallData. rewrite Hget.
    destruct (Z.eqb_spec status 304); [contradiction|].
    destruct (Z.eqb_spec status 200); [contradiction|]. reflexivity.
Qed.

Lemma X11_secondary_failure_keeps_cache_witness :
  fetchDavidKendallData (fun _ => None) (fun cur _ => Some cur)
    (mkNetwork (fun _ => HttpResponse 503 "v2" NotJson) WriteDone WriteDone)
    (mkCache (Some "v1") None)
  = (([], Some (UnexpectedStatus 503)), mkCache (Some "v1") None).
Proof.
  apply (proj2 (X11_secondary_failure_keeps_cache
                  (fun _ => None) (fun cur _ => Some cur)
                  (mkNetwork (fun _ => HttpResponse 503 "v2" NotJson)
                             WriteDone WriteDone)
                  (mkCache (Some "v1") None)) 503%Z "v2" NotJson).
  - reflexivity.
  - discriminate.
  - discriminate.
Defined.

(** X12. The conversion loop of [fetchDavidKendallData] drops exactly
    the entries with a timestamp that does not parse and keeps the
    others in order: it works entry by entry, returns at most as many
    events as there are entries, returns what [loadExistingEvents]'s
    loop returns whenever that one succeeds, and every event it returns
    has UTC timestamps of whole milliseconds. *)
Theorem X12_secondary_skips_bad_entries :
  (forall a b, toEventsSkipping (a ++ b)
               = toEventsSkipping a ++ toEventsSkipping b)
  /\ (forall o, parseMillisZ (Start o) = None \/ parseMillisZ (End_ o) = None ->
                toEventsSkipping [o] = [])
  /\ (forall data, length (toEventsSkipping data) <= length data)
  /\ (forall data events, toEvents data = inl events ->
                          toEventsSkipping data = events)
  /\ (forall data, Forall exactTimes (toEventsSkipping data)).
Proof.
  split; [exact toEventsSkipping_app|].
  split; [|split; [exact toEventsSkipping_length|
             split; [exact toEventsSkipping_all|exact toEventsSkipping_exact]]].
  intros o [H|H]; simpl.
  - now rewrite H.
  - rewrite H. now destruct (parseMillisZ (Start o)).
Qed.

Lemma X12_secondary_skips_bad_entries_witness :
  toEventsSkipping
    ([mkOutputEvent "2024-01-01T10:00:00.000Z" "2024-01-01T11:00:00.000Z"
                    "1" None]
     ++ [mkOutputEvent "2024-01-01T10:00:00Z" "2024-01-01T11:00:00.000Z"
                       "2" None])
  = [tenToEleven].
Proof.
  rewrite (proj1 X12_secondary_skips_bad_entries).
  rewrite (proj1 (proj2 X12_secondary_skips_bad_entries)
             (mkOutputEvent "2024-01-01T10:00:00Z" "2024-01-01T11:00:00.000Z"
                            "2" None));
    [|left; vm_compute; reflexivity].
  vm_compute. reflexivity.
Defined.

(** X13. What [cacheEventsToDir] stores, [getCachedEventsFromDir] reads
    back: after a write that went through, the cached events are the
    events given with [Code], [Name] and [Typename] coerced to valid
    UTF-8 (every byte that is not part of a valid encoding replaced by
    U+FFFD) and every other field as it was, provided [time.Time]'s
    JSON codec gives their timestamps back. So events whose three
    strings are valid UTF-8 are read back as they were given. The ETag
    file is not touched. *)
Theorem X13_cache_events_round_trip
    (timeMarshalJSON : Time -> option json)
    (timeUnmarshalJSON : Time -> json -> option Time)
    (cacheDir : Cache) (events : list Event) :
  Forall (fun e => codecRoundTrips timeMarshalJSON timeUnmarshalJSON (StartAt e)
                   /\ codecRoundTrips timeMarshalJSON timeUnmarshalJSON
                                      (EndAt e)) events ->
  getCachedEventsFromDir timeUnmarshalJSON
    (cacheEventsToDir timeMarshalJSON WriteDone cacheDir events)
  = (map coercedEvent events, None)
  /\ (Forall validStrings events ->
      getCachedEventsFromDir timeUnmarshalJSON
        (cacheEventsToDir timeMarshalJSON WriteDone cacheDir events)
      = (events, None))
  /\ getCachedETagFromDir
       (cacheEventsToDir timeMarshalJSON WriteDone cacheDir events)
     = getCachedETagFromDir cacheDir.
Proof.
  intros H.
  destruct (decodeEvents_marshalEventList _ _ _ H) as (js & Hm & Hd).
  unfold cacheEventsToDir, getCachedEventsFromDir. rewrite Hm.
  cbn [eventsFile jsonUnmarshalEvents]. rewrite Hd.
  split; [reflexivity|]. split; [|reflexivity].
  intros Hv. now rewrite (map_coercedEvent_valid _ Hv).
Qed.

(** A codec for the examples: the millisecond layout in a JSON string. *)
Definition layoutMarshal (t : Time) : option json :=
  Some (JString (formatMillisZ t)).

Definition layoutUnmarshal (cur : Time) (j : json) : option Time :=
  match j with
  | JString s => parseMillisZ s
  | JNull => Some cur
  | _ => None
  end.

Lemma X13_cache_events_round_trip_witness :
  getCachedEventsFromDir layoutUnmarshal
    (cacheEventsToDir layoutMarshal WriteDone (mkCache (Some "v1") None)
       [tenToElevenX; byteCode])
  = ([tenToElevenX; setCode (replacementChar EmptyString) byteCode], None)
  /\ getCachedEventsFromDir layoutUnmarshal
       (cacheEventsToDir layoutMarshal WriteDone (mkCache (Some "v1") None)
          [tenToElevenX; notATest])
     = ([tenToElevenX; notATest], None).
Proof.
  split.
  - apply (proj1 (X13_cache_events_round_trip layoutMarshal layoutUnmarshal
                    (mkCache (Some "v1") None) [tenToElevenX; byteCode]
                    ltac:(repeat constructor;
                          (eexists; split;
                           [reflexivity
                           |intros cur; vm_compute; reflexivity])))).
  - apply (proj1 (proj2 (X13_cache_events_round_trip layoutMarshal
                           layoutUnmarshal (mkCache (Some "v1") None)
                           [tenToElevenX; notATest]
                           ltac:(repeat constructor;
                                 (eexists; split;
                                  [reflexivity
                                  |intros cur; vm_compute; reflexivity]))))).
    repeat constructor.
Defined.

(** X14. Conditional fetch: after a 200 whose ETag and events were
    cached, the next request carries that ETag in [If-None-Match], and
    when the upstream answers 304 the fetcher returns the very events
    of the 200, with a nil error, and leaves the cache as it is. *)
Theorem X14_conditional_fetch
    (timeMarshalJSON : Time -> option json)
    (timeUnmarshalJSON : Time -> json -> option Time)
    (net : Network) (cacheDir : Cache)
    (etagHeader : string) (body : Bytes) (outputData : OutputData) :
  httpGet net (if String.eqb (getCachedETag cacheDir) "" then None
               else Some (getCachedETag cacheDir))
  = HttpResponse 200 etagHeader body ->
  jsonUnmarshalOutputData body = Some outputData ->
  etagHeader <> "" ->
  etagWrite net = WriteDone -> eventsWrite net = WriteDone ->
  Forall (fun e => codecRoundTrips timeMarshalJSON timeUnmarshalJSON (StartAt e)
                   /\ codecRoundTrips timeMarshalJSON timeUnmarshalJSON
                                      (EndAt e))
         (toEventsSkipping (Data outputData)) ->
  exists cacheDir',
    fetchDavidKendallData timeMarshalJSON timeUnmarshalJSON net cacheDir
    = ((toEventsSkipping (Data outputData), None), cacheDir')
    /\ getCachedETag cacheDir' = etagHeader
    /\ forall net' etagHeader' body',
        httpGet net' (Some etagHeader) = HttpResponse 304 etagHeader' body' ->
        fetchDavidKendallData timeMarshalJSON timeUnmarshalJSON net' cacheDir'
        = ((toEventsSkipping (Data outputData), None), cacheDir').
Proof.
  intros Hget Hbody Hetag Hew Hvw Hcodec.
  destruct (String.eqb_spec etagHeader "") as [?|_]; [contradiction|].
  eexists. split; [|split].
  - unfold fetchDavidKendallData. rewrite Hget. cbn [Z.eqb Pos.eqb negb].
    rewrite Hbody, Hew, Hvw.
    destruct (String.eqb_spec etagHeader "") as [?|_]; [contradiction|].
    reflexivity.
  - reflexivity.
  - intros net' etagHeader' body' Hget'.
    unfold fetchDavidKendallData at 1.
    cbn [cacheEvents cacheEventsToDir cacheETag cacheETagToDir getCachedETag
         getCachedETagFromDir etagFile].
    destruct (String.eqb_spec etagHeader "") as [?|_]; [contradiction|].
    rewrite Hget'. cbn [Z.eqb Pos.eqb].
    unfold getCachedEvents.
    destruct (decodeEvents_marshalEventList _ _ _ Hcodec) as (js & Hm & Hd).
    rewrite map_coercedEvent_valid in Hd
      by apply toEventsSkipping_validStrings,
               (jsonUnmarshalOutputData_valid _ _ Hbody).
    unfold getCachedEventsFromDir. rewrite Hm.
    cbn [eventsFile jsonUnmarshalEvents]. now rewrite Hd.
Qed.

Lemma X14_conditional_fetch_witness :
  exists cacheDir',
    fetchDavidKendallData layoutMarshal layoutUnmarshal
      (mkNetwork (fun _ => HttpResponse 200 "v1"
                    (Document (marshalOutputData
                       (convertToOutputFormat [tenToEleven]))))
                 WriteDone WriteDone)
      (mkCache None None)
    = ((toEventsSkipping (Data (convertToOutputFormat [tenToEleven])), None),
       cacheDir')
    /\ getCachedETag cacheDir' = "v1"
    /\ forall net' etagHeader' body',
        httpGet net' (Some "v1") = HttpResponse 304 etagHeader' body' ->
        fetchDavidKendallData layoutMarshal layoutUnmarshal net' cacheDir'
        = ((toEventsSkipping (Data (convertToOutputFormat [tenToEleven])),
            None), cacheDir').
Proof.
  apply (X14_conditional_fetch layoutMarshal layoutUnmarshal
           (mkNetwork (fun _ => HttpResponse 200 "v1"
                         (Document (marshalOutputData
                            (convertToOutputFormat [tenToEleven]))))
                      WriteDone WriteDone)
           (mkCache None None) "v1"
           (Document (marshalOutputData (convertToOutputFormat [tenToEleven])))
           (convertToOutputFormat [tenToEleven])).
  - reflexivity.
  - vm_compute. reflexivity.
  - discriminate.
  - reflexivity.
  - reflexivity.
  - replace (toEventsSkipping (Data (convertToOutputFormat [tenToEleven])))
      with [tenToEleven] by (vm_compute; reflexivity).
    repeat constructor;
      (eexists; split; [reflexivity|intros cur; vm_compute; reflexivity]).
Defined.

(** ** Configuration *)

Lemma getEnvOrDefault_empty environ key :
  Settings.getEnvOrDefault environ key "" = Settings.Getenv environ key.
Proof.
  unfold Settings.getEnvOrDefault.
  destruct (String.eqb_spec (Settings.Getenv environ key) "") as [->|];
    reflexivity.
Qed.

Lemma loadConfig_resolved cl environ files :
  Settings.loadConfig cl environ files
  = if Settings.version cl then Settings.ExitsZero
    else match configDoc cl files with
         | None => Settings.Fails Settings.ConfigFileFailed
         | Some doc =>
             let config := resolved cl environ doc in
             if String.eqb (Settings.APIKey config) ""
             then Settings.Fails Settings.APIKeyRequired
             else if String.eqb (Settings.AccountNumber config) ""
             then Settings.Fails Settings.AccountNumberRequired
             else if String.eqb (Settings.MeterPointID config) ""
             then Settings.Fails Settings.MeterPointIDRequired
             else Settings.Returns config
         end.
Proof.
  unfold Settings.loadConfig, configDoc, resolved, firstNonEmpty.
  rewrite !getEnvOrDefault_empty.
  destruct (Settings.version cl); [reflexivity|].
  assert (Hdoc : forall doc,
    Settings.loadConfigFromFile (Settings.Yaml doc)
      (Settings.mkConfig "" "" "" (Settings.outputFile cl))
    = Some (Settings.mkConfig (default "" (Settings.yAccountNumber doc))
              (default "" (Settings.yMeterPointID doc))
              (default "" (Settings.yApiKey doc))
              (default (Settings.outputFile cl) (Settings.yOutputFile doc))))
    by reflexivity.
  generalize (Settings.Getenv environ "ACCOUNT_NUMBER"),
    (Settings.Getenv environ "METER_POINT_ID"),
    (Settings.Getenv environ "OCTOPUS_API_KEY"),
    (Settings.accountNumber cl), (Settings.meterPointID cl),
    (Settings.apiKey cl), (Settings.outputFile cl).
  intros ea em ek fa fm fk o.
  assert (Hgen : forall a m k o',
    match Some (Settings.mkConfig a m k o') with
    | None => Settings.Fails Settings.ConfigFileFailed
    | Some config =>
        let config :=
          if negb (String.eqb fa "") then
            Settings.mkConfig fa (Settings.MeterPointID config)
              (Settings.APIKey config) (Settings.OutputFile config)
          else if String.eqb (Settings.AccountNumber config) "" then
            Settings.mkConfig ea (Settings.MeterPointID config)
              (Settings.APIKey config) (Settings.OutputFile config)
          else config in
        let config :=
          if negb (String.eqb fm "") then
            Settings.mkConfig (Settings.AccountNumber config) fm
              (Settings.APIKey config) (Settings.OutputFile config)
          else if String.eqb (Settings.MeterPointID config) "" then
            Settings.mkConfig (Settings.AccountNumber config) em
              (Settings.APIKey config) (Settings.OutputFile config)
          else config in
        let config :=
          if negb (String.eqb fk "") then
            Settings.mkConfig (Settings.AccountNumber config)
              (Settings.MeterPointID config) fk (Settings.OutputFile config)
          else if String.eqb (Settings.APIKey config) "" then
            Settings.mkConfig (Settings.AccountNumber config)
              (Settings.MeterPointID config) ek (Settings.OutputFile config)
          else config in
        if String.eqb (Settings.APIKey config) ""
        then Settings.Fails Settings.APIKeyRequired
        else if String.eqb (Settings.AccountNumber config) ""
        then Settings.Fails Settings.AccountNumberRequired
        else if String.eqb (Settings.MeterPointID config) ""
        then Settings.Fails Settings.MeterPointIDRequired
        else Settings.Returns config
    end
    = let config :=
        Settings.mkConfig
          (if negb (String.eqb fa "") then fa
           else if negb (String.eqb a "") then a else ea)
          (if negb (String.eqb fm "") then fm
           else if negb (String.eqb m "") then m else em)
          (if negb (String.eqb fk "") then fk
           else if negb (String.eqb k "") then k else ek) o' in
      if String.eqb (Settings.APIKey config) ""
      then Settings.Fails Settings.APIKeyRequired
      else if String.eqb (Settings.AccountNumber config) ""
      then Settings.Fails Settings.AccountNumberRequired
      else if String.eqb (Settings.MeterPointID config) ""
      then Settings.Fails Settings.MeterPointIDRequired
      else Settings.Returns config).
  { intros a m k o'.
    destruct (String.eqb fa "") eqn:Hfa; destruct (String.eqb a "") eqn:Ha;
      destruct (String.eqb fm "") eqn:Hfm; destruct (String.eqb m "") eqn:Hm;
      destruct (String.eqb fk "") eqn:Hfk; destruct (String.eqb k "") eqn:Hk;
      repeat (cbn [negb Settings.AccountNumber Settings.MeterPointID
                   Settings.APIKey Settings.OutputFile];
              rewrite ?Hfa, ?Hfm, ?Hfk, ?Ha, ?Hm, ?Hk);
      reflexivity. }
  destruct (String.eqb (Settings.configFile cl) ""); cbn [negb].
  - exact (Hgen "" "" "" o).
  - destruct (files (Settings.configFile cl)) as [| |doc];
      [reflexivity|reflexivity|].
    exact (Hgen (default "" (Settings.yAccountNumber doc))
                (default "" (Settings.yMeterPointID doc))
                (default "" (Settings.yApiKey doc))
                (default o (Settings.yOutputFile doc))).
Qed.

Lemma eqb_empty_false (s : string) : String.eqb s "" = false <-> s <> "".
Proof. destruct (String.eqb_spec s ""); split; congruence. Qed.

Lemma loadConfig_Returns cl environ files config :
  Settings.loadConfig cl environ files = Settings.Returns config
  <-> Settings.version cl = false
      /\ exists doc, configDoc cl files = Some doc
         /\ config = resolved cl environ doc
         /\ Settings.APIKey config <> ""
         /\ Settings.AccountNumber config <> ""
         /\ Settings.MeterPointID config <> "".
Proof.
  rewrite loadConfig_resolved.
  destruct (Settings.version cl).
  { split; [discriminate|intros [? _]; discriminate]. }
  destruct (configDoc cl files) as [doc|].
  2:{ split; [discriminate|intros (_ & doc & ? & _); discriminate]. }
  cbv zeta.
  destruct (String.eqb_spec (Settings.APIKey (resolved cl environ doc)) "")
    as [Hk|Hk].
  { split; [discriminate|].
    intros (_ & doc' & [= <-] & -> & ? & _). contradiction. }
  destruct (String.eqb_spec
              (Settings.AccountNumber (resolved cl environ doc)) "")
    as [Ha|Ha].
  { split; [discriminate|].
    intros (_ & doc' & [= <-] & -> & _ & ? & _). contradiction. }
  destruct (String.eqb_spec
              (Settings.MeterPointID (resolved cl environ doc)) "")
    as [Hm|Hm].
  { split; [discriminate|].
    intros (_ & doc' & [= <-] & -> & _ & _ & ?). contradiction. }
  split.
  - intros [= <-]. split; [reflexivity|]. exists doc. auto.
  - intros (_ & doc' & [= <-] & -> & _). reflexivity.
Qed.

(** X15. A configuration that [loadConfig] returns has an API key, an
    account number and a meter point identifier, none of them empty. *)
Theorem X15_loadConfig_required cl environ files config :
  Settings.loadConfig cl environ files = Settings.Returns config ->
  Settings.APIKey config <> ""
  /\ Settings.AccountNumber config <> ""
  /\ Settings.MeterPointID config <> "".
Proof.
  intros H. apply loadConfig_Returns in H.
  destruct H as (_ & doc & _ & _ & H). exact H.
Qed.

Lemma X15_loadConfig_required_witness :
  Settings.APIKey (Settings.mkConfig "A-1" "M-1" "sk" "free_electricity.json")
    <> ""
  /\ Settings.AccountNumber
       (Settings.mkConfig "A-1" "M-1" "sk" "free_electricity.json") <> ""
  /\ Settings.MeterPointID
       (Settings.mkConfig "A-1" "M-1" "sk" "free_electricity.json") <> "".
Proof.
  apply (X15_loadConfig_required
           (Settings.mkCommandLine None (Some "A-1") None None None false)
           (<["OCTOPUS_API_KEY" := "sk"]> (<["METER_POINT_ID" := "M-1"]> ∅))
           (fun _ => Settings.CannotRead)).
  vm_compute. reflexivity.
Defined.

(** X16. In a configuration that [loadConfig] returns, the account
    number, the meter point identifier and the API key are each the
    flag when it is not empty, else the value of the configuration file
    when it is not empty, else the environment variable. The output
    file goes the other way: the configuration file's value when the
    file sets one, even an empty one, and the flag or its default
    only otherwise. *)
Theorem X16_loadConfig_precedence cl environ files config :
  Settings.loadConfig cl environ files = Settings.Returns config ->
  exists doc,
    configDoc cl files = Some doc
    /\ Settings.AccountNumber config
       = firstNonEmpty (Settings.accountNumber cl)
           (default "" (Settings.yAccountNumber doc))
           (Settings.Getenv environ "ACCOUNT_NUMBER")
    /\ Settings.MeterPointID config
       = firstNonEmpty (Settings.meterPointID cl)
           (default "" (Settings.yMeterPointID doc))
           (Settings.Getenv environ "METER_POINT_ID")
    /\ Settings.APIKey config
       = firstNonEmpty (Settings.apiKey cl)
           (default "" (Settings.yApiKey doc))
           (Settings.Getenv environ "OCTOPUS_API_KEY")
    /\ Settings.OutputFile config
       = default (Settings.outputFile cl) (Settings.yOutputFile doc).
Proof.
  intros H. apply loadConfig_Returns in H.
  destruct H as (_ & doc & Hdoc & -> & _). exists doc.
  split; [exact Hdoc|]. repeat split.
Qed.

Lemma X16_loadConfig_precedence_witness :
  exists doc,
    configDoc (Settings.mkCommandLine (Some "octo.yaml") (Some "A-1") None
                 None (Some "out.json") false)
              (fun _ => Settings.Yaml
                 (Settings.mkYamlDoc (Some "A-2") (Some "M-2") None
                                     (Some "")))
    = Some doc
    /\ Settings.AccountNumber (Settings.mkConfig "A-1" "M-2" "sk" "")
       = firstNonEmpty "A-1" (default "" (Settings.yAccountNumber doc))
           (Settings.Getenv
              (<["OCTOPUS_API_KEY" := "sk"]> (<["METER_POINT_ID" := "M-1"]> ∅))
              "ACCOUNT_NUMBER")
    /\ Settings.MeterPointID (Settings.mkConfig "A-1" "M-2" "sk" "")
       = firstNonEmpty "" (default "" (Settings.yMeterPointID doc))
           (Settings.Getenv
              (<["OCTOPUS_API_KEY" := "sk"]> (<["METER_POINT_ID" := "M-1"]> ∅))
              "METER_POINT_ID")
    /\ Settings.APIKey (Settings.mkConfig "A-1" "M-2" "sk" "")
       = firstNonEmpty "" (default "" (Settings.yApiKey doc))
           (Settings.Getenv
              (<["OCTOPUS_API_KEY" := "sk"]> (<["METER_POINT_ID" := "M-1"]> ∅))
              "OCTOPUS_API_KEY")
    /\ Settings.OutputFile (Settings.mkConfig "A-1" "M-2" "sk" "")
       = default "out.json" (Settings.yOutputFile doc).
Proof.
  apply (X16_loadConfig_precedence
           (Settings.mkCommandLine (Some "octo.yaml") (Some "A-1") None None
              (Some "out.json") false)
           (<["OCTOPUS_API_KEY" := "sk"]> (<["METER_POINT_ID" := "M-1"]> ∅))
           (fun _ => Settings.Yaml
              (Settings.mkYamlDoc (Some "A-2") (Some "M-2") None (Some "")))).
  vm_compute. reflexivity.
Defined.

(** X17. [loadConfig] returns a configuration exactly when the version
    flag is off, the configuration file, if one is named, is read and
    parsed, and each of the three required values has a non-empty
    source. It fails on the configuration file exactly when a named
    file cannot be read or parsed, whatever the flags and the
    environment give; and the missing API key is reported before a
    missing account number or meter point. *)
Theorem X17_loadConfig_outcome cl environ files :
  ((exists config,
       Settings.loadConfig cl environ files = Settings.Returns config)
   <-> Settings.version cl = false
       /\ exists doc,
            configDoc cl files = Some doc
            /\ Settings.APIKey (resolved cl environ doc) <> ""
            /\ Settings.AccountNumber (resolved cl environ doc) <> ""
            /\ Settings.MeterPointID (resolved cl environ doc) <> "")
  /\ (Settings.loadConfig cl environ files
      = Settings.Fails Settings.ConfigFileFailed
      <-> Settings.version cl = false /\ configDoc cl files = None)
  /\ (Settings.loadConfig cl environ files
      = Settings.Fails Settings.APIKeyRequired
      <-> Settings.version cl = false
          /\ exists doc,
               configDoc cl files = Some doc
               /\ Settings.APIKey (resolved cl environ doc) = "").
Proof.
  split; [|split].
  - split.
    + intros [config H]. apply loadConfig_Returns in H.
      destruct H as (Hv & doc & Hdoc & -> & H). eauto.
    + intros (Hv & doc & Hdoc & H). exists (resolved cl environ doc).
      apply loadConfig_Returns. eauto 10.
  - rewrite loadConfig_resolved.
    destruct (Settings.version cl);
      [split; [discriminate|intros [? _]; discriminate]|].
    destruct (configDoc cl files) as [doc|]; [|tauto].
    cbv zeta. split; [|intros [_ ?]; discriminate].
    repeat (case_match; try discriminate).
  - rewrite loadConfig_resolved.
    destruct (Settings.version cl);
      [split; [discriminate|intros [? _]; discriminate]|].
    destruct (configDoc cl files) as [doc|].
    2:{ split; [discriminate|intros (_ & ? & ? & _); discriminate]. }
    cbv zeta.
    destruct (String.eqb_spec (Settings.APIKey (resolved cl environ doc)) "")
      as [Hk|Hk].
    + split; eauto.
    + split; [repeat (case_match; try discriminate)|].
      intros (_ & doc' & [= <-] & ?). contradiction.
Qed.

(** ** Version *)

Lemma substring_length_le (n : nat) (s : string) :
  (String.length (String.substring 0 n s) <= n)%nat.
Proof.
  induction n as [|n IH] in s |- *; destruct s as [|a s]; cbn; try lia.
  specialize (IH s). lia.
Qed.

Lemma substring_length_min (n : nat) (s : string) :
  String.length (String.substring 0 n s) = Nat.min n (String.length s).
Proof.
  induction n as [|n IH] in s |- *; destruct s as [|a s]; cbn; try lia.
  rewrite IH. reflexivity.
Qed.

Lemma prefix_refl (s : string) : String.prefix s s = true.
Proof.
  induction s as [|a s IH]; cbn; [reflexivity|].
  destruct (ascii_dec a a); [exact IH|congruence].
Qed.

Lemma prefix_substring (n : nat) (s : string) :
  String.prefix (String.substring 0 n s) s = true.
Proof.
  induction n as [|n IH] in s |- *; destruct s as [|a s]; cbn;
    try reflexivity.
  destruct (ascii_dec a a); [apply IH|congruence].
Qed.

Lemma short_length (value : string) :
  String.length (Version.short value) = Nat.min 7 (String.length value).
Proof.
  unfold Version.short.
  destruct (Nat.leb_spec 7 (String.length value)).
  - apply substring_length_min.
  - lia.
Qed.

Lemma short_prefix (value : string) :
  String.prefix (Version.short value) value = true.
Proof.
  unfold Version.short.
  destruct (7 <=? String.length value)%nat;
    [apply prefix_substring|apply prefix_refl].
Qed.

Lemma length_append (s t : string) :
  String.length (s +:+ t) = (String.length s + String.length t)%nat.
Proof.
  induction s as [|a s IH]; [reflexivity|].
  change (String a s +:+ t) with (String a (s +:+ t)).
  cbn [String.length]. rewrite IH. reflexivity.
Qed.

Lemma length_zero_empty (s : string) : String.length s = 0%nat <-> s = "".
Proof. destruct s; cbn; split; congruence. Qed.

Lemma short_nonempty (value : string) :
  value <> "" -> Version.short value <> "".
Proof.
  intros H He. apply length_zero_empty in He.
  rewrite short_length in He.
  assert (String.length value <> 0%nat) by (rewrite length_zero_empty; auto).
  lia.
Qed.

Lemma revisionOf_Some settings v :
  Version.revisionOf settings = Some v ->
  exists value, value <> "" /\ v = Version.short value.
Proof.
  induction settings as [|[key value] rest IH]; cbn; [discriminate|].
  destruct (String.eqb key "vcs.revision"); cbn [andb]; [|exact IH].
  destruct (String.eqb_spec value "") as [->|Hne]; cbn [negb]; [exact IH|].
  intros [= <-]. eauto.
Qed.

Lemma revisionOf_first pre value post :
  value <> "" ->
  (forall x, In ("vcs.revision", x) pre -> x = "") ->
  Version.revisionOf (pre ++ ("vcs.revision", value) :: post)
  = Some (Version.short value).
Proof.
  intros Hne. induction pre as [|[key x] pre IH]; intros Hpre.
  - cbn. apply eqb_empty_false in Hne. rewrite Hne. reflexivity.
  - cbn [app Version.revisionOf].
    destruct (String.eqb_spec key "vcs.revision") as [->|Hk]; cbn [andb].
    + rewrite (Hpre x) by (left; reflexivity). cbn.
      apply IH. intros y Hy. apply Hpre. right. exact Hy.
    + apply IH. intros y Hy. apply Hpre. right. exact Hy.
Qed.

(** X18. [GetVersion] never returns the empty string; and what it
    returns is the link-time version or has at most seven bytes. The
    user agent therefore always carries a version after its prefix. *)
Theorem X18_GetVersion_shape buildVersion buildCommit buildInfo :
  Version.GetVersion buildVersion buildCommit buildInfo <> ""
  /\ (Version.GetVersion buildVersion buildCommit buildInfo = buildVersion
      \/ (String.length
            (Version.GetVersion buildVersion buildCommit buildInfo) <= 7)%nat)
  /\ (String.length
        (Version.GetUserAgent buildVersion buildCommit buildInfo) > 23)%nat.
Proof.
  assert (H : Version.GetVersion buildVersion buildCommit buildInfo <> ""
    /\ (Version.GetVersion buildVersion buildCommit buildInfo = buildVersion
        \/ (String.length
              (Version.GetVersion buildVersion buildCommit buildInfo) <= 7)
           %nat)).
  { unfold Version.GetVersion.
    destruct (String.eqb_spec buildVersion "dev") as [Hd|Hd]; cbn [negb andb].
    2:{ destruct (String.eqb_spec buildVersion "") as [He|He]; cbn [negb].
        2:{ split; [exact He|left; reflexivity]. }
        destruct buildInfo as [settings|].
        - destruct (Version.revisionOf settings) as [v|] eqn:Hr.
          + apply revisionOf_Some in Hr. destruct Hr as (value & Hv & ->).
            split; [apply short_nonempty, Hv|].
            right. rewrite short_length. lia.
          + destruct (String.eqb_spec buildCommit "unknown"); cbn [negb andb].
            * split; [discriminate|right; cbn; lia].
            * destruct (String.eqb_spec buildCommit ""); cbn [negb].
              -- split; [discriminate|right; cbn; lia].
              -- split; [apply short_nonempty; assumption|].
                 right. rewrite short_length. lia.
        - destruct (String.eqb_spec buildCommit "unknown"); cbn [negb andb].
          + split; [discriminate|right; cbn; lia].
          + destruct (String.eqb_spec buildCommit ""); cbn [negb].
            * split; [discriminate|right; cbn; lia].
            * split; [apply short_nonempty; assumption|].
              right. rewrite short_length. lia. }
    destruct buildInfo as [settings|].
    - destruct (Version.revisionOf settings) as [v|] eqn:Hr.
      + apply revisionOf_Some in Hr. destruct Hr as (value & Hv & ->).
        split; [apply short_nonempty, Hv|].
        right. rewrite short_length. lia.
      + destruct (String.eqb_spec buildCommit "unknown"); cbn [negb andb].
        * split; [discriminate|right; cbn; lia].
        * destruct (String.eqb_spec buildCommit ""); cbn [negb].
          -- split; [discriminate|right; cbn; lia].
          -- split; [apply short_nonempty; assumption|].
             right. rewrite short_length. lia.
    - destruct (String.eqb_spec buildCommit "unknown"); cbn [negb andb].
      + split; [discriminate|right; cbn; lia].
      + destruct (String.eqb_spec buildCommit ""); cbn [negb].
        * split; [discriminate|right; cbn; lia].
        * split; [apply short_nonempty; assumption|].
          right. rewrite short_length. lia. }
  destruct H as [Hne Hs]. split; [exact Hne|]. split; [exact Hs|].
  unfold Version.GetUserAgent.
  rewrite length_append.
  assert (String.length
            (Version.GetVersion buildVersion buildCommit buildInfo) <> 0%nat)
    by (rewrite length_zero_empty; exact Hne).
  change (String.length "matthewgall/octoevents/") with 23%nat. lia.
Qed.

(** X19. Without a link-time version, the first [vcs.revision] setting
    of the build information that has a value decides the version,
    whatever [buildCommit] holds: the version is that revision cut to
    its first seven bytes, or the whole revision when it is shorter. *)
Theorem X19_GetVersion_revision buildVersion buildCommit pre value post :
  buildVersion = "dev" \/ buildVersion = "" ->
  value <> "" ->
  (forall x, In ("vcs.revision", x) pre -> x = "") ->
  Version.GetVersion buildVersion buildCommit
    (Some (pre ++ ("vcs.revision", value) :: post))
  = Version.short value
  /\ String.prefix (Version.short value) value = true
  /\ String.length (Version.short value)
     = Nat.min 7 (String.length value).
Proof.
  intros Hv Hne Hpre. split; [|split].
  - unfold Version.GetVersion.
    rewrite (revisionOf_first pre value post Hne Hpre).
    destruct Hv as [-> | ->]; reflexivity.
  - apply short_prefix.
  - apply short_length.
Qed.

Lemma X19_GetVersion_revision_witness :
  Version.GetVersion "dev" "0123456789abcdef"
    (Some ([("vcs", "git"); ("vcs.revision", "")]
           ++ ("vcs.revision", "fedcba9876543210")
              :: [("vcs.revision", "aaaaaaaaaaaa")]))
  = Version.short "fedcba9876543210"
  /\ String.prefix (Version.short "fedcba9876543210") "fedcba9876543210"
     = true
  /\ String.length (Version.short "fedcba9876543210")
     = Nat.min 7 (String.length "fedcba9876543210").
Proof.
  apply (X19_GetVersion_revision "dev" "0123456789abcdef"
           [("vcs", "git"); ("vcs.revision", "")] "fedcba9876543210"
           [("vcs.revision", "aaaaaaaaaaaa")]).
  - left. reflexivity.
  - discriminate.
  - intros x [H|[H|[]]]; [discriminate|]. injection H as <-. reflexivity.
Defined.

(** ** The authenticated client *)

Lemma wrap64_in_range (x : Z) :
  (-9223372036854775808 <= x < 9223372036854775808)%Z ->
  Client.wrap64 x = x.
Proof.
  intros H. unfold Client.wrap64.
  rewrite Z.mod_small by lia. lia.
Qed.

Lemma hasValidToken_spec c now :
  Client.hasValidToken c now = true
  <-> Client.token c <> ""
      /\ (unixNano now + Client.fiveMinutes < unixNano (Client.tokenExpiry c))%Z.
Proof.
  unfold Client.hasValidToken, Before, Client.Add. cbn [unixNano].
  rewrite andb_true_iff, negb_true_iff, eqb_empty_false, Z.ltb_lt.
  reflexivity.
Qed.

Lemma ensureValidToken_valid c x :
  Client.hasValidToken c (Client.firstNow x) = true
  \/ Client.hasValidToken c (Client.secondNow x) = true ->
  Client.ensureValidToken c x = (true, c, false).
Proof.
  unfold Client.ensureValidToken.
  destruct (Client.hasValidToken c (Client.firstNow x)); [reflexivity|].
  intros [H|H]; [discriminate|]. rewrite H. reflexivity.
Qed.

Lemma ensureValidToken_stale c x :
  Client.hasValidToken c (Client.firstNow x) = false ->
  Client.hasValidToken c (Client.secondNow x) = false ->
  Client.ensureValidToken c x
  = (let '(ok, c') :=
       Client.obtainToken c (Client.tokenReply x) (Client.replyNow x) in
     (ok, c', true)).
Proof.
  intros H1 H2. unfold Client.ensureValidToken. rewrite H1, H2. reflexivity.
Qed.

(** X20. What one [Run] sends: at most the token mutation, to the
    client's URL with its API key, followed by the query. The query is
    left out exactly when the token could not be obtained, and then the
    client is unchanged; a query that is sent carries the token the
    client holds afterwards. The API key and the URL never change. *)
Theorem X20_Run_requests {Q R : Type} (c : Client.AuthenticatedClient)
    (x : Client.Exchange) (query : Q) (reply : option R) :
  exists asked,
    (asked = [] /\ (Client.Run c x query reply).1.2 = c
     \/ asked = [Client.ObtainToken (Client.graphqlURL c) (Client.apiKey c)])
    /\ Client.apiKey (Client.Run c x query reply).1.2 = Client.apiKey c
    /\ Client.graphqlURL (Client.Run c x query reply).1.2
       = Client.graphqlURL c
    /\ match (Client.Run c x query reply).1.1 with
       | inr Client.TokenFailed =>
           (Client.Run c x query reply).2 = asked
           /\ asked <> []
           /\ (Client.Run c x query reply).1.2 = c
       | result =>
           (Client.Run c x query reply).2
           = asked ++ [Client.Query (Client.graphqlURL c)
                         (Client.token (Client.Run c x query reply).1.2)
                         query]
           /\ result = match reply with
                       | Some r => inl r
                       | None => inr Client.RequestFailed
                       end
       end.
Proof.
  unfold Client.Run, Client.ensureValidToken.
  destruct (Client.hasValidToken c (Client.firstNow x)).
  { exists []. cbn. destruct reply; cbn; auto 10. }
  destruct (Client.hasValidToken c (Client.secondNow x)).
  { exists []. cbn. destruct reply; cbn; auto 10. }
  exists [Client.ObtainToken (Client.graphqlURL c) (Client.apiKey c)].
  unfold Client.obtainToken.
  destruct (Client.tokenReply x) as [response|]; cbn.
  - destruct reply; cbn; auto 10.
  - split; [auto|]. repeat split. discriminate.
Qed.

(** X21. A token just obtained is used again without asking: when a
    [Run] had to obtain a token, the token is not empty and its
    lifetime in nanoseconds fits 64 bits, then a later [Run] whose
    first clock reading is more than five minutes before the expiry
    sends the query alone, with that token, and leaves the client as
    it is. *)
Theorem X21_token_reused {Q R : Type} (c : Client.AuthenticatedClient)
    (x x' : Client.Exchange) (query query' : Q) (reply reply' : option R)
    (response : Client.TokenResponse) :
  Client.hasValidToken c (Client.firstNow x) = false ->
  Client.hasValidToken c (Client.secondNow x) = false ->
  Client.tokenReply x = Some response ->
  Client.Token response <> "" ->
  (0 <= Client.RefreshExpiresIn response * 1000000000
     < 9223372036854775808)%Z ->
  (unixNano (Client.firstNow x') + Client.fiveMinutes
   < unixNano (Client.replyNow x)
     + Client.RefreshExpiresIn response * 1000000000)%Z ->
  let c' := (Client.Run c x query reply).1.2 in
  Client.token c' = Client.Token response
  /\ (Client.Run c' x' query' reply').1.2 = c'
  /\ (Client.Run c' x' query' reply').2
     = [Client.Query (Client.graphqlURL c) (Client.Token response) query'].
Proof.
  intros H1 H2 Hr Hne Hrange Hnow c'.
  assert (Hc : c' = Client.mkClient (Client.apiKey c) (Client.graphqlURL c)
                      (Client.Token response)
                      (Client.Add (Client.replyNow x)
                         (Client.RefreshExpiresIn response * 1000000000))
                      (Client.RefreshToken response)).
  { subst c'. unfold Client.Run.
    rewrite (ensureValidToken_stale c x H1 H2), Hr. cbn.
    rewrite wrap64_in_range by lia. reflexivity. }
  assert (Hv : Client.hasValidToken c' (Client.firstNow x') = true).
  { apply hasValidToken_spec. rewrite Hc. cbn. split; [exact Hne|lia]. }
  split; [rewrite Hc; reflexivity|].
  unfold Client.Run.
  rewrite (ensureValidToken_valid c' x') by (left; exact Hv).
  split; [reflexivity|]. cbn. rewrite Hc. reflexivity.
Qed.

Lemma X21_token_reused_witness :
  let c' :=
    (Client.Run (Client.NewAuthenticatedClient "sk" "https://example/")
       (Client.mkExchange (utc 0) (utc 1)
          (Some (Client.mkTokenResponse "jwt" "again" 3600)) (utc 2))
       "first" (Some "one")).1.2 in
  Client.token c' = "jwt"
  /\ (Client.Run c'
        (Client.mkExchange (utc 3000000) (utc 3000001) None (utc 3000002))
        "second" (Some "two")).1.2 = c'
  /\ (Client.Run c'
        (Client.mkExchange (utc 3000000) (utc 3000001) None (utc 3000002))
        "second" (Some "two")).2
     = [Client.Query "https://example/" "jwt" "second"].
Proof.
  apply (X21_token_reused (Q := string) (R := string)
           (Client.NewAuthenticatedClient "sk" "https://example/")
           (Client.mkExchange (utc 0) (utc 1)
              (Some (Client.mkTokenResponse "jwt" "again" 3600)) (utc 2))
           (Client.mkExchange (utc 3000000) (utc 3000001) None (utc 3000002))
           "first" "second" (Some "one") (Some "two")
           (Client.mkTokenResponse "jwt" "again" 3600)).
  - reflexivity.
  - reflexivity.
  - reflexivity.
  - discriminate.
  - vm_compute. split; [discriminate|reflexivity].
  - vm_compute. reflexivity.
Defined.

(** X22. A token that lives five minutes or less is never used twice:
    when the lifetime the upstream gave, in nanoseconds as the 64-bit
    product holds it, is at most five minutes and the clock does not
    go back, the next [Run] asks for a token again before it does
    anything else. The same holds when the upstream gave an empty
    token. *)
Theorem X22_short_token_refetched {Q R : Type}
    (c : Client.AuthenticatedClient) (x x' : Client.Exchange)
    (query query' : Q) (reply reply' : option R)
    (response : Client.TokenResponse) :
  Client.hasValidToken c (Client.firstNow x) = false ->
  Client.hasValidToken c (Client.secondNow x) = false ->
  Client.tokenReply x = Some response ->
  Client.Token response = ""
  \/ (Client.wrap64 (Client.RefreshExpiresIn response * 1000000000)
      <= Client.fiveMinutes)%Z ->
  (unixNano (Client.replyNow x) <= unixNano (Client.firstNow x'))%Z ->
  (unixNano (Client.replyNow x) <= unixNano (Client.secondNow x'))%Z ->
  let c' := (Client.Run c x query reply).1.2 in
  exists rest,
    (Client.Run c' x' query' reply').2
    = Client.ObtainToken (Client.graphqlURL c) (Client.apiKey c) :: rest.
Proof.
  intros H1 H2 Hr Hshort Hn1 Hn2 c'.
  assert (Hc : c' = Client.mkClient (Client.apiKey c) (Client.graphqlURL c)
                      (Client.Token response)
                      (Client.Add (Client.replyNow x)
                         (Client.wrap64
                            (Client.RefreshExpiresIn response * 1000000000)))
                      (Client.RefreshToken response)).
  { subst c'. unfold Client.Run.
    rewrite (ensureValidToken_stale c x H1 H2), Hr. reflexivity. }
  assert (Hv : forall now,
    (unixNano (Client.replyNow x) <= unixNano now)%Z ->
    Client.hasValidToken c' now = false).
  { intros now Hnow. apply not_true_is_false. intros Hv.
    apply hasValidToken_spec in Hv. rewrite Hc in Hv. cbn in Hv.
    destruct Hv as [Hne Hlt]. destruct Hshort as [He|Hle];
      [contradiction|]. unfold Client.fiveMinutes in *. lia. }
  unfold Client.Run.
  rewrite (ensureValidToken_stale c' x' (Hv _ Hn1) (Hv _ Hn2)).
  destruct (Client.obtainToken c' (Client.tokenReply x') (Client.replyNow x'))
    as [ok c''].
  rewrite Hc. cbn [Client.graphqlURL Client.apiKey].
  destruct ok; cbn; eauto.
Qed.

Lemma X22_short_token_refetched_witness :
  let c' :=
    (Client.Run (Client.NewAuthenticatedClient "sk" "https://example/")
       (Client.mkExchange (utc 0) (utc 1)
          (Some (Client.mkTokenResponse "jwt" "again" 300)) (utc 2))
       "first" (Some "one")).1.2 in
  exists rest,
    (Client.Run c' (Client.mkExchange (utc 2) (utc 2) None (utc 3))
       "second" (Some "two")).2
    = Client.ObtainToken "https://example/" "sk" :: rest.
Proof.
  apply (X22_short_token_refetched (Q := string) (R := string)
           (Client.NewAuthenticatedClient "sk" "https://example/")
           (Client.mkExchange (utc 0) (utc 1)
              (Some (Client.mkTokenResponse "jwt" "again" 300)) (utc 2))
           (Client.mkExchange (utc 2) (utc 2) None (utc 3))
           "first" "second" (Some "one") (Some "two")
           (Client.mkTokenResponse "jwt" "again" 300)).
  - reflexivity.
  - reflexivity.
  - reflexivity.
  - right. vm_compute. discriminate.
  - vm_compute. discriminate.
  - vm_compute. discriminate.
Defined.

(** ** The primary fetcher *)

(** X23. [fetchOctopusEvents] starts from a client without a token, so
    whatever the clock reads it first asks for a token with the
    configured API key. Only when that succeeds does it send the
    query, authorised by the new token, for the configured account and
    meter point, the campaign [free_electricity] and the first twenty
    events; the events it returns are the nodes of the edges in their
    order. When either request fails it returns no events and an
    error. *)
Theorem X23_fetchOctopusEvents_requests (config : Settings.Config)
    (x : Client.Exchange) (reply : option Primary.GraphQLResponse) :
  Primary.fetchOctopusEvents config x reply
  = match Client.tokenReply x with
    | None =>
        (([], Some QueryFailed),
         [Client.ObtainToken Primary.graphqlEndpoint (Settings.APIKey config)])
    | Some response =>
        (match reply with
         | None => ([], Some QueryFailed)
         | Some r =>
             (map Primary.Node
                  (Primary.Edges (Primary.CustomerFlexibilityCampaignEvents r)),
              None)
         end,
         [Client.ObtainToken Primary.graphqlEndpoint (Settings.APIKey config);
          Client.Query Primary.graphqlEndpoint (Client.Token response)
            (Primary.mkEventsQuery (Settings.AccountNumber config)
               (Settings.MeterPointID config) "free_electricity" 20)])
    end.
Proof.
  unfold Primary.fetchOctopusEvents, Client.Run, Client.ensureValidToken,
    Client.obtainToken.
  change (Client.hasValidToken
            (Client.NewAuthenticatedClient (Settings.APIKey config)
               Primary.graphqlEndpoint) (Client.firstNow x)) with false.
  change (Client.hasValidToken
            (Client.NewAuthenticatedClient (Settings.APIKey config)
               Primary.graphqlEndpoint) (Client.secondNow x)) with false.
  cbv iota.
  destruct (Client.tokenReply x) as [response|]; [|reflexivity].
  destruct reply; reflexivity.
Qed.

(** ** The run with its fetchers *)

(** X24. When the output file exists but cannot be loaded, the run
    ends before either fetcher starts: nothing is sent upstream, and
    the output file and the cache are left as they were. *)
Theorem X24_unloadable_file_sends_nothing
    (timeMarshalJSON : Time -> option json)
    (timeUnmarshalJSON : Time -> json -> option Time)
    (s : Surroundings) (d : Disk) (e : loadError) :
  loadExistingEvents (output d) = inr e ->
  IsNotExist e = false ->
  fetchAndUpdateEventsOnline timeMarshalJSON timeUnmarshalJSON s d
  = (Some (LoadFailed e), d, []).
Proof.
  intros Hl He. unfold fetchAndUpdateEventsOnline, existingOrFail.
  rewrite Hl, He. reflexivity.
Qed.

Lemma X24_unloadable_file_sends_nothing_witness :
  fetchAndUpdateEventsOnline layoutMarshal layoutUnmarshal
    (mkSurroundings (Settings.mkConfig "A-1" "M-1" "sk" "out.json")
       (Client.mkExchange (utc 0) (utc 0)
          (Some (Client.mkTokenResponse "jwt" "again" 3600)) (utc 0))
       (Some (Primary.mkGraphQLResponse true
                (Primary.mkEventConnection
                   [Primary.mkEventEdge "c1" tenToEleven]
                   (Primary.mkPageInfo "c1" false false "c1") 1 1)))
       (mkNetwork (fun _ => HttpError) WriteDone WriteDone)
       true (fun _ => stableRuntime) WriteDone 100)
    (mkDisk (File NotJson 0) (mkCache (Some "v1") None))
  = (Some (LoadFailed DecodeFailed),
     mkDisk (File NotJson 0) (mkCache (Some "v1") None), []).
Proof.
  apply (X24_unloadable_file_sends_nothing layoutMarshal
           layoutUnmarshal).
  - reflexivity.
  - reflexivity.
Defined.

End Extras.
